(** * Sequence representations of spotlight: a shallow embedding

    The development follows [spotlight/sequence/representations.py]:
    the three user-representation modules [PoolNet], [LSTMNet] and
    [CNNNet], each with [user_representation] and [forward], over a
    small model of the tensor operations they call. *)

From Stdlib Require Import String.
From Stdlib Require Import List ZArith Lia Bool QArith Qcanon Floats.
Import ListNotations.
Local Open Scope nat_scope.
Local Open Scope list_scope.

Set Implicit Arguments.

(** ** Exceptions and fallible computations *)

Inductive error : Type :=
| ValueError (msg : string)
| IndexError
| RuntimeError.

Inductive result (A : Type) : Type :=
| Ok (a : A)
| Err (e : error).

Arguments Ok {A} a.
Arguments Err {A} e.

Definition bind {A B : Type} (c : result A) (k : A -> result B) : result B :=
  match c with
  | Ok a => k a
  | Err e => Err e
  end.

Notation "x <- c ;; k" := (bind c (fun x => k))
  (at level 61, c at next level, right associativity).
Notation "' pat <- c ;; k" := (bind c (fun x => match x with pat => k end))
  (at level 61, pat pattern, c at next level, right associativity).

(** ** Scalars

    The element type of tensors with the arithmetic the module uses.
    Every definition below is parametric in it, so that the theorems
    hold for any arithmetic, rounding or exact. *)

Class Scalar : Type := {
  R : Type;
  zero : R;
  one : R;
  add : R -> R -> R;
  sub : R -> R -> R;
  mul : R -> R -> R;
  div : R -> R -> R;
  of_Z : Z -> R;
  neb : R -> R -> bool;   (* x != y *)
  ltb : R -> R -> bool;   (* x <  y *)
  leb : R -> R -> bool    (* x <= y *)
}.

(** The functions of the backend that are not arithmetic. *)
Class Elementary (S : Scalar) : Type := {
  sqrt : R -> R;
  tanh : R -> R;
  sigmoid : R -> R
}.

(** ** Tensors: a shape and the element at each index *)

Record tensor (A : Type) : Type := mkT {
  shape : list nat;
  data : list nat -> A
}.

(** [idx] is an index of a tensor of shape [s]. *)
Definition valid (s idx : list nat) : Prop := Forall2 lt idx s.

(** All indices of a shape, in row-major order. *)
Fixpoint indices (s : list nat) : list (list nat) :=
  match s with
  | [] => [[]]
  | n :: s' => flat_map (fun i => map (cons i) (indices s')) (seq 0 n)
  end.

Definition ix (idx : list nat) (k : nat) : nat := nth k idx 0.

(** Replace, insert and delete the [k]-th component. *)
Fixpoint upd (l : list nat) (k v : nat) : list nat :=
  match l, k with
  | [], _ => []
  | _ :: l', 0 => v :: l'
  | a :: l', S k' => a :: upd l' k' v
  end.

Fixpoint ins (l : list nat) (k v : nat) : list nat :=
  match k, l with
  | 0, _ => v :: l
  | S k', a :: l' => a :: ins l' k' v
  | S _, [] => [v]
  end.

Fixpoint del (l : list nat) (k : nat) : list nat :=
  match l, k with
  | [], _ => []
  | _ :: l', 0 => l'
  | a :: l', S k' => a :: del l' k'
  end.

(** Nested lists of the elements, for rank 2 and 3. *)
Definition to_list2 {A} (x : tensor A) : list (list A) :=
  map (fun i => map (fun j => data x [i; j]) (seq 0 (ix (shape x) 1)))
      (seq 0 (ix (shape x) 0)).
Definition to_list3 {A} (x : tensor A) : list (list (list A)) :=
  map (fun i => map (fun j => map (fun k => data x [i; j; k])
                                  (seq 0 (ix (shape x) 2)))
                    (seq 0 (ix (shape x) 1)))
      (seq 0 (ix (shape x) 0)).

(** Tensors from nested lists ([torch.tensor([...])]). *)
Definition of_list2 {A} (d : A) (l : list (list A)) : tensor A :=
  mkT [length l; length (hd [] l)]
      (fun idx => nth (ix idx 1) (nth (ix idx 0) l []) d).
Definition of_list3 {A} (d : A) (l : list (list (list A))) : tensor A :=
  mkT [length l; length (hd [] l); length (hd [] (hd [] l))]
      (fun idx => nth (ix idx 2) (nth (ix idx 1) (nth (ix idx 0) l []) []) d).

(** ** Tensor operations *)

Definition tmap {A B} (f : A -> B) (x : tensor A) : tensor B :=
  mkT (shape x) (fun idx => f (data x idx)).

(** Position of [j] in [dims]. *)
Fixpoint index_of (j : nat) (dims : list nat) : nat :=
  match dims with
  | [] => 0
  | d :: dims' => if d =? j then 0 else S (index_of j dims')
  end.

Definition is_perm (dims : list nat) (r : nat) : bool :=
  (length dims =? r) &&
  forallb (fun j => existsb (Nat.eqb j) dims) (seq 0 r).

(** [x.permute(dims)] *)
Definition permute {A} (x : tensor A) (dims : list nat) : result (tensor A) :=
  if is_perm dims (length (shape x)) then
    Ok (mkT (map (ix (shape x)) dims)
            (fun idx => data x (map (fun j => ix idx (index_of j dims))
                                    (seq 0 (length dims)))))
  else Err RuntimeError.

(** [x.unsqueeze(d)] *)
Definition unsqueeze {A} (x : tensor A) (d : nat) : result (tensor A) :=
  if d <=? length (shape x) then
    Ok (mkT (ins (shape x) d 1) (fun idx => data x (del idx d)))
  else Err IndexError.

(** [x.squeeze(d)]: the dimension is removed only when its size is 1. *)
Definition squeeze {A} (x : tensor A) (d : nat) : result (tensor A) :=
  if d <? length (shape x) then
    if ix (shape x) d =? 1 then
      Ok (mkT (del (shape x) d) (fun idx => data x (ins idx d 0)))
    else Ok x
  else Err IndexError.

(** Padding of one dimension with [left] on the left and [right] on the
    right; a negative amount crops, as in [F.pad]. *)
Definition pad_dim {A} (fill : A) (x : tensor A) (d : nat) (left right : Z)
  : result (tensor A) :=
  if (left =? 0)%Z && (right =? 0)%Z then Ok x
  else
    let n := Z.of_nat (ix (shape x) d) in
    if (n + left + right <? 0)%Z then Err RuntimeError
    else
      Ok (mkT (upd (shape x) d (Z.to_nat (n + left + right)))
              (fun idx =>
                 let k := (Z.of_nat (ix idx d) - left)%Z in
                 if ((k <? 0) || (n <=? k))%Z then fill
                 else data x (upd idx d (Z.to_nat k)))).

(** [F.pad(x, (a, b, c, d))]: [(a, b)] pads the last dimension and
    [(c, d)] the one before it, with zeros. *)
Definition F_pad {Sc : Scalar} (x : tensor R) (p : Z * Z * Z * Z)
  : result (tensor R) :=
  let '(a, b, c, d) := p in
  let r := length (shape x) in
  if r <? 2 then Err RuntimeError
  else
    y <- pad_dim zero x (r - 1) a b ;;
    pad_dim zero y (r - 2) c d.

(** Running sum [f 0 + f 1 + ... + f k], from the left. *)
Fixpoint csum {Sc : Scalar} (f : nat -> R) (k : nat) : R :=
  match k with
  | 0 => f 0
  | S k' => add (csum f k') (f k)
  end.

(** Sum of the first [n] values; the empty sum is zero. *)
Definition sum_n {Sc : Scalar} (f : nat -> R) (n : nat) : R :=
  match n with
  | 0 => zero
  | S m => csum f m
  end.

(** [torch.cumsum(x, d)] *)
Definition cumsum {Sc : Scalar} (x : tensor R) (d : nat) : result (tensor R) :=
  if d <? length (shape x) then
    Ok (mkT (shape x)
            (fun idx => csum (fun m => data x (upd idx d m)) (ix idx d)))
  else Err IndexError.

(** [x.sum(d)] *)
Definition tsum {Sc : Scalar} (x : tensor R) (d : nat) : result (tensor R) :=
  if d <? length (shape x) then
    Ok (mkT (del (shape x) d)
            (fun idx => sum_n (fun j => data x (ins idx d j)) (ix (shape x) d)))
  else Err IndexError.

(** Broadcasting: shapes are aligned from the right; two sizes are
    compatible when they are equal or one of them is 1. *)
Fixpoint bshape_rev (r1 r2 : list nat) : option (list nat) :=
  match r1, r2 with
  | [], r => Some r
  | r, [] => Some r
  | a :: r1', b :: r2' =>
      match bshape_rev r1' r2' with
      | None => None
      | Some r =>
          if a =? b then Some (a :: r)
          else if a =? 1 then Some (b :: r)
          else if b =? 1 then Some (a :: r)
          else None
      end
  end.

Definition broadcast_shapes (s1 s2 : list nat) : option (list nat) :=
  option_map (@rev nat) (bshape_rev (rev s1) (rev s2)).

(** The index into an operand of shape [s] for the index [idx] of the
    broadcast result. *)
Definition bidx (s idx : list nat) : list nat :=
  map (fun p => if fst p =? 1 then 0 else snd p)
      (combine s (skipn (length idx - length s) idx)).

Definition binop {A B C} (op : A -> B -> C) (x : tensor A) (y : tensor B)
  : result (tensor C) :=
  match broadcast_shapes (shape x) (shape y) with
  | Some s =>
      Ok (mkT s (fun idx => op (data x (bidx (shape x) idx))
                               (data y (bidx (shape y) idx))))
  | None => Err RuntimeError
  end.

(** [x.expand_as(y)] *)
Definition expand_as {A B} (x : tensor A) (y : tensor B) : result (tensor A) :=
  match broadcast_shapes (shape x) (shape y) with
  | Some s =>
      if list_eq_dec Nat.eq_dec s (shape y) then
        Ok (mkT (shape y) (fun idx => data x (bidx (shape x) idx)))
      else Err RuntimeError
  | None => Err RuntimeError
  end.

(** [x[:, :, :-1]] for [d = 2]: all but the last position of dimension [d]. *)
Definition but_last {A} (x : tensor A) (d : nat) : result (tensor A) :=
  if d <? length (shape x) then
    Ok (mkT (upd (shape x) d (ix (shape x) d - 1)) (data x))
  else Err IndexError.

(** [x[:, :, -1]] for [d = 2]: the last position of dimension [d]. *)
Definition select_last {A} (x : tensor A) (d : nat) : result (tensor A) :=
  if (d <? length (shape x)) && (0 <? ix (shape x) d) then
    Ok (mkT (del (shape x) d)
            (fun idx => data x (ins idx d (ix (shape x) d - 1))))
  else Err IndexError.

(** Python's [l[i]] and [l[i] = v] on a list. *)
Definition get {A} (l : list A) (i : nat) : result A :=
  match nth_error l i with
  | Some a => Ok a
  | None => Err IndexError
  end.

Fixpoint set_nth {A} (l : list A) (i : nat) (v : A) : list A :=
  match l, i with
  | [], _ => []
  | _ :: l', 0 => v :: l'
  | a :: l', S i' => a :: set_nth l' i' v
  end.

(** ** The layers of [torch.nn] the module builds on *)

(** [nn.Embedding]: a table [weight] of shape [num; dim]. *)
Module Embedding.
Section WithScalar.
Context {Sc : Scalar}.

Record t : Type := mk {
  weight : tensor R;
  padding_idx : option nat
}.

Definition forward (self : t) (ids : tensor nat) : result (tensor R) :=
  match shape (weight self) with
  | [num; dim] =>
      if forallb (fun idx => data ids idx <? num) (indices (shape ids)) then
        Ok (mkT (shape ids ++ [dim])
                (fun idx => data (weight self)
                              [data ids (removelast idx); last idx 0]))
      else Err IndexError
  | _ => Err RuntimeError
  end.

End WithScalar.
End Embedding.

(** Modelled from the spec: [spotlight.layers.ScaledEmbedding] and
    [ZeroEmbedding] are not part of the sources at hand.  The spec gives
    them as tables of shape [num; dim] with scaled, respectively zero,
    initial values, whose row at the padding index is the zero vector.
    The random initial values are the argument [init]. *)
Definition ScaledEmbedding {Sc : Scalar} (init : list nat -> R)
  (num_embeddings embedding_dim : nat) (padding_idx : nat) : Embedding.t :=
  Embedding.mk
    (mkT [num_embeddings; embedding_dim]
         (fun idx => if ix idx 0 =? padding_idx then zero else init idx))
    (Some padding_idx).

Definition ZeroEmbedding {Sc : Scalar}
  (num_embeddings embedding_dim : nat) (padding_idx : nat) : Embedding.t :=
  Embedding.mk (mkT [num_embeddings; embedding_dim] (fun _ => zero))
               (Some padding_idx).

(** [nn.Conv2d] with stride 1 and no padding of its own. *)
Module Conv2d.
Section WithScalar.
Context {Sc : Scalar}.

Record t : Type := mk {
  in_channels : nat;
  out_channels : nat;
  kernel_size : nat * nat;
  dilation : nat * nat;
  weight : tensor R;          (* [out; in; kh; kw] *)
  bias : tensor R             (* [out] *)
}.

(** The constructor; [w] and [b] are the random initial values. *)
Definition init (w b : list nat -> R) (in_channels out_channels : nat)
  (kernel_size dilation : nat * nat) : t :=
  mk in_channels out_channels kernel_size dilation
     (mkT [out_channels; in_channels; fst kernel_size; snd kernel_size] w)
     (mkT [out_channels] b).

Definition forward (self : t) (x : tensor R) : result (tensor R) :=
  match shape x with
  | [n; c; h; w] =>
      let '(kh, kw) := kernel_size self in
      let '(dh, dw) := dilation self in
      if (c =? in_channels self)
         && (0 <? kh) && (0 <? kw) && (0 <? dh) && (0 <? dw)
         && (dh * (kh - 1) <? h) && (dw * (kw - 1) <? w)
      then
        Ok (mkT [n; out_channels self; h - dh * (kh - 1); w - dw * (kw - 1)]
                (fun idx =>
                   add (data (bias self) [ix idx 1])
                       (sum_n (fun ci =>
                          sum_n (fun i =>
                            sum_n (fun j =>
                              mul (data (weight self) [ix idx 1; ci; i; j])
                                  (data x [ix idx 0; ci;
                                           ix idx 2 + i * dh;
                                           ix idx 3 + j * dw]))
                              kw) kh) c)))
      else Err RuntimeError
  | _ => Err RuntimeError
  end.

End WithScalar.
End Conv2d.

(** [nn.BatchNorm2d] with its defaults: affine, running statistics
    tracked, [eps = 1e-5], [momentum = 0.1].  In training mode the input
    is normalised with the statistics of the batch, taken per channel
    over the batch and both spatial dimensions, and the running
    statistics are updated in place; in evaluation mode the running
    statistics normalise and nothing is updated. *)
Module BatchNorm2d.
Section WithScalar.
Context {Sc : Scalar} {E : Elementary Sc}.

Record t : Type := mk {
  num_features : nat;
  eps : R;
  momentum : R;
  weight : list R;
  bias : list R;
  running_mean : list R;
  running_var : list R;
  num_batches_tracked : nat;
  training : bool
}.

Definition init (num_features : nat) : t :=
  mk num_features
     (div (of_Z 1) (of_Z 100000)) (div (of_Z 1) (of_Z 10))
     (repeat one num_features) (repeat zero num_features)
     (repeat zero num_features) (repeat one num_features)
     0 true.

(** Sum of [f] over the elements of channel [ch]. *)
Definition total (x : tensor R) (f : R -> R) (ch : nat) : R :=
  sum_n (fun i =>
    sum_n (fun j =>
      sum_n (fun k => f (data x [i; ch; j; k]))
            (ix (shape x) 3))
          (ix (shape x) 2))
        (ix (shape x) 0).

Definition count (x : tensor R) : nat :=
  ix (shape x) 0 * ix (shape x) 2 * ix (shape x) 3.

Definition mean (x : tensor R) (ch : nat) : R :=
  div (total x (fun v => v) ch) (of_Z (Z.of_nat (count x))).

Definition sq_dev (x : tensor R) (ch : nat) : R :=
  total x (fun v => mul (sub v (mean x ch)) (sub v (mean x ch))) ch.

(** Biased variance (normalises the batch) and unbiased variance
    (enters the running statistics). *)
Definition var (x : tensor R) (ch : nat) : R :=
  div (sq_dev x ch) (of_Z (Z.of_nat (count x))).
Definition var_unbiased (x : tensor R) (ch : nat) : R :=
  div (sq_dev x ch) (of_Z (Z.of_nat (count x) - 1)).

Definition normalize (self : t) (m v : nat -> R) (x : tensor R) : tensor R :=
  mkT (shape x)
      (fun idx =>
         let ch := ix idx 1 in
         add (mul (div (sub (data x idx) (m ch)) (sqrt (add (v ch) (eps self))))
                  (nth ch (weight self) zero))
             (nth ch (bias self) zero)).

Definition moving (self : t) (old new : R) : R :=
  add (mul (sub one (momentum self)) old) (mul (momentum self) new).

Definition update (self : t) (x : tensor R) : t :=
  mk (num_features self) (eps self) (momentum self)
     (weight self) (bias self)
     (map (fun ch => moving self (nth ch (running_mean self) zero) (mean x ch))
          (seq 0 (num_features self)))
     (map (fun ch => moving self (nth ch (running_var self) zero)
                            (var_unbiased x ch))
          (seq 0 (num_features self)))
     (S (num_batches_tracked self))
     (training self).

Definition forward (self : t) (x : tensor R) : result (tensor R * t) :=
  match shape x with
  | [n; c; h; w] =>
      if c =? num_features self then
        if training self then
          if n * h * w =? 1 then
            Err (ValueError "Expected more than 1 value per channel when training")
          else Ok (normalize self (mean x) (var x) x, update self x)
        else
          Ok (normalize self (fun ch => nth ch (running_mean self) zero)
                             (fun ch => nth ch (running_var self) zero) x,
              self)
      else Err RuntimeError
  | _ => Err (ValueError "expected 4D input")
  end.

(** [self.eval()] and [self.train()] *)
Definition set_training (mode : bool) (self : t) : t :=
  mk (num_features self) (eps self) (momentum self)
     (weight self) (bias self) (running_mean self) (running_var self)
     (num_batches_tracked self) mode.

End WithScalar.
End BatchNorm2d.

(** [nn.LSTM] with one layer, one direction and [batch_first=True]:
    the input is [N; T; input_size], the output the hidden state at
    every step, [N; T; hidden_size].  The gates of row block 0, 1, 2, 3
    of the weights are input, forget, cell and output. *)
Module LSTM.
Section WithScalar.
Context {Sc : Scalar} {E : Elementary Sc}.

Record t : Type := mk {
  input_size : nat;
  hidden_size : nat;
  weight_ih : tensor R;       (* [4 * hidden; input] *)
  weight_hh : tensor R;       (* [4 * hidden; hidden] *)
  bias_ih : tensor R;         (* [4 * hidden] *)
  bias_hh : tensor R          (* [4 * hidden] *)
}.

Definition init (w_ih w_hh b_ih b_hh : list nat -> R)
  (input_size hidden_size : nat) : t :=
  mk input_size hidden_size
     (mkT [4 * hidden_size; input_size] w_ih)
     (mkT [4 * hidden_size; hidden_size] w_hh)
     (mkT [4 * hidden_size] b_ih) (mkT [4 * hidden_size] b_hh).

Definition gate (self : t) (row : nat) (x h : list R) : R :=
  add (add (add (sum_n (fun j => mul (data (weight_ih self) [row; j])
                                     (nth j x zero))
                       (input_size self))
                (data (bias_ih self) [row]))
           (sum_n (fun j => mul (data (weight_hh self) [row; j])
                                (nth j h zero))
                  (hidden_size self)))
      (data (bias_hh self) [row]).

(** One step: from the state [(h, c)] and the input [x] to the next state. *)
Definition cell (self : t) (st : list R * list R) (x : list R)
  : list R * list R :=
  let '(h, c) := st in
  let n := hidden_size self in
  let c' :=
    map (fun j =>
           add (mul (sigmoid (gate self (n + j) x h)) (nth j c zero))
               (mul (sigmoid (gate self j x h))
                    (tanh (gate self (2 * n + j) x h))))
        (seq 0 n) in
  let h' :=
    map (fun j =>
           mul (sigmoid (gate self (3 * n + j) x h)) (tanh (nth j c' zero)))
        (seq 0 n) in
  (h', c').

(** The state after the first [k] inputs, from the zero state. *)
Fixpoint run (self : t) (xs : nat -> list R) (k : nat) : list R * list R :=
  match k with
  | 0 => (repeat zero (hidden_size self), repeat zero (hidden_size self))
  | S k' => cell self (run self xs k') (xs k')
  end.

(** The inputs of batch row [n], step by step. *)
Definition inputs (x : tensor R) (n : nat) (s : nat) : list R :=
  map (fun j => data x [n; s; j]) (seq 0 (ix (shape x) 2)).

(** Returns [(output, (h_n, c_n))]. *)
Definition forward (self : t) (x : tensor R)
  : result (tensor R * (tensor R * tensor R)) :=
  match shape x with
  | [n; steps; i] =>
      if i =? input_size self then
        Ok (mkT [n; steps; hidden_size self]
                (fun idx => nth (ix idx 2)
                              (fst (run self (inputs x (ix idx 0)) (S (ix idx 1))))
                              zero),
            (mkT [1; n; hidden_size self]
                 (fun idx => nth (ix idx 2)
                               (fst (run self (inputs x (ix idx 1)) steps)) zero),
             mkT [1; n; hidden_size self]
                 (fun idx => nth (ix idx 2)
                               (snd (run self (inputs x (ix idx 1)) steps)) zero)))
      else Err RuntimeError
  | _ => Err RuntimeError
  end.

End WithScalar.
End LSTM.

(** ** [spotlight/sequence/representations.py] *)

Definition PADDING_IDX : nat := 0.

(** A constructor argument that is an int or a sequence of ints. *)
Inductive int_or_seq : Type :=
| Int (v : nat)
| Seq (l : list nat).

Definition _to_iterable (val : int_or_seq) (num : nat) : list nat :=
  match val with
  | Seq l => l
  | Int v => repeat v num
  end.

(** The body of [forward], the same in the three classes: the scores of
    the [targets] under the [user_representations]. *)
Definition target_scores {Sc : Scalar} (item_embeddings item_biases : Embedding.t)
  (user_representations : tensor R) (targets : tensor nat)
  : result (tensor R) :=
  e <- Embedding.forward item_embeddings targets ;;
  target_embedding <- permute e [0; 2; 1] ;;
  b <- Embedding.forward item_biases targets ;;
  target_bias <- squeeze b 1 ;;
  p <- binop mul user_representations target_embedding ;;
  s <- tsum p 1 ;;
  dot <- squeeze s 1 ;;
  binop add target_bias dot.

(** The first lines of every [user_representation]: the embeddings of
    the sequence with the embedding dimension as the channel dimension
    and a trailing dimension of 1. *)
Definition channel_embeddings {Sc : Scalar} (item_embeddings : Embedding.t)
  (item_sequences : tensor nat) : result (tensor R) :=
  e <- Embedding.forward item_embeddings item_sequences ;;
  sequence_embeddings <- permute e [0; 2; 1] ;;
  unsqueeze sequence_embeddings 3.

(** [(x[:, :, :-1], x[:, :, -1])] *)
Definition split_last {A} (x : tensor A) : result (tensor A * tensor A) :=
  a <- but_last x 2 ;;
  f <- select_last x 2 ;;
  Ok (a, f).

Module PoolNet.
Section WithScalar.
Context {Sc : Scalar}.

Record t : Type := mk {
  embedding_dim : nat;
  item_embeddings : Embedding.t;
  item_biases : Embedding.t
}.

Definition init (rng : nat -> list nat -> R)
  (num_items embedding_dim : nat) (sparse : bool) : t :=
  mk embedding_dim
     (ScaledEmbedding (rng 0) num_items embedding_dim PADDING_IDX)
     (ZeroEmbedding num_items 1 PADDING_IDX).

Definition user_representation (self : t) (item_sequences : tensor nat)
  : result (tensor R * tensor R) :=
  sequence_embeddings <- channel_embeddings (item_embeddings self) item_sequences ;;
  sequence_embeddings <- F_pad sequence_embeddings (0, 0, 1, 0)%Z ;;
  sequence_embedding_sum <- cumsum sequence_embeddings 2 ;;
  c <- cumsum (tmap (fun b : bool => if b then one else zero)
                    (tmap (fun v => neb v zero) sequence_embeddings)) 2 ;;
  non_padding_entries <- expand_as c sequence_embedding_sum ;;
  q <- binop div sequence_embedding_sum
             (tmap (fun v => add v one) non_padding_entries) ;;
  user_representations <- squeeze q 3 ;;
  split_last user_representations.

Definition forward (self : t) (user_representations : tensor R)
  (targets : tensor nat) : result (tensor R) :=
  target_scores (item_embeddings self) (item_biases self)
                user_representations targets.

End WithScalar.
End PoolNet.

Module LSTMNet.
Section WithScalar.
Context {Sc : Scalar} {E : Elementary Sc}.

Record t : Type := mk {
  embedding_dim : nat;
  item_embeddings : Embedding.t;
  item_biases : Embedding.t;
  lstm : LSTM.t
}.

Definition init (rng : nat -> list nat -> R)
  (num_items embedding_dim : nat) (sparse : bool) : t :=
  mk embedding_dim
     (ScaledEmbedding (rng 0) num_items embedding_dim PADDING_IDX)
     (ZeroEmbedding num_items 1 PADDING_IDX)
     (LSTM.init (rng 1) (rng 2) (rng 3) (rng 4) embedding_dim embedding_dim).

Definition user_representation (self : t) (item_sequences : tensor nat)
  : result (tensor R * tensor R) :=
  sequence_embeddings <- channel_embeddings (item_embeddings self) item_sequences ;;
  sequence_embeddings <- F_pad sequence_embeddings (0, 0, 1, 0)%Z ;;
  sequence_embeddings <- squeeze sequence_embeddings 3 ;;
  sequence_embeddings <- permute sequence_embeddings [0; 2; 1] ;;
  '(user_representations, _) <- LSTM.forward (lstm self) sequence_embeddings ;;
  user_representations <- permute user_representations [0; 2; 1] ;;
  split_last user_representations.

Definition forward (self : t) (user_representations : tensor R)
  (targets : tensor nat) : result (tensor R) :=
  target_scores (item_embeddings self) (item_biases self)
                user_representations targets.

End WithScalar.
End LSTMNet.

Inductive nonlinearity_fn : Type := F_tanh | F_relu.

Definition relu {Sc : Scalar} (x : R) : R := if ltb zero x then x else zero.

Definition apply_nonlinearity {Sc : Scalar} {E : Elementary Sc} (f : nonlinearity_fn) (x : R) : R :=
  match f with
  | F_tanh => tanh x
  | F_relu => relu x
  end.

Module CNNNet.
Section WithScalar.
Context {Sc : Scalar} {E : Elementary Sc}.

Record t : Type := mk {
  embedding_dim : nat;
  kernel_width : list nat;
  dilation : list nat;
  nonlinearity : nonlinearity_fn;
  residual_connections : bool;
  batch_norm : bool;
  item_embeddings : Embedding.t;
  item_biases : Embedding.t;
  cnn_layers : list Conv2d.t;
  bn : list BatchNorm2d.t
}.

(** The constructor.  [rng k] gives the random initial values of the
    [k]-th parameter tensor, and the constructors of the layers are
    taken to succeed.  The process-wide [cudnn.benchmark] flag the
    constructor also sets is no part of the module. *)
Definition init (rng : nat -> list nat -> R)
  (num_items embedding_dim : nat) (kernel_width dilation : int_or_seq)
  (num_layers : nat) (nonlinearity : string)
  (residual_connections batch_norm sparse benchmark : bool) : result t :=
  let kernel_widths := _to_iterable kernel_width num_layers in
  let dilations := _to_iterable dilation num_layers in
  f <- (if string_dec nonlinearity "tanh" then Ok F_tanh
        else if string_dec nonlinearity "relu" then Ok F_relu
        else Err (ValueError "Nonlinearity must be one of (tanh, relu)")) ;;
  let cnn_layers :=
    map (fun p : nat * (nat * nat) =>
           let '(i, (kernel_width, dilation)) := p in
           Conv2d.init (rng (1 + 2 * i)) (rng (2 + 2 * i))
                       embedding_dim embedding_dim
                       (kernel_width, 1) (dilation, 1))
        (combine (seq 0 (length kernel_widths))
                 (combine kernel_widths dilations)) in
  Ok (mk embedding_dim kernel_widths dilations f
         residual_connections batch_norm
         (ScaledEmbedding (rng 0) num_items embedding_dim PADDING_IDX)
         (ZeroEmbedding num_items 1 PADDING_IDX)
         cnn_layers
         (if batch_norm
          then map (fun _ => BatchNorm2d.init embedding_dim)
                   (seq 0 (length cnn_layers))
          else [])).

Definition receptive_field (kernel_width dilation : nat) : Z :=
  (Z.of_nat kernel_width
   + (Z.of_nat kernel_width - 1) * (Z.of_nat dilation - 1))%Z.

(** [if self.batch_norm: x = self.bn[i](x)], with the layer's buffers
    written back. *)
Definition apply_bn (self : t) (bns : list BatchNorm2d.t) (i : nat)
  (x : tensor R) : result (tensor R * list BatchNorm2d.t) :=
  if batch_norm self then
    b <- get bns i ;;
    '(y, b') <- BatchNorm2d.forward b x ;;
    Ok (y, set_nth bns i b')
  else Ok (x, bns).

Definition add_residual (self : t) (x residual : tensor R)
  : result (tensor R) :=
  if residual_connections self then binop add x residual else Ok x.

(** The body of the loop over the layers after the first; [i] is the
    loop's counter. *)
Definition loop_body (self : t) (i : nat)
  (cnn_layer : Conv2d.t) (kernel_width dilation : nat)
  (x : tensor R) (bns : list BatchNorm2d.t)
  : result (tensor R * list BatchNorm2d.t) :=
  let receptive_field_width := receptive_field kernel_width dilation in
  let residual := x in
  x <- F_pad x (0, 0, receptive_field_width - 1, 0)%Z ;;
  x <- Conv2d.forward cnn_layer x ;;
  '(x, bns) <- apply_bn self bns i
                 (tmap (apply_nonlinearity (nonlinearity self)) x) ;;
  x <- add_residual self x residual ;;
  Ok (x, bns).

(** [for i, (cnn_layer, kernel_width, dilation) in enumerate(zip(...))]:
    the counter starts at 0 with the second layer. *)
Fixpoint layers_loop (self : t) (i : nat)
  (rest : list (Conv2d.t * nat * nat))
  (x : tensor R) (bns : list BatchNorm2d.t)
  : result (tensor R * list BatchNorm2d.t) :=
  match rest with
  | [] => Ok (x, bns)
  | (cnn_layer, kernel_width, dilation) :: rest' =>
      '(x, bns) <- loop_body self i cnn_layer kernel_width dilation x bns ;;
      layers_loop self (S i) rest' x bns
  end.

(** The first layer: it pads by the whole receptive field, and its
    residual is the embedded sequence with one zero step in front. *)
Definition first_layer (self : t) (sequence_embeddings : tensor R)
  : result (tensor R * list BatchNorm2d.t) :=
  k0 <- get (kernel_width self) 0 ;;
  d0 <- get (dilation self) 0 ;;
  let receptive_field_width := receptive_field k0 d0 in
  x <- F_pad sequence_embeddings (0, 0, receptive_field_width, 0)%Z ;;
  layer0 <- get (cnn_layers self) 0 ;;
  x <- Conv2d.forward layer0 x ;;
  '(x, bns) <- apply_bn self (bn self) 0
                 (tmap (apply_nonlinearity (nonlinearity self)) x) ;;
  x <- (if residual_connections self then
          residual <- F_pad sequence_embeddings (0, 0, 1, 0)%Z ;;
          binop add x residual
        else Ok x) ;;
  Ok (x, bns).

Definition with_bn (self : t) (bns : list BatchNorm2d.t) : t :=
  mk (embedding_dim self) (kernel_width self) (dilation self)
     (nonlinearity self) (residual_connections self) (batch_norm self)
     (item_embeddings self) (item_biases self) (cnn_layers self) bns.

(** Returns the two representations and the module after the call. *)
Definition user_representation (self : t) (item_sequences : tensor nat)
  : result (tensor R * tensor R * t) :=
  sequence_embeddings <- channel_embeddings (item_embeddings self) item_sequences ;;
  '(x, bns) <- first_layer self sequence_embeddings ;;
  '(x, bns) <- layers_loop self 0
                 (combine (combine (tl (cnn_layers self)) (tl (kernel_width self)))
                          (tl (dilation self)))
                 x bns ;;
  x <- squeeze x 3 ;;
  '(all_representations, final_representation) <- split_last x ;;
  Ok (all_representations, final_representation, with_bn self bns).

Definition forward (self : t) (user_representations : tensor R)
  (targets : tensor nat) : result (tensor R) :=
  target_scores (item_embeddings self) (item_biases self)
                user_representations targets.

(** [self.eval()] and [self.train()] *)
Definition set_training (mode : bool) (self : t) : t :=
  with_bn self (map (BatchNorm2d.set_training mode) (bn self)).

End WithScalar.
End CNNNet.

(** ** The three variants behind one interface *)

Section Encoders.
Context {Sc : Scalar} {E : Elementary Sc}.

Inductive encoder : Type :=
| Pooling (m : PoolNet.t)
| Recurrent (m : LSTMNet.t)
| CausalConv (m : CNNNet.t).

(** The representations and the module after the call. *)
Definition user_representation (enc : encoder) (item_sequences : tensor nat)
  : result (tensor R * tensor R * encoder) :=
  match enc with
  | Pooling m =>
      '(a, f) <- PoolNet.user_representation m item_sequences ;;
      Ok (a, f, Pooling m)
  | Recurrent m =>
      '(a, f) <- LSTMNet.user_representation m item_sequences ;;
      Ok (a, f, Recurrent m)
  | CausalConv m =>
      '(a, f, m') <- CNNNet.user_representation m item_sequences ;;
      Ok (a, f, CausalConv m')
  end.

Definition forward (enc : encoder) (user_representations : tensor R)
  (targets : tensor nat) : result (tensor R) :=
  match enc with
  | Pooling m => PoolNet.forward m user_representations targets
  | Recurrent m => LSTMNet.forward m user_representations targets
  | CausalConv m => CNNNet.forward m user_representations targets
  end.

Definition item_embeddings (enc : encoder) : Embedding.t :=
  match enc with
  | Pooling m => PoolNet.item_embeddings m
  | Recurrent m => LSTMNet.item_embeddings m
  | CausalConv m => CNNNet.item_embeddings m
  end.

Definition item_biases (enc : encoder) : Embedding.t :=
  match enc with
  | Pooling m => PoolNet.item_biases m
  | Recurrent m => LSTMNet.item_biases m
  | CausalConv m => CNNNet.item_biases m
  end.

Definition embedding_dim (enc : encoder) : nat :=
  match enc with
  | Pooling m => PoolNet.embedding_dim m
  | Recurrent m => LSTMNet.embedding_dim m
  | CausalConv m => CNNNet.embedding_dim m
  end.

End Encoders.

(** ** Two arithmetics to compute with *)

(** Exact rational arithmetic. *)
Definition exact : Scalar := {|
  R := Qc;
  zero := Q2Qc 0;
  one := Q2Qc 1;
  add := Qcplus;
  sub := Qcminus;
  mul := Qcmult;
  div := Qcdiv;
  of_Z := fun z => Q2Qc (inject_Z z);
  neb := fun x y => negb (Qeq_bool x y);
  ltb := fun x y => negb (Qle_bool y x);
  leb := fun x y => Qle_bool x y
|}.

(** IEEE 754 binary64 arithmetic, rounding to nearest. *)
Definition float_of_Z (z : Z) : float :=
  if (z <? 0)%Z then PrimFloat.opp (PrimFloat.of_uint63 (Uint63.of_Z (- z)))
  else PrimFloat.of_uint63 (Uint63.of_Z z).

Definition binary64 : Scalar := {|
  R := float;
  zero := 0%float;
  one := 1%float;
  add := PrimFloat.add;
  sub := PrimFloat.sub;
  mul := PrimFloat.mul;
  div := PrimFloat.div;
  of_Z := float_of_Z;
  neb := fun x y => negb (PrimFloat.eqb x y);
  ltb := PrimFloat.ltb;
  leb := PrimFloat.leb
|}.

(** The exponential on binary64, from its series after halving the
    argument ten times; tanh and the logistic function from it. *)
Fixpoint exp_terms (x : float) (n : nat) (k term : float) : float :=
  match n with
  | 0 => term
  | S n' => PrimFloat.add term (exp_terms x n' (PrimFloat.add k 1) (PrimFloat.div (PrimFloat.mul term x) k))
  end.

Fixpoint square_times (n : nat) (x : float) : float :=
  match n with
  | 0 => x
  | S n' => square_times n' (PrimFloat.mul x x)
  end.

Definition float_exp (x : float) : float :=
  square_times 10 (exp_terms (PrimFloat.div x 1024) 18 1 1).

Definition float_tanh (x : float) : float :=
  if PrimFloat.ltb 20 x then 1%float
  else if PrimFloat.ltb x (-20) then (-1)%float
  else let e := float_exp (PrimFloat.mul 2 x) in
       PrimFloat.div (PrimFloat.sub e 1) (PrimFloat.add e 1).

Definition float_sigmoid (x : float) : float :=
  PrimFloat.div 1 (PrimFloat.add 1 (float_exp (PrimFloat.opp x))).

Definition binary64_elementary : Elementary binary64 :=
  @Build_Elementary binary64 PrimFloat.sqrt float_tanh float_sigmoid.

(** ** What the modules compute, in closed form; well-formed modules *)

Section Values.
Context {Sc : Scalar} {E : Elementary Sc}.

(** The embedding the module reads for the item at position [m] of
    sequence [n], in channel [d]. *)
Definition embedded (e : Embedding.t) (ids : tensor nat) (n d m : nat) : R :=
  data (Embedding.weight e) [data ids [n; m]; d].

(** The stream a sequence becomes after the zero step is put in front. *)
Definition padded (e : Embedding.t) (ids : tensor nat) (n d m : nat) : R :=
  match m with
  | 0 => zero
  | S m' => embedded e ids n d m'
  end.

Definition indicator (v : R) : R := if neb v zero then one else zero.

(** The value [PoolNet.user_representation] computes for step [t], and
    the denominator of its division. *)
Definition pool_denominator (e : Embedding.t) (ids : tensor nat) (n d t : nat) : R :=
  add (csum (fun m => indicator (padded e ids n d m)) t) one.

Definition pool_value (e : Embedding.t) (ids : tensor nat) (n d t : nat) : R :=
  div (csum (padded e ids n d) t) (pool_denominator e ids n d t).

(** The sum of the embeddings of the first [t] items, the number of
    them whose embedding is not 0 in channel [d], and the number of
    them that are not padding; the numbers are sums of ones, as the
    module counts. *)
Definition prefix_sum (e : Embedding.t) (ids : tensor nat) (n d t : nat) : R :=
  fold_left add (map (embedded e ids n d) (seq 0 t)) zero.

Definition nonzero_count (e : Embedding.t) (ids : tensor nat) (n d t : nat) : R :=
  fold_left add (map (fun m => indicator (embedded e ids n d m)) (seq 0 t)) zero.

Definition nonpadding_count (ids : tensor nat) (n t : nat) : R :=
  fold_left add
    (map (fun m => if data ids [n; m] =? PADDING_IDX then zero else one) (seq 0 t))
    zero.

(** The value the spec gives for step [t]: the sum of the embeddings of
    the first [t] items over the number of non-padding items among
    them plus 1. *)
Definition claimed_pool_value (e : Embedding.t) (ids : tensor nat) (n d t : nat)
  : R :=
  div (prefix_sum e ids n d t) (add (nonpadding_count ids n t) one).

(** The facts of arithmetic that counting and averaging rest on. *)
Record counting_arithmetic : Prop := {
  zero_is_zero : neb zero zero = false;
  zero_plus_zero : add zero zero = zero;
  zero_over_one : div zero (add zero one) = zero;
  count_start : leb zero zero = true;
  count_keep : forall x, leb zero x = true -> leb zero (add x zero) = true;
  count_step : forall x, leb zero x = true -> leb zero (add x one) = true;
  count_plus_one : forall x, leb zero x = true -> leb one (add x one) = true
}.

(** The inputs of the recurrent layer for sequence [n]: the padded
    stream, one vector per step. *)
Definition lstm_inputs (e : Embedding.t) (ids : tensor nat) (dim n s : nat)
  : list R :=
  map (fun j => padded e ids n j s) (seq 0 dim).

(** The value [LSTMNet.user_representation] computes for step [t]. *)
Definition lstm_value (self : LSTMNet.t) (ids : tensor nat) (dim n d t : nat) : R :=
  nth d (fst (LSTM.run (LSTMNet.lstm self)
                       (lstm_inputs (LSTMNet.item_embeddings self) ids dim n)
                       (S t)))
      zero.


(** A convolution layer built for kernel width [fst kd] and dilation
    [snd kd] over [D] channels. *)
Definition layer_wf (D : nat) (layer : Conv2d.t) (kd : nat * nat) : Prop :=
  Conv2d.in_channels layer = D /\ Conv2d.out_channels layer = D /\
  Conv2d.kernel_size layer = (fst kd, 1) /\
  Conv2d.dilation layer = (snd kd, 1).

(** The embedding table has one row per item and [D] columns. *)
Definition table_wf (D : nat) (e : Embedding.t) : Prop :=
  exists num, shape (Embedding.weight e) = [num; D].

(** The shapes of a [CNNNet] fit together as its constructor makes
    them: one convolution per pair of [zip(kernel_width, dilation)] and,
    with batch normalisation, as many normalisation layers. *)
Definition CNNNet_wf (self : CNNNet.t) : Prop :=
  table_wf (CNNNet.embedding_dim self) (CNNNet.item_embeddings self) /\
  Forall2 (layer_wf (CNNNet.embedding_dim self)) (CNNNet.cnn_layers self)
          (combine (CNNNet.kernel_width self) (CNNNet.dilation self)) /\
  (CNNNet.batch_norm self = true ->
   length (CNNNet.bn self) = length (CNNNet.cnn_layers self) /\
   Forall (fun b => BatchNorm2d.num_features b = CNNNet.embedding_dim self)
          (CNNNet.bn self)).

(** A valid configuration: at least one layer, kernel widths and
    dilations at least 1. *)
Definition CNNNet_valid (self : CNNNet.t) : Prop :=
  CNNNet.cnn_layers self <> [] /\
  Forall (fun kd => 1 <= fst kd /\ 1 <= snd kd)
         (combine (CNNNet.kernel_width self) (CNNNet.dilation self)).

(** Batch normalisation is off, or every normalisation layer is in
    evaluation mode. *)
Definition CNNNet_quiet (self : CNNNet.t) : Prop :=
  CNNNet.batch_norm self = false \/
  Forall (fun b => BatchNorm2d.training b = false) (CNNNet.bn self).

Definition encoder_wf (enc : encoder) : Prop :=
  match enc with
  | Pooling m => table_wf (PoolNet.embedding_dim m) (PoolNet.item_embeddings m)
  | Recurrent m =>
      table_wf (LSTMNet.embedding_dim m) (LSTMNet.item_embeddings m) /\
      LSTM.input_size (LSTMNet.lstm m) = LSTMNet.embedding_dim m /\
      LSTM.hidden_size (LSTMNet.lstm m) = LSTMNet.embedding_dim m
  | CausalConv m => CNNNet_wf m
  end.

Definition encoder_valid (enc : encoder) : Prop :=
  match enc with
  | CausalConv m => CNNNet_valid m
  | _ => True
  end.

Definition encoder_quiet (enc : encoder) : Prop :=
  match enc with
  | CausalConv m => CNNNet_quiet m
  | _ => True
  end.

(** Two tensors of shape [N; D; H; 1] agree at the steps before [T]. *)
Definition agree (N D H T : nat) (x1 x2 : tensor R) : Prop :=
  forall n d h, n < N -> d < D -> h < H -> h < T ->
    data x1 [n; d; h; 0] = data x2 [n; d; h; 0].

(** Two normalisation layers with the same parameters and mode; their
    buffers may differ. *)
Definition same_params (b b' : BatchNorm2d.t) : Prop :=
  BatchNorm2d.num_features b = BatchNorm2d.num_features b' /\
  BatchNorm2d.eps b = BatchNorm2d.eps b' /\
  BatchNorm2d.momentum b = BatchNorm2d.momentum b' /\
  BatchNorm2d.weight b = BatchNorm2d.weight b' /\
  BatchNorm2d.bias b = BatchNorm2d.bias b' /\
  BatchNorm2d.training b = BatchNorm2d.training b'.

(** The value batch normalisation gives [v] of channel [ch] in
    evaluation mode. *)
Definition bn_eval_value (b : BatchNorm2d.t) (ch : nat) (v : R) : R :=
  add (mul (div (sub v (nth ch (BatchNorm2d.running_mean b) zero))
                (sqrt (add (nth ch (BatchNorm2d.running_var b) zero)
                           (BatchNorm2d.eps b))))
           (nth ch (BatchNorm2d.weight b) zero))
      (nth ch (BatchNorm2d.bias b) zero).

(** Every normalisation layer has [D] features and, in training mode,
    more than one value per channel to normalise. *)
Definition bn_ready (self : CNNNet.t) (bns : list BatchNorm2d.t) (N H : nat)
  : Prop :=
  Forall (fun b => BatchNorm2d.num_features b = CNNNet.embedding_dim self /\
                   (BatchNorm2d.training b = true -> N * H <> 1)) bns.

(** The layers after the first, as the loop meets them. *)
Definition rest_wf (D : nat) (t : Conv2d.t * nat * nat) : Prop :=
  layer_wf D (fst (fst t)) (snd (fst t), snd t) /\
  1 <= snd (fst t) /\ 1 <= snd t.

(** What the call [self.bn[i](x)] does to [v] of channel [ch] when
    no normalisation layer is in training mode. *)
Definition bn_quiet_value (self : CNNNet.t) (bns : list BatchNorm2d.t)
  (i ch : nat) (v : R) : R :=
  if CNNNet.batch_norm self then
    match nth_error bns i with
    | Some b => bn_eval_value b ch v
    | None => v
    end
  else v.

(** [CNNNet_quiet] for the list of normalisation layers at hand. *)
Definition quiet (self : CNNNet.t) (bns : list BatchNorm2d.t) : Prop :=
  CNNNet.batch_norm self = false \/
  Forall (fun b => BatchNorm2d.training b = false) bns.

(** What a call may do to a normalisation layer: the parameters and
    the mode stay, and in evaluation mode the whole layer stays. *)
Definition bn_rel (b b' : BatchNorm2d.t) : Prop :=
  same_params b b' /\ (BatchNorm2d.training b = false -> b' = b).

(** What a call may do to the list [self.bn]. *)
Definition frame (self : CNNNet.t) (bns bns' : list BatchNorm2d.t) : Prop :=
  Forall2 bn_rel bns bns' /\ (CNNNet.batch_norm self = false -> bns' = bns).

(** The module after a call: every learned parameter and every setting
    is as before; only the buffers of the normalisation layers of a
    [CNNNet] may have changed. *)
Definition same_learned (enc enc' : encoder) : Prop :=
  match enc, enc' with
  | Pooling m, Pooling m' => m' = m
  | Recurrent m, Recurrent m' => m' = m
  | CausalConv m, CausalConv m' =>
      exists bns', m' = CNNNet.with_bn m bns' /\
                   Forall2 same_params (CNNNet.bn m) bns'
  | _, _ => False
  end.

(** The number of rows of the embedding table. *)
Definition num_items (enc : encoder) : nat :=
  ix (shape (Embedding.weight (item_embeddings enc))) 0.

(** The two representations as nested lists, and the batch counters of
    the normalisation layers after the call. *)
Definition observe (r : result (tensor R * tensor R * encoder))
  : option (list (list (list R)) * list (list R)) :=
  match r with
  | Ok (a, f, _) => Some (to_list3 a, to_list2 f)
  | Err _ => None
  end.

Definition batches_tracked (r : result (tensor R * tensor R * encoder))
  : option (list nat) :=
  match r with
  | Ok (_, _, CausalConv m) =>
      Some (map (fun b => BatchNorm2d.num_batches_tracked b) (CNNNet.bn m))
  | Ok _ => Some []
  | Err _ => None
  end.

(** The representation of the first sequence before any item, in
    channel 0. *)
Definition first_value (r : result (tensor R * tensor R * encoder)) : option R :=
  match r with
  | Ok (a, _, _) => Some (data a [0; 0; 0])
  | Err _ => None
  end.

End Values.

(** ** Worked examples *)

(** Initial values for the examples on binary64: the embedding of item
    [i] is [i] in every channel, every other parameter is one half. *)
Definition demo_rng (k : nat) (idx : list nat) : float :=
  match k with
  | 0 => float_of_Z (Z.of_nat (ix idx 0))
  | _ => 0.5%float
  end.

(** [CNNNet(3, embedding_dim=1, kernel_width=3, dilation=1,
    num_layers=layers, nonlinearity=nl, batch_norm=bn)] *)
Definition demo_cnn (layers : nat) (nl : string) (bn : bool)
  : result (@CNNNet.t binary64) :=
  CNNNet.init (Sc:=binary64) demo_rng 3 1 (Int 3) (Int 1) layers nl
              true bn false true.

(** One call on a fresh module, which is in training mode. *)
Definition demo_run (layers : nat) (nl : string) (bn : bool)
  (ids : list (list nat)) :=
  net <- demo_cnn layers nl bn ;;
  user_representation (E:=binary64_elementary) (CausalConv net) (of_list2 0 ids).

(** A table over exact rationals from its rows. *)
Definition exact_table (rows : list (list Q)) : @Embedding.t exact :=
  Embedding.mk (Sc:=exact)
    (of_list2 (Q2Qc 0) (map (map Q2Qc) rows)) (Some PADDING_IDX).

(** The pooling example of the spec: one channel, [e5 = 2], [e7 = 3]. *)
Definition spec_pool : @PoolNet.t exact :=
  PoolNet.mk 1
    (exact_table [[0]; [1]; [1]; [1]; [1]; [2]; [1]; [3]]%Q)
    (exact_table [[0]; [0]; [0]; [0]; [0]; [0]; [0]; [0]]%Q).

(** A pooling module in which item 1, a real item, has the embedding 0. *)
Definition zero_item_pool : @PoolNet.t exact :=
  PoolNet.mk 1 (exact_table [[0]; [0]; [3]]%Q) (exact_table [[0]; [0]; [0]]%Q).

(** The scoring example of the spec: two channels, item 1 has the
    embedding [2, 1] and the bias 1/2. *)
Definition spec_scorer : @PoolNet.t exact :=
  PoolNet.mk 2 (exact_table [[0; 0]; [2; 1]]%Q) (exact_table [[0]; [1 # 2]]%Q).

Definition exact_tensor3 (l : list (list (list Q))) : tensor (@R exact) :=
  of_list3 (Q2Qc 0) (map (map (map Q2Qc)) l).

Definition scores (r : result (tensor (@R exact))) : option (list nat * list Q) :=
  match r with
  | Ok x => Some (shape x, map (fun idx => this (data x idx)) (indices (shape x)))
  | Err _ => None
  end.

Definition pooled (r : result (tensor (@R exact) * tensor (@R exact)))
  : option (list (list (list Q)) * list (list Q)) :=
  match r with
  | Ok (a, f) => Some (map (map (map this)) (to_list3 a), map (map this) (to_list2 f))
  | Err _ => None
  end.

(** The final representation of the first sequence, in channel 0. *)
Definition final_value (r : result (tensor (@R exact) * tensor (@R exact)))
  : option Q :=
  match r with
  | Ok (_, f) => Some (this (data f [0; 0]))
  | Err _ => None
  end.

(** The value of a computation that succeeds. *)
Definition unwrap {A : Type} (r : result A)
  : match r return Type with Ok _ => A | Err _ => error end :=
  match r with
  | Ok a => a
  | Err e => e
  end.

(** A one-layer module with batch normalisation, fresh and after
    [eval()]. *)
Definition demo_net : @CNNNet.t binary64 := unwrap (demo_cnn 1 "relu" true).
Definition demo_net_eval : @CNNNet.t binary64 :=
  CNNNet.set_training false demo_net.

(** A pooling module on binary64: [PoolNet(3, embedding_dim=1)]. *)
Definition demo_pool : @PoolNet.t binary64 :=
  PoolNet.init (Sc:=binary64) demo_rng 3 1 false.

(** ** Representations as streams of steps *)

(** The representation of sequence [n] at step [h] in channel [d], from
    the pair a module returns: the steps before the last are in
    [all_representations], the last is [final_representation]. *)
Definition step_value {A} (all_representations final_representation : tensor A)
  (n d h : nat) : A :=
  if h <? ix (shape all_representations) 2
  then data all_representations [n; d; h]
  else data final_representation [n; d].

Section Streams.
Context {Sc : Scalar} {E : Elementary Sc}.

(** How many steps back a convolution of kernel width [k] and dilation
    [d] reads beyond its own step. *)
Definition reach (k d : nat) : nat := (k - 1) * d.

(** How many items back a [CNNNet] reads: one for the first padding,
    and the reach of every layer. *)
Definition lookback (self : CNNNet.t) : nat :=
  1 + list_sum (map (fun kd => reach (fst kd) (snd kd))
                    (combine (CNNNet.kernel_width self) (CNNNet.dilation self))).

(** The reach of the layers the loop of [user_representation] meets. *)
Definition rest_reach (rest : list (Conv2d.t * nat * nat)) : nat :=
  list_sum (map (fun t => reach (snd (fst t)) (snd t)) rest).

(** Row [n1] of [x1] and row [n2] of [x2], tensors of shapes
    [_; D; _; 1], agree at the steps from [lo] to before [T]. *)
Definition rows_agree (D lo T n1 n2 : nat) (x1 x2 : tensor R) : Prop :=
  forall d h, d < D -> lo <= h -> h < T ->
    data x1 [n1; d; h; 0] = data x2 [n2; d; h; 0].

(** Where agreement from [lo] on starts after [p] zero steps are put in
    front: the zero steps agree when [lo] is 0. *)
Definition shift (lo p : nat) : nat := if lo =? 0 then 0 else lo + p.

End Streams.

Section Scores.
Context {Sc : Scalar}.

(** The bias of the target at position [l] of sequence [n], and the
    dot product of its embedding with the representation of step [l]
    of sequence [m]. *)
Definition target_bias (item_biases : Embedding.t) (targets : tensor nat)
  (n l : nat) : R :=
  data (Embedding.weight item_biases) [data targets [n; l]; 0].

Definition target_dot (item_embeddings : Embedding.t)
  (user_representations : tensor R) (targets : tensor nat) (dim m l : nat) : R :=
  sum_n (fun d =>
           mul (data user_representations [m; d; l])
               (data (Embedding.weight item_embeddings) [data targets [m; l]; d]))
        dim.

End Scores.

(** A two-layer module with batch normalisation, fresh from the
    constructor, and a recurrent module: [CNNNet(3, embedding_dim=1,
    kernel_width=3, num_layers=2)] and [LSTMNet(3, embedding_dim=1)]. *)
Definition demo_net2 : @CNNNet.t binary64 := unwrap (demo_cnn 2 "tanh" true).
Definition demo_lstm : @LSTMNet.t binary64 :=
  LSTMNet.init (Sc:=binary64) demo_rng 3 1 false.

(** One representation of one step with the value 1, on binary64. *)
Definition demo_reps : tensor (@R binary64) := of_list3 0%float [[[1%float]]].

(** Whether a computation succeeded. *)
Definition succeeded {A} (r : result A) : bool :=
  match r with
  | Ok _ => true
  | Err _ => false
  end.

(** * Properties *)

Unset Implicit Arguments.

(** ** Computations that succeed *)

Lemma bind_ok {A B} (c : result A) (k : A -> result B) (r : B) :
  bind c k = Ok r -> exists a, c = Ok a /\ k a = Ok r.
Proof.
  destruct c as [a|e]; simpl; intros Hk; [exists a; auto | discriminate].
Qed.

(** ** Indices *)

Lemma indices_valid (s idx : list nat) : In idx (indices s) <-> valid s idx.
Proof.
  unfold valid. revert idx.
  induction s as [|n s IH]; intros idx; simpl.
  - split.
    + intros [<-|[]]. constructor.
    + intros Hv. inversion Hv. now left.
  - rewrite in_flat_map. split.
    + intros (i & Hi & Hin). apply in_map_iff in Hin.
      destruct Hin as (idx' & <- & Hin').
      apply in_seq in Hi. constructor; [lia | now apply IH].
    + intros Hv. inversion Hv as [|i n' idx' s' Hlt Hrest]; subst.
      exists i. split; [apply in_seq; lia |].
      apply in_map. now apply IH.
Qed.

Lemma valid2 (a b : nat) (idx : list nat) :
  valid [a; b] idx -> exists i j, idx = [i; j] /\ i < a /\ j < b.
Proof.
  intros Hv. inversion Hv as [|i ? idx1 ? Hi H1]; subst.
  inversion H1 as [|j ? idx2 ? Hj H2]; subst.
  inversion H2; subst. now exists i, j.
Qed.

Lemma bidx_valid (s idx : list nat) : valid s idx -> bidx s idx = idx.
Proof.
  unfold valid, bidx. intros Hv.
  rewrite (Forall2_length Hv), Nat.sub_diag. simpl.
  induction Hv as [|i n idx s Hlt Hv IH]; simpl; [reflexivity|].
  rewrite IH. destruct (Nat.eqb_spec n 1); [f_equal; lia | reflexivity].
Qed.

Lemma bshape_rev_same (r : list nat) : bshape_rev r r = Some r.
Proof.
  induction r as [|a r IH]; simpl; [reflexivity|].
  now rewrite IH, Nat.eqb_refl.
Qed.

Lemma broadcast_shapes_same (s : list nat) : broadcast_shapes s s = Some s.
Proof.
  unfold broadcast_shapes. rewrite bshape_rev_same. simpl.
  now rewrite rev_involutive.
Qed.

Ltac solve_valid :=
  unfold valid; repeat (apply Forall2_cons; [lia|]); apply Forall2_nil.

(** ** Sums *)

Section Sums.
Context {Sc : Scalar}.

Lemma csum_ext (f g : nat -> R) (k : nat) :
  (forall m, m <= k -> f m = g m) -> csum f k = csum g k.
Proof.
  induction k as [|k IH]; simpl; intros Hfg.
  - apply Hfg; lia.
  - rewrite IH, (Hfg (S k)) by (auto; intros; apply Hfg; lia). reflexivity.
Qed.

Lemma sum_n_ext (f g : nat -> R) (n : nat) :
  (forall m, m < n -> f m = g m) -> sum_n f n = sum_n g n.
Proof.
  destruct n as [|n]; simpl; intros Hfg; [reflexivity|].
  apply csum_ext. intros; apply Hfg; lia.
Qed.

(** ** The operations on tensors of the ranks the module meets *)

Lemma Embedding_forward_spec (e : Embedding.t) (ids : tensor nat) {num dim N L} :
  shape (Embedding.weight e) = [num; dim] ->
  shape ids = [N; L] ->
  (forall n l, n < N -> l < L -> data ids [n; l] < num) ->
  exists x, Embedding.forward e ids = Ok x /\
            shape x = [N; L; dim] /\
            forall n l d, data x [n; l; d] = data (Embedding.weight e) [data ids [n; l]; d].
Proof.
  intros Hw Hs Hr. unfold Embedding.forward. rewrite Hw, Hs.
  replace (forallb _ _) with true.
  - eexists; split; [reflexivity|]. split; reflexivity.
  - symmetry. apply forallb_forall. intros idx Hin.
    apply indices_valid, valid2 in Hin. destruct Hin as (i & j & -> & Hi & Hj).
    apply Nat.ltb_lt. auto.
Qed.

Lemma channel_embeddings_spec (e : Embedding.t) (ids : tensor nat) {num dim N L} :
  shape (Embedding.weight e) = [num; dim] ->
  shape ids = [N; L] ->
  (forall n l, n < N -> l < L -> data ids [n; l] < num) ->
  exists x, channel_embeddings e ids = Ok x /\
            shape x = [N; dim; L; 1] /\
            forall n d l, data x [n; d; l; 0]
                          = data (Embedding.weight e) [data ids [n; l]; d].
Proof.
  intros Hw Hs Hr. unfold channel_embeddings.
  destruct (Embedding_forward_spec e ids Hw Hs Hr) as (x & -> & Hx & Hd).
  simpl. unfold permute. rewrite Hx. simpl.
  unfold unsqueeze. simpl.
  eexists; split; [reflexivity|]. split; [reflexivity|].
  intros n d l. simpl. apply Hd.
Qed.

Lemma F_pad_left (x : tensor R) {a b c} (p : nat) :
  shape x = [a; b; c; 1] ->
  exists y, F_pad x (0, 0, Z.of_nat p, 0)%Z = Ok y /\
            shape y = [a; b; c + p; 1] /\
            forall i j k, k < c + p ->
              data y [i; j; k; 0]
              = if k <? p then zero else data x [i; j; k - p; 0].
Proof.
  intros Hs. unfold F_pad, pad_dim. rewrite Hs. simpl.
  destruct p as [|p].
  - simpl. exists x. split; [reflexivity|]. rewrite Nat.add_0_r. split; [assumption|].
    intros i j k _. now rewrite Nat.sub_0_r.
  - replace (Z.of_nat (S p) =? 0)%Z with false by (symmetry; apply Z.eqb_neq; lia).
    simpl andb. cbv iota. rewrite Hs. cbn [ix nth].
    destruct (Z.ltb_spec (Z.of_nat c + Z.of_nat (S p) + 0) 0) as [Hneg|_]; [lia|].
    eexists; split; [reflexivity|]. split.
    + cbn [shape upd ix nth]. do 3 f_equal. lia.
    + intros i j k Hk. cbn [data ix nth upd].
      destruct (Nat.ltb_spec k (S p)) as [Hlt|Hge].
      * replace (Z.of_nat k - Z.of_nat (S p) <? 0)%Z with true
          by (symmetry; apply Z.ltb_lt; lia). reflexivity.
      * replace (Z.of_nat k - Z.of_nat (S p) <? 0)%Z with false
          by (symmetry; apply Z.ltb_ge; lia).
        replace (Z.of_nat c <=? Z.of_nat k - Z.of_nat (S p))%Z with false
          by (symmetry; apply Z.leb_gt; lia).
        simpl orb. cbv iota. do 4 f_equal. lia.
Qed.

Lemma split_last_spec {A} (x : tensor A) {a b c} :
  shape x = [a; b; S c] ->
  exists y f, split_last x = Ok (y, f) /\
              shape y = [a; b; c] /\ shape f = [a; b] /\
              (forall i j k, data y [i; j; k] = data x [i; j; k]) /\
              (forall i j, data f [i; j] = data x [i; j; c]).
Proof.
  intros Hs. unfold split_last, but_last, select_last. rewrite Hs. simpl.
  do 2 eexists. split; [reflexivity|]. simpl. rewrite Nat.sub_0_r.
  repeat split; reflexivity.
Qed.

Lemma PoolNet_user_representation_spec (self : PoolNet.t) (ids : tensor nat)
  {num dim N L} :
  shape (Embedding.weight (PoolNet.item_embeddings self)) = [num; dim] ->
  shape ids = [N; L] ->
  (forall n l, n < N -> l < L -> data ids [n; l] < num) ->
  exists a f,
    PoolNet.user_representation self ids = Ok (a, f) /\
    shape a = [N; dim; L] /\ shape f = [N; dim] /\
    (forall n d t, n < N -> d < dim -> t < L ->
       data a [n; d; t] = pool_value (PoolNet.item_embeddings self) ids n d t) /\
    (forall n d, n < N -> d < dim ->
       data f [n; d] = pool_value (PoolNet.item_embeddings self) ids n d L).
Proof.
  intros Hw Hs Hr. unfold PoolNet.user_representation.
  destruct (channel_embeddings_spec _ ids Hw Hs Hr) as (x & -> & Hx & Hxd).
  cbn [bind].
  destruct (F_pad_left x 1 Hx) as (y & Hy & Hys & Hyd).
  change (Z.of_nat 1) with 1%Z in Hy. rewrite Hy. cbn [bind].
  unfold cumsum, tmap, expand_as, binop. cbn [shape]. rewrite Hys.
  cbn [shape data length Nat.ltb Nat.leb bind].
  rewrite broadcast_shapes_same.
  destruct (list_eq_dec Nat.eq_dec [N; dim; L + 1; 1] [N; dim; L + 1; 1])
    as [_|Hne]; [|congruence].
  cbn [bind shape data]. rewrite broadcast_shapes_same. cbn [bind].
  unfold squeeze. cbn [shape data length Nat.ltb Nat.leb ix nth Nat.eqb del].
  replace (L + 1) with (S L) by lia. cbn [bind].
  match goal with
  | |- context [split_last ?u] =>
      destruct (split_last_spec u (a:=N) (b:=dim) (c:=L) eq_refl)
        as (a & f & -> & Ha & Hf & Had & Hfd)
  end.
  exists a, f. split; [reflexivity|]. split; [assumption|]. split; [assumption|].
  assert (Hval : forall n d t, n < N -> d < dim -> t <= L ->
            bidx [N; dim; S L; 1] [n; d; t; 0] = [n; d; t; 0]).
  { intros n d t Hn Hd Ht. apply bidx_valid. solve_valid. }
  assert (Hpad : forall n d t m, m <= t -> t <= L ->
            data y [n; d; m; 0] = padded (PoolNet.item_embeddings self) ids n d m).
  { intros n d t m Hm Ht. rewrite Hyd by lia.
    destruct m as [|m]; simpl; [reflexivity|].
    rewrite Nat.sub_0_r. apply Hxd. }
  split.
  - intros n d t Hn Hd Ht. rewrite Had. cbn [data ins].
    rewrite !Hval by (auto; lia). cbn [ix nth upd]. unfold pool_value, pool_denominator.
    f_equal; [|f_equal]; apply csum_ext; intros m Hm; unfold indicator;
      erewrite Hpad; eauto; lia.
  - intros n d Hn Hd. rewrite Hfd. cbn [data ins].
    rewrite !Hval by (auto; lia). cbn [ix nth upd]. unfold pool_value, pool_denominator.
    f_equal; [|f_equal]; apply csum_ext; intros m Hm; unfold indicator;
      erewrite Hpad; eauto; lia.
Qed.

End Sums.

(** ** The recurrent module *)

Section Recurrent.
Context {Sc : Scalar} {E : Elementary Sc}.

Lemma LSTM_run_ext (l : LSTM.t) (xs xs' : nat -> list R) (k : nat) :
  (forall s, s < k -> xs s = xs' s) -> LSTM.run l xs k = LSTM.run l xs' k.
Proof.
  induction k as [|k IH]; simpl; intros Hx; [reflexivity|].
  rewrite IH, (Hx k) by (auto; intros; apply Hx; lia). reflexivity.
Qed.

Lemma LSTMNet_user_representation_spec (self : LSTMNet.t) (ids : tensor nat)
  {num dim N L} :
  shape (Embedding.weight (LSTMNet.item_embeddings self)) = [num; dim] ->
  LSTM.input_size (LSTMNet.lstm self) = dim ->
  shape ids = [N; L] ->
  (forall n l, n < N -> l < L -> data ids [n; l] < num) ->
  exists a f,
    LSTMNet.user_representation self ids = Ok (a, f) /\
    shape a = [N; LSTM.hidden_size (LSTMNet.lstm self); L] /\
    shape f = [N; LSTM.hidden_size (LSTMNet.lstm self)] /\
    (forall n d t, n < N -> t < L ->
       data a [n; d; t] = lstm_value self ids dim n d t) /\
    (forall n d, n < N ->
       data f [n; d] = lstm_value self ids dim n d L).
Proof.
  intros Hw Hin Hs Hr. unfold LSTMNet.user_representation.
  destruct (channel_embeddings_spec _ ids Hw Hs Hr) as (x & -> & Hx & Hxd).
  cbn [bind].
  destruct (F_pad_left x 1 Hx) as (y & Hy & Hys & Hyd).
  change (Z.of_nat 1) with 1%Z in Hy. rewrite Hy. cbn [bind].
  unfold squeeze. rewrite Hys.
  cbn [shape data length Nat.ltb Nat.leb ix nth Nat.eqb del bind].
  unfold permute.
  cbn [shape data length is_perm Nat.eqb forallb existsb seq andb orb map ix nth bind].
  unfold LSTM.forward.
  cbn [shape data length is_perm Nat.eqb forallb existsb seq andb orb map ix nth bind].
  rewrite Hin, Nat.eqb_refl.
  cbn [shape data length is_perm Nat.eqb forallb existsb seq andb orb map ix nth bind].
  replace (L + 1) with (S L) by lia.
  match goal with
  | |- context [split_last ?u] =>
      destruct (split_last_spec u (a:=N) (b:=LSTM.hidden_size (LSTMNet.lstm self)) (c:=L) eq_refl)
        as (a & f & -> & Ha & Hf & Had & Hfd)
  end.
  exists a, f. split; [reflexivity|]. split; [assumption|]. split; [assumption|].
  assert (Hrun : forall n t, t <= L ->
    LSTM.run (LSTMNet.lstm self)
      (LSTM.inputs
         {| shape := [N; S L; dim];
            data := fun idx => data y (ins [ix idx 0; ix idx 2; ix idx 1] 3 0) |} n)
      (S t)
    = LSTM.run (LSTMNet.lstm self)
        (lstm_inputs (LSTMNet.item_embeddings self) ids dim n) (S t)).
  { intros n t Ht. apply LSTM_run_ext. intros s Hs'.
    unfold LSTM.inputs, lstm_inputs. cbn [shape data ix nth ins index_of Nat.eqb].
    apply map_ext. intros j. rewrite Hyd by lia.
    destruct s as [|s]; simpl; [reflexivity|].
    rewrite Nat.sub_0_r. apply Hxd. }
  split.
  - intros n d t Hn Ht. rewrite Had. cbn [data ix nth index_of Nat.eqb].
    unfold lstm_value. rewrite <- Hrun by lia. reflexivity.
  - intros n d Hn. rewrite Hfd. cbn [data ix nth index_of Nat.eqb].
    unfold lstm_value. rewrite <- Hrun by lia. reflexivity.
Qed.

End Recurrent.

(** ** The convolutional module *)

Section Convolutional.
Context {Sc : Scalar} {E : Elementary Sc}.

Lemma receptive_field_nat (k d : nat) :
  1 <= k -> 1 <= d ->
  CNNNet.receptive_field k d = Z.of_nat ((k - 1) * d + 1).
Proof.
  intros Hk Hd. unfold CNNNet.receptive_field.
  rewrite Nat2Z.inj_add, Nat2Z.inj_mul, Nat2Z.inj_sub by lia. simpl. lia.
Qed.

Lemma Conv2d_forward_spec (layer : Conv2d.t) (x : tensor R) {N D H k d} :
  shape x = [N; D; H + (k - 1) * d; 1] ->
  layer_wf D layer (k, d) -> 1 <= k -> 1 <= d -> 1 <= H ->
  exists z, Conv2d.forward layer x = Ok z /\
            shape z = [N; D; H; 1] /\
            forall n o h,
              data z [n; o; h; 0]
              = add (data (Conv2d.bias layer) [o])
                    (sum_n (fun ci =>
                       sum_n (fun i =>
                         sum_n (fun j =>
                           mul (data (Conv2d.weight layer) [o; ci; i; j])
                               (data x [n; ci; h + i * d; 0 + j * 1]))
                           1) k) D).
Proof.
  intros Hs (Hin & Hout & Hks & Hdil) Hk Hd HH.
  unfold Conv2d.forward. rewrite Hs, Hks, Hdil, Hin, Hout. simpl fst; simpl snd.
  rewrite Nat.eqb_refl.
  replace (0 <? k) with true by (symmetry; apply Nat.ltb_lt; lia).
  replace (0 <? d) with true by (symmetry; apply Nat.ltb_lt; lia).
  replace (d * (k - 1) <? H + (k - 1) * d) with true
    by (symmetry; apply Nat.ltb_lt; nia).
  cbn [andb Nat.ltb Nat.leb Nat.sub Nat.mul].
  eexists; split; [reflexivity|]. split.
  - cbn [shape]. do 2 f_equal. f_equal. nia.
  - intros n o h. reflexivity.
Qed.

Lemma Conv2d_forward_ok_inv (layer : Conv2d.t) (x z : tensor R) {D k d} :
  layer_wf D layer (k, d) ->
  Conv2d.forward layer x = Ok z -> 1 <= k /\ 1 <= d.
Proof.
  intros (Hin & Hout & Hks & Hdil). unfold Conv2d.forward.
  destruct (shape x) as [|n [|c [|h [|w [|? ?]]]]]; try discriminate.
  rewrite Hks, Hdil. simpl fst; simpl snd.
  destruct (Nat.ltb_spec 0 k); destruct (Nat.ltb_spec 0 d);
    rewrite ?andb_false_r; simpl; try discriminate; auto.
  all: destruct (c =? Conv2d.in_channels layer); simpl; discriminate.
Qed.

Lemma set_nth_same {A} (l : list A) (i : nat) (a : A) :
  nth_error l i = Some a -> set_nth l i a = l.
Proof.
  revert i. induction l as [|b l IH]; intros [|i]; simpl; try discriminate.
  - now intros [= ->].
  - intros Hi. now rewrite IH.
Qed.

Lemma same_params_refl (b : BatchNorm2d.t) : same_params b b.
Proof. repeat split. Qed.

Lemma same_params_trans (b1 b2 b3 : BatchNorm2d.t) :
  same_params b1 b2 -> same_params b2 b3 -> same_params b1 b3.
Proof.
  unfold same_params. intros (?&?&?&?&?&?) (?&?&?&?&?&?).
  repeat split; congruence.
Qed.

Lemma Forall2_same_params_refl (l : list BatchNorm2d.t) :
  Forall2 same_params l l.
Proof. induction l; constructor; auto using same_params_refl. Qed.

Lemma Forall2_same_params_trans (l1 l2 l3 : list BatchNorm2d.t) :
  Forall2 same_params l1 l2 -> Forall2 same_params l2 l3 ->
  Forall2 same_params l1 l3.
Proof.
  intros H12. revert l3. induction H12; intros l3 H23; inversion H23; subst;
    constructor; eauto using same_params_trans.
Qed.

Lemma Forall2_set_nth (l : list BatchNorm2d.t) i b b' :
  nth_error l i = Some b -> same_params b b' ->
  Forall2 same_params l (set_nth l i b').
Proof.
  revert i. induction l as [|a l IH]; intros [|i]; simpl; try discriminate.
  - intros [= ->] Hp. constructor; auto using Forall2_same_params_refl.
  - intros Hi Hp. constructor; eauto using same_params_refl.
Qed.

Lemma BatchNorm2d_forward_spec (b : BatchNorm2d.t) (x : tensor R) {N D H} :
  shape x = [N; D; H; 1] ->
  BatchNorm2d.num_features b = D ->
  (BatchNorm2d.training b = true -> N * H <> 1) ->
  exists y b', BatchNorm2d.forward b x = Ok (y, b') /\
               shape y = [N; D; H; 1] /\ same_params b b' /\
               (BatchNorm2d.training b = false ->
                b' = b /\
                forall idx, data y idx = bn_eval_value b (ix idx 1) (data x idx)).
Proof.
  intros Hs Hf Ht. unfold BatchNorm2d.forward. rewrite Hs, Hf, Nat.eqb_refl.
  destruct (BatchNorm2d.training b) eqn:Htr.
  - replace (N * H * 1 =? 1) with false
      by (symmetry; apply Nat.eqb_neq; specialize (Ht eq_refl); lia).
    do 2 eexists. split; [reflexivity|]. split; [exact Hs|]. split.
    + unfold BatchNorm2d.update, same_params. simpl. repeat split; auto.
    + discriminate.
  - do 2 eexists. split; [reflexivity|]. split; [exact Hs|].
    split; [apply same_params_refl|]. intros _. split; reflexivity.
Qed.

Lemma bn_ready_same (self : CNNNet.t) bns bns' N H :
  Forall2 same_params bns bns' -> bn_ready self bns N H -> bn_ready self bns' N H.
Proof.
  unfold bn_ready. induction 1 as [|b b' l l' Hp _ IH]; intros Hr;
    inversion Hr; subst; constructor; auto.
  destruct Hp as (Hn & _ & _ & _ & _ & Htr). rewrite <- Hn, <- Htr. assumption.
Qed.

Lemma apply_bn_spec (self : CNNNet.t) bns i (x : tensor R) {N H} :
  shape x = [N; CNNNet.embedding_dim self; H; 1] ->
  (CNNNet.batch_norm self = true -> i < length bns /\ bn_ready self bns N H) ->
  exists y bns', CNNNet.apply_bn self bns i x = Ok (y, bns') /\
                 shape y = [N; CNNNet.embedding_dim self; H; 1] /\
                 Forall2 same_params bns bns'.
Proof.
  intros Hs Hb. unfold CNNNet.apply_bn.
  destruct (CNNNet.batch_norm self).
  - destruct (Hb eq_refl) as (Hi & Hr). unfold get.
    destruct (nth_error bns i) as [b|] eqn:Hnth;
      [|apply nth_error_None in Hnth; lia].
    cbn [bind].
    assert (Hin : In b bns) by (eapply nth_error_In; eauto).
    unfold bn_ready in Hr. rewrite Forall_forall in Hr.
    destruct (Hr b Hin) as (Hnf & Htr).
    destruct (BatchNorm2d_forward_spec b x Hs Hnf Htr)
      as (y & b' & -> & Hy & Hp & _).
    cbn [bind]. do 2 eexists. split; [reflexivity|]. split; [assumption|].
    eapply Forall2_set_nth; eauto.
  - do 2 eexists. split; [reflexivity|]. split; [assumption|].
    apply Forall2_same_params_refl.
Qed.

Lemma binop_same_shape (op : R -> R -> R) (x y : tensor R) {s} :
  shape x = s -> shape y = s ->
  exists z, binop op x y = Ok z /\ shape z = s /\
            forall idx, valid s idx -> data z idx = op (data x idx) (data y idx).
Proof.
  intros Hx Hy. unfold binop. rewrite Hx, Hy, broadcast_shapes_same.
  eexists; split; [reflexivity|]. split; [reflexivity|].
  intros idx Hv. cbn [data]. now rewrite bidx_valid.
Qed.

Lemma loop_body_spec (self : CNNNet.t) i layer k d (x : tensor R) bns {N H} :
  shape x = [N; CNNNet.embedding_dim self; H; 1] -> 1 <= H ->
  layer_wf (CNNNet.embedding_dim self) layer (k, d) -> 1 <= k -> 1 <= d ->
  (CNNNet.batch_norm self = true -> i < length bns /\ bn_ready self bns N H) ->
  exists y bns', CNNNet.loop_body self i layer k d x bns = Ok (y, bns') /\
                 shape y = [N; CNNNet.embedding_dim self; H; 1] /\
                 Forall2 same_params bns bns'.
Proof.
  intros Hs HH Hwf Hk Hd Hb. unfold CNNNet.loop_body.
  rewrite receptive_field_nat by assumption.
  replace (Z.of_nat ((k - 1) * d + 1) - 1)%Z with (Z.of_nat ((k - 1) * d)) by lia.
  destruct (F_pad_left x ((k - 1) * d) Hs) as (y & -> & Hys & _). cbn [bind].
  destruct (Conv2d_forward_spec layer y Hys Hwf Hk Hd HH) as (z & -> & Hzs & _).
  cbn [bind].
  destruct (apply_bn_spec self bns i
              (tmap (apply_nonlinearity (CNNNet.nonlinearity self)) z) Hzs Hb)
    as (u & bns' & -> & Hus & Hrel).
  cbn [bind]. unfold CNNNet.add_residual.
  destruct (CNNNet.residual_connections self).
  - destruct (binop_same_shape add u x Hus Hs) as (v & -> & Hvs & _).
    cbn [bind]. eauto.
  - cbn [bind]. eauto.
Qed.

Lemma CNNNet_layers_inv (self : CNNNet.t) :
  CNNNet_wf self -> CNNNet_valid self ->
  exists layer0 ls k0 ks d0 ds,
    CNNNet.cnn_layers self = layer0 :: ls /\
    CNNNet.kernel_width self = k0 :: ks /\
    CNNNet.dilation self = d0 :: ds /\
    layer_wf (CNNNet.embedding_dim self) layer0 (k0, d0) /\
    1 <= k0 /\ 1 <= d0 /\
    Forall2 (layer_wf (CNNNet.embedding_dim self)) ls (combine ks ds) /\
    Forall (fun kd => 1 <= fst kd /\ 1 <= snd kd) (combine ks ds).
Proof.
  intros (_ & Hl & _) (Hne & Hv).
  destruct (CNNNet.cnn_layers self) as [|layer0 ls]; [congruence|].
  destruct (CNNNet.kernel_width self) as [|k0 ks]; [inversion Hl|].
  destruct (CNNNet.dilation self) as [|d0 ds]; [inversion Hl|].
  simpl in Hl, Hv. inversion Hl; subst. inversion Hv as [|? ? [Hk Hd] Hv']; subst.
  exists layer0, ls, k0, ks, d0, ds. simpl in *.
  repeat (split; [solve [auto]|]). assumption.
Qed.

Lemma rest_layers_wf (D : nat) (ls : list Conv2d.t) (ks ds : list nat) :
  Forall2 (layer_wf D) ls (combine ks ds) ->
  Forall (fun kd => 1 <= fst kd /\ 1 <= snd kd) (combine ks ds) ->
  Forall (rest_wf D) (combine (combine ls ks) ds) /\
  length (combine (combine ls ks) ds) = length ls.
Proof.
  revert ks ds. induction ls as [|l ls IH]; intros ks ds Hl Hv.
  - simpl. split; [constructor | reflexivity].
  - destruct ks as [|k ks]; [inversion Hl|].
    destruct ds as [|d ds]; [inversion Hl|].
    simpl in *. inversion Hl; subst. inversion Hv as [|? ? [Hk Hd] Hv']; subst.
    destruct (IH ks ds) as (IH1 & IH2); auto.
    split; [constructor; auto | now rewrite IH2].
    unfold rest_wf. simpl in *. auto.
Qed.

Lemma layers_loop_spec (self : CNNNet.t) (rest : list (Conv2d.t * nat * nat))
  {N H} :
  1 <= H ->
  Forall (rest_wf (CNNNet.embedding_dim self)) rest ->
  forall i (x : tensor R) bns,
  shape x = [N; CNNNet.embedding_dim self; H; 1] ->
  (CNNNet.batch_norm self = true ->
   i + length rest <= length bns /\ bn_ready self bns N H) ->
  exists y bns', CNNNet.layers_loop self i rest x bns = Ok (y, bns') /\
                 shape y = [N; CNNNet.embedding_dim self; H; 1] /\
                 Forall2 same_params bns bns'.
Proof.
  intros HH. induction 1 as [|[[layer k] d] rest (Hwf & Hk & Hd) Hrest IH];
    intros i x bns Hs Hb.
  - simpl. do 2 eexists. split; [reflexivity|].
    split; [assumption | apply Forall2_same_params_refl].
  - simpl in Hwf, Hk, Hd. cbn [CNNNet.layers_loop].
    destruct (loop_body_spec self i layer k d x bns Hs HH Hwf Hk Hd)
      as (y & bns1 & -> & Hys & Hrel1).
    { intros Hbn. destruct (Hb Hbn) as (Hlen & Hr). simpl in Hlen. split; [lia | auto]. }
    cbn [bind].
    destruct (IH (S i) y bns1 Hys) as (z & bns2 & -> & Hzs & Hrel2).
    { intros Hbn. destruct (Hb Hbn) as (Hlen & Hr). simpl in Hlen.
      rewrite <- (Forall2_length Hrel1). split; [lia|].
      eapply bn_ready_same; eauto. }
    do 2 eexists. split; [reflexivity|]. split; [assumption|].
    eapply Forall2_same_params_trans; eauto.
Qed.

Lemma first_layer_spec (self : CNNNet.t) (e : tensor R) {N L} :
  CNNNet_wf self -> CNNNet_valid self ->
  shape e = [N; CNNNet.embedding_dim self; L; 1] ->
  (CNNNet.batch_norm self = true -> bn_ready self (CNNNet.bn self) N (L + 1)) ->
  exists y bns', CNNNet.first_layer self e = Ok (y, bns') /\
                 shape y = [N; CNNNet.embedding_dim self; L + 1; 1] /\
                 Forall2 same_params (CNNNet.bn self) bns'.
Proof.
  intros Hwf Hv Hs Hb.
  destruct (CNNNet_layers_inv self Hwf Hv)
    as (layer0 & ls & k0 & ks & d0 & ds & Hls & Hks & Hds & Hl0 & Hk0 & Hd0 & _).
  unfold CNNNet.first_layer. rewrite Hks, Hds, Hls. cbn [get nth_error bind].
  rewrite receptive_field_nat by assumption.
  destruct (F_pad_left e ((k0 - 1) * d0 + 1) Hs) as (y & -> & Hys & _).
  cbn [bind].
  replace (L + ((k0 - 1) * d0 + 1)) with (L + 1 + (k0 - 1) * d0) in Hys by lia.
  destruct (Conv2d_forward_spec layer0 y Hys Hl0 Hk0 Hd0) as (z & -> & Hzs & _);
    [lia|].
  cbn [bind].
  destruct (apply_bn_spec self (CNNNet.bn self) 0
              (tmap (apply_nonlinearity (CNNNet.nonlinearity self)) z) Hzs)
    as (u & bns' & -> & Hus & Hrel).
  { intros Hbn. split; [|auto].
    destruct Hwf as (_ & _ & Hbnwf). destruct (Hbnwf Hbn) as (Hlen & _).
    rewrite Hlen, Hls. simpl. lia. }
  cbn [bind].
  destruct (CNNNet.residual_connections self).
  - destruct (F_pad_left e 1 Hs) as (r & Hr & Hrs & _).
    change (Z.of_nat 1) with 1%Z in Hr. rewrite Hr. cbn [bind].
    destruct (binop_same_shape add u r Hus Hrs) as (v & -> & Hvs & _).
    cbn [bind]. eauto.
  - cbn [bind]. eauto.
Qed.

Lemma squeeze3_spec {A} (x : tensor A) {a b c} :
  shape x = [a; b; c; 1] ->
  exists y, squeeze x 3 = Ok y /\ shape y = [a; b; c] /\
            forall i j k, data y [i; j; k] = data x [i; j; k; 0].
Proof.
  intros Hs. unfold squeeze. rewrite Hs. simpl.
  eexists; split; [reflexivity|]. split; reflexivity.
Qed.

Lemma CNNNet_user_representation_shape (self : CNNNet.t) (ids : tensor nat)
  {num N L} :
  CNNNet_wf self -> CNNNet_valid self ->
  shape (Embedding.weight (CNNNet.item_embeddings self))
    = [num; CNNNet.embedding_dim self] ->
  shape ids = [N; L] ->
  (forall n l, n < N -> l < L -> data ids [n; l] < num) ->
  (CNNNet.batch_norm self = true -> N * (L + 1) <> 1) ->
  exists a f bns',
    CNNNet.user_representation self ids = Ok (a, f, CNNNet.with_bn self bns') /\
    shape a = [N; CNNNet.embedding_dim self; L] /\
    shape f = [N; CNNNet.embedding_dim self] /\
    Forall2 same_params (CNNNet.bn self) bns'.
Proof.
  intros Hwf Hv Hw Hs Hr Hsize. unfold CNNNet.user_representation.
  destruct (channel_embeddings_spec _ ids Hw Hs Hr) as (e & -> & He & _).
  cbn [bind].
  assert (Hready : CNNNet.batch_norm self = true ->
                   bn_ready self (CNNNet.bn self) N (L + 1)).
  { intros Hbn. destruct Hwf as (_ & _ & Hbnwf). destruct (Hbnwf Hbn) as (_ & Hnf).
    unfold bn_ready. rewrite Forall_forall in *. intros b Hin. split; auto. }
  destruct (first_layer_spec self e Hwf Hv He Hready)
    as (x & bns1 & -> & Hxs & Hrel1).
  cbn [bind].
  destruct (CNNNet_layers_inv self Hwf Hv)
    as (layer0 & ls & k0 & ks & d0 & ds & Hls & Hks & Hds & _ & _ & _ & Hl & Hvs).
  rewrite Hls, Hks, Hds. cbn [tl].
  destruct (rest_layers_wf _ ls ks ds Hl Hvs) as (Hrest & Hlen).
  destruct (layers_loop_spec self _ (N:=N) (H:=L + 1) ltac:(lia) Hrest 0 x bns1 Hxs)
    as (y & bns2 & -> & Hys & Hrel2).
  { intros Hbn. rewrite Hlen, <- (Forall2_length Hrel1).
    destruct Hwf as (_ & _ & Hbnwf). destruct (Hbnwf Hbn) as (Hl' & _).
    rewrite Hl', Hls. simpl. split; [lia|].
    eapply bn_ready_same; eauto. }
  cbn [bind].
  destruct (squeeze3_spec y Hys) as (u & -> & Hus & _). cbn [bind].
  replace (L + 1) with (S L) in Hus by lia.
  destruct (split_last_spec u Hus) as (a & f & -> & Ha & Hf & _).
  cbn [bind]. exists a, f, bns2. split; [reflexivity|].
  split; [assumption|]. split; [assumption|].
  eapply Forall2_same_params_trans; eauto.
Qed.

(** The same when the normalisation layers that are in training mode
    get more than one value per channel. *)
Lemma CNNNet_user_representation_shape_ready (self : CNNNet.t) (ids : tensor nat)
  {num N L} :
  CNNNet_wf self -> CNNNet_valid self ->
  shape (Embedding.weight (CNNNet.item_embeddings self))
    = [num; CNNNet.embedding_dim self] ->
  shape ids = [N; L] ->
  (forall n l, n < N -> l < L -> data ids [n; l] < num) ->
  (CNNNet.batch_norm self = true ->
   Forall (fun b => BatchNorm2d.training b = true -> N * (L + 1) <> 1)
          (CNNNet.bn self)) ->
  exists a f bns',
    CNNNet.user_representation self ids = Ok (a, f, CNNNet.with_bn self bns') /\
    shape a = [N; CNNNet.embedding_dim self; L] /\
    shape f = [N; CNNNet.embedding_dim self] /\
    Forall2 same_params (CNNNet.bn self) bns'.
Proof.
  intros Hwf Hv Hw Hs Hr Hsize. unfold CNNNet.user_representation.
  destruct (channel_embeddings_spec _ ids Hw Hs Hr) as (e & -> & He & _).
  cbn [bind].
  assert (Hready : CNNNet.batch_norm self = true ->
                   bn_ready self (CNNNet.bn self) N (L + 1)).
  { intros Hbn. destruct Hwf as (_ & _ & Hbnwf). destruct (Hbnwf Hbn) as (_ & Hnf).
    specialize (Hsize Hbn). unfold bn_ready.
    apply Forall_forall. intros b Hin. rewrite Forall_forall in Hnf, Hsize.
    split; [apply Hnf | apply Hsize]; assumption. }
  destruct (first_layer_spec self e Hwf Hv He Hready)
    as (x & bns1 & -> & Hxs & Hrel1).
  cbn [bind].
  destruct (CNNNet_layers_inv self Hwf Hv)
    as (layer0 & ls & k0 & ks & d0 & ds & Hls & Hks & Hds & _ & _ & _ & Hl & Hvs).
  rewrite Hls, Hks, Hds. cbn [tl].
  destruct (rest_layers_wf _ ls ks ds Hl Hvs) as (Hrest & Hlen).
  destruct (layers_loop_spec self _ (N:=N) (H:=L + 1) ltac:(lia) Hrest 0 x bns1 Hxs)
    as (y & bns2 & -> & Hys & Hrel2).
  { intros Hbn. rewrite Hlen, <- (Forall2_length Hrel1).
    destruct Hwf as (_ & _ & Hbnwf). destruct (Hbnwf Hbn) as (Hl' & _).
    rewrite Hl', Hls. simpl. split; [lia|].
    eapply bn_ready_same; eauto. }
  cbn [bind].
  destruct (squeeze3_spec y Hys) as (u & -> & Hus & _). cbn [bind].
  replace (L + 1) with (S L) in Hus by lia.
  destruct (split_last_spec u Hus) as (a & f & -> & Ha & Hf & _).
  cbn [bind]. exists a, f, bns2. split; [reflexivity|].
  split; [assumption|]. split; [assumption|].
  eapply Forall2_same_params_trans; eauto.
Qed.

(** *** Agreement of two runs *)

Lemma channel_embeddings_inv (e : Embedding.t) (ids : tensor nat) (x : tensor R)
  {num dim N L} :
  shape (Embedding.weight e) = [num; dim] ->
  shape ids = [N; L] ->
  channel_embeddings e ids = Ok x ->
  (forall n l, n < N -> l < L -> data ids [n; l] < num) /\
  shape x = [N; dim; L; 1] /\
  forall n d l, data x [n; d; l; 0]
                = data (Embedding.weight e) [data ids [n; l]; d].
Proof.
  intros Hw Hs Hok.
  assert (Hr : forall n l, n < N -> l < L -> data ids [n; l] < num).
  { unfold channel_embeddings, Embedding.forward in Hok. rewrite Hw, Hs in Hok.
    destruct (forallb _ _) eqn:Hall; [|discriminate].
    rewrite forallb_forall in Hall. intros n l Hn Hl.
    apply Nat.ltb_lt, Hall, indices_valid. solve_valid. }
  split; [assumption|].
  destruct (channel_embeddings_spec e ids Hw Hs Hr) as (y & Heq & Hy).
  rewrite Heq in Hok. injection Hok as <-. exact Hy.
Qed.

Lemma agree_pad (x1 x2 : tensor R) {N D H T} (p : nat) (y1 y2 : tensor R) :
  shape x1 = [N; D; H; 1] -> shape x2 = [N; D; H; 1] ->
  agree N D H T x1 x2 ->
  F_pad x1 (0, 0, Z.of_nat p, 0)%Z = Ok y1 ->
  F_pad x2 (0, 0, Z.of_nat p, 0)%Z = Ok y2 ->
  shape y1 = [N; D; H + p; 1] /\ shape y2 = [N; D; H + p; 1] /\
  agree N D (H + p) (T + p) y1 y2.
Proof.
  intros H1 H2 Hag Hy1 Hy2.
  destruct (F_pad_left x1 p H1) as (z1 & Hz1 & Hs1 & Hd1).
  destruct (F_pad_left x2 p H2) as (z2 & Hz2 & Hs2 & Hd2).
  rewrite Hz1 in Hy1. rewrite Hz2 in Hy2.
  injection Hy1 as <-. injection Hy2 as <-.
  split; [assumption|]. split; [assumption|].
  intros n d h Hn Hd Hh HT. rewrite Hd1, Hd2 by assumption.
  destruct (Nat.ltb_spec h p); [reflexivity|]. apply Hag; lia.
Qed.

Lemma agree_conv (layer : Conv2d.t) (x1 x2 : tensor R) {N D H T k d}
  (z1 z2 : tensor R) :
  shape x1 = [N; D; H + (k - 1) * d; 1] ->
  shape x2 = [N; D; H + (k - 1) * d; 1] ->
  layer_wf D layer (k, d) -> 1 <= k -> 1 <= d -> 1 <= H ->
  agree N D (H + (k - 1) * d) (T + (k - 1) * d) x1 x2 ->
  Conv2d.forward layer x1 = Ok z1 ->
  Conv2d.forward layer x2 = Ok z2 ->
  shape z1 = [N; D; H; 1] /\ shape z2 = [N; D; H; 1] /\ agree N D H T z1 z2.
Proof.
  intros H1 H2 Hwf Hk Hd HH Hag Hz1 Hz2.
  destruct (Conv2d_forward_spec layer x1 H1 Hwf Hk Hd HH) as (y1 & Hy1 & Hs1 & Hd1).
  destruct (Conv2d_forward_spec layer x2 H2 Hwf Hk Hd HH) as (y2 & Hy2 & Hs2 & Hd2).
  rewrite Hy1 in Hz1. rewrite Hy2 in Hz2.
  injection Hz1 as <-. injection Hz2 as <-.
  split; [assumption|]. split; [assumption|].
  intros n o h Hn Ho Hh HT. rewrite Hd1, Hd2. f_equal.
  apply sum_n_ext. intros ci Hci.
  apply sum_n_ext. intros i Hi.
  apply sum_n_ext. intros j Hj.
  f_equal. replace j with 0 by lia. simpl. apply Hag; nia.
Qed.

Lemma apply_bn_quiet (self : CNNNet.t) bns i (x y : tensor R) bns' :
  quiet self bns ->
  CNNNet.apply_bn self bns i x = Ok (y, bns') ->
  bns' = bns /\ shape y = shape x /\
  forall idx, data y idx = bn_quiet_value self bns i (ix idx 1) (data x idx).
Proof.
  intros Hq. unfold CNNNet.apply_bn, bn_quiet_value.
  destruct (CNNNet.batch_norm self) eqn:Hbn.
  - destruct Hq as [Hq|Hq]; [congruence|].
    unfold get. destruct (nth_error bns i) as [b|] eqn:Hnth; [|discriminate].
    cbn [bind]. rewrite Forall_forall in Hq.
    assert (Htr : BatchNorm2d.training b = false)
      by (apply Hq; eapply nth_error_In; eauto).
    unfold BatchNorm2d.forward. rewrite Htr.
    destruct (shape x) as [|n [|c [|h [|w [|? ?]]]]] eqn:Hs; try discriminate.
    destruct (c =? BatchNorm2d.num_features b); [|discriminate].
    cbn [bind]. intros [= <- <-]. split; [now apply set_nth_same|].
    split; [exact Hs | reflexivity].
  - intros [= <- <-]. repeat split.
Qed.

Lemma agree_add (u1 u2 r1 r2 v1 v2 : tensor R) {N D H T} :
  shape u1 = [N; D; H; 1] -> shape u2 = [N; D; H; 1] ->
  shape r1 = [N; D; H; 1] -> shape r2 = [N; D; H; 1] ->
  agree N D H T u1 u2 -> agree N D H T r1 r2 ->
  binop add u1 r1 = Ok v1 -> binop add u2 r2 = Ok v2 ->
  shape v1 = [N; D; H; 1] /\ shape v2 = [N; D; H; 1] /\ agree N D H T v1 v2.
Proof.
  intros Hu1 Hu2 Hr1 Hr2 Hu Hr Hv1 Hv2.
  destruct (binop_same_shape add u1 r1 Hu1 Hr1) as (w1 & Hw1 & Hs1 & Hd1).
  destruct (binop_same_shape add u2 r2 Hu2 Hr2) as (w2 & Hw2 & Hs2 & Hd2).
  rewrite Hw1 in Hv1. rewrite Hw2 in Hv2.
  injection Hv1 as <-. injection Hv2 as <-.
  split; [assumption|]. split; [assumption|].
  intros n d h Hn Hd Hh HT.
  rewrite Hd1, Hd2 by solve_valid. f_equal; [apply Hu | apply Hr]; assumption.
Qed.

Lemma loop_body_agree (self : CNNNet.t) i layer k d bns
  (x1 x2 y1 y2 : tensor R) b1 b2 {N H T} :
  shape x1 = [N; CNNNet.embedding_dim self; H; 1] ->
  shape x2 = [N; CNNNet.embedding_dim self; H; 1] ->
  1 <= H ->
  layer_wf (CNNNet.embedding_dim self) layer (k, d) ->
  quiet self bns ->
  agree N (CNNNet.embedding_dim self) H T x1 x2 ->
  CNNNet.loop_body self i layer k d x1 bns = Ok (y1, b1) ->
  CNNNet.loop_body self i layer k d x2 bns = Ok (y2, b2) ->
  b1 = bns /\ b2 = bns /\
  shape y1 = [N; CNNNet.embedding_dim self; H; 1] /\
  shape y2 = [N; CNNNet.embedding_dim self; H; 1] /\
  agree N (CNNNet.embedding_dim self) H T y1 y2.
Proof.
  intros Hs1 Hs2 HH Hwf Hq Hag Hy1 Hy2.
  unfold CNNNet.loop_body in Hy1, Hy2.
  apply bind_ok in Hy1. destruct Hy1 as (p1 & Hp1 & Hy1).
  apply bind_ok in Hy1. destruct Hy1 as (z1 & Hz1 & Hy1).
  apply bind_ok in Hy1. destruct Hy1 as ([u1 c1] & Hu1 & Hy1).
  apply bind_ok in Hy1. destruct Hy1 as (v1 & Hv1 & Hy1).
  apply bind_ok in Hy2. destruct Hy2 as (p2 & Hp2 & Hy2).
  apply bind_ok in Hy2. destruct Hy2 as (z2 & Hz2 & Hy2).
  apply bind_ok in Hy2. destruct Hy2 as ([u2 c2] & Hu2 & Hy2).
  apply bind_ok in Hy2. destruct Hy2 as (v2 & Hv2 & Hy2).
  injection Hy1 as <- <-. injection Hy2 as <- <-.
  destruct (Conv2d_forward_ok_inv layer p1 z1 Hwf Hz1) as (Hk & Hd).
  rewrite receptive_field_nat in Hp1, Hp2 by assumption.
  replace (Z.of_nat ((k - 1) * d + 1) - 1)%Z with (Z.of_nat ((k - 1) * d))
    in Hp1, Hp2 by lia.
  destruct (agree_pad x1 x2 _ p1 p2 Hs1 Hs2 Hag Hp1 Hp2) as (Hps1 & Hps2 & Hpag).
  destruct (agree_conv layer p1 p2 z1 z2 Hps1 Hps2 Hwf Hk Hd HH Hpag Hz1 Hz2)
    as (Hzs1 & Hzs2 & Hzag).
  destruct (apply_bn_quiet self bns i _ u1 c1 Hq Hu1) as (-> & Hus1 & Hud1).
  destruct (apply_bn_quiet self bns i _ u2 c2 Hq Hu2) as (-> & Hus2 & Hud2).
  cbn [tmap shape] in Hus1, Hus2. rewrite Hzs1 in Hus1. rewrite Hzs2 in Hus2.
  assert (Huag : agree N (CNNNet.embedding_dim self) H T u1 u2).
  { intros n o h Hn Ho Hh HT. rewrite Hud1, Hud2. cbn [tmap data ix nth].
    now rewrite Hzag. }
  split; [reflexivity|]. split; [reflexivity|].
  unfold CNNNet.add_residual in Hv1, Hv2.
  destruct (CNNNet.residual_connections self).
  - exact (agree_add u1 u2 x1 x2 v1 v2 Hus1 Hus2 Hs1 Hs2 Huag Hag Hv1 Hv2).
  - injection Hv1 as <-. injection Hv2 as <-. auto.
Qed.

Lemma layers_loop_agree (self : CNNNet.t) (rest : list (Conv2d.t * nat * nat))
  bns {N H T} :
  1 <= H ->
  Forall (fun t => layer_wf (CNNNet.embedding_dim self)
                            (fst (fst t)) (snd (fst t), snd t)) rest ->
  quiet self bns ->
  forall i (x1 x2 y1 y2 : tensor R) b1 b2,
  shape x1 = [N; CNNNet.embedding_dim self; H; 1] ->
  shape x2 = [N; CNNNet.embedding_dim self; H; 1] ->
  agree N (CNNNet.embedding_dim self) H T x1 x2 ->
  CNNNet.layers_loop self i rest x1 bns = Ok (y1, b1) ->
  CNNNet.layers_loop self i rest x2 bns = Ok (y2, b2) ->
  b1 = bns /\ b2 = bns /\
  shape y1 = [N; CNNNet.embedding_dim self; H; 1] /\
  shape y2 = [N; CNNNet.embedding_dim self; H; 1] /\
  agree N (CNNNet.embedding_dim self) H T y1 y2.
Proof.
  intros HH Hrest Hq. induction Hrest as [|[[layer k] d] rest Hwf _ IH];
    intros i x1 x2 y1 y2 b1 b2 Hs1 Hs2 Hag Hy1 Hy2.
  - simpl in Hy1, Hy2. injection Hy1 as <- <-. injection Hy2 as <- <-.
    repeat (split; [solve [auto]|]). assumption.
  - cbn [CNNNet.layers_loop] in Hy1, Hy2. simpl in Hwf.
    apply bind_ok in Hy1. destruct Hy1 as ([u1 c1] & Hu1 & Hy1).
    apply bind_ok in Hy2. destruct Hy2 as ([u2 c2] & Hu2 & Hy2).
    destruct (loop_body_agree self i layer k d bns x1 x2 u1 u2 c1 c2
                Hs1 Hs2 HH Hwf Hq Hag Hu1 Hu2) as (-> & -> & Hus1 & Hus2 & Huag).
    exact (IH (S i) u1 u2 y1 y2 b1 b2 Hus1 Hus2 Huag Hy1 Hy2).
Qed.

Lemma rest_layers_match (D : nat) (ls : list Conv2d.t) (ks ds : list nat) :
  Forall2 (layer_wf D) ls (combine ks ds) ->
  Forall (fun t => layer_wf D (fst (fst t)) (snd (fst t), snd t))
         (combine (combine ls ks) ds).
Proof.
  revert ks ds. induction ls as [|l ls IH]; intros ks ds Hl.
  - constructor.
  - destruct ks as [|k ks]; [inversion Hl|].
    destruct ds as [|d ds]; [inversion Hl|].
    simpl in *. inversion Hl; subst. constructor; auto.
Qed.

Lemma tl_layers_match (D : nat) (ls : list Conv2d.t) (ks ds : list nat) :
  Forall2 (layer_wf D) ls (combine ks ds) ->
  Forall2 (layer_wf D) (tl ls) (combine (tl ks) (tl ds)).
Proof.
  intros Hl. destruct ls as [|l ls].
  - inversion Hl as [Heq|]. simpl.
    destruct ks as [|k [|k' ks]]; destruct ds as [|d [|d' ds]];
      simpl in *; try constructor; discriminate.
  - destruct ks as [|k ks]; [inversion Hl|].
    destruct ds as [|d ds]; [inversion Hl|].
    simpl in *. now inversion Hl.
Qed.

Lemma get_head {A} (l : list A) (a : A) : get l 0 = Ok a -> exists l', l = a :: l'.
Proof.
  unfold get. destruct l as [|b l]; simpl; [discriminate|].
  intros [= ->]. now exists l.
Qed.

Lemma first_layer_agree (self : CNNNet.t) (e1 e2 y1 y2 : tensor R) b1 b2
  {N L t} :
  CNNNet_wf self -> quiet self (CNNNet.bn self) ->
  shape e1 = [N; CNNNet.embedding_dim self; L; 1] ->
  shape e2 = [N; CNNNet.embedding_dim self; L; 1] ->
  agree N (CNNNet.embedding_dim self) L t e1 e2 ->
  CNNNet.first_layer self e1 = Ok (y1, b1) ->
  CNNNet.first_layer self e2 = Ok (y2, b2) ->
  b1 = CNNNet.bn self /\ b2 = CNNNet.bn self /\
  shape y1 = [N; CNNNet.embedding_dim self; L + 1; 1] /\
  shape y2 = [N; CNNNet.embedding_dim self; L + 1; 1] /\
  agree N (CNNNet.embedding_dim self) (L + 1) (t + 1) y1 y2.
Proof.
  intros (_ & Hl & _) Hq Hs1 Hs2 Hag Hy1 Hy2.
  unfold CNNNet.first_layer in Hy1, Hy2.
  apply bind_ok in Hy1. destruct Hy1 as (k0 & Hk0 & Hy1).
  apply bind_ok in Hy1. destruct Hy1 as (d0 & Hd0 & Hy1).
  apply bind_ok in Hy1. destruct Hy1 as (p1 & Hp1 & Hy1).
  apply bind_ok in Hy1. destruct Hy1 as (layer0 & Hl0 & Hy1).
  apply bind_ok in Hy1. destruct Hy1 as (z1 & Hz1 & Hy1).
  apply bind_ok in Hy1. destruct Hy1 as ([u1 c1] & Hu1 & Hy1).
  apply bind_ok in Hy1. destruct Hy1 as (v1 & Hv1 & Hy1).
  rewrite Hk0, Hd0 in Hy2. cbn [bind] in Hy2.
  apply bind_ok in Hy2. destruct Hy2 as (p2 & Hp2 & Hy2).
  rewrite Hl0 in Hy2. cbn [bind] in Hy2.
  apply bind_ok in Hy2. destruct Hy2 as (z2 & Hz2 & Hy2).
  apply bind_ok in Hy2. destruct Hy2 as ([u2 c2] & Hu2 & Hy2).
  apply bind_ok in Hy2. destruct Hy2 as (v2 & Hv2 & Hy2).
  injection Hy1 as <- <-. injection Hy2 as <- <-.
  apply get_head in Hk0, Hd0, Hl0.
  destruct Hk0 as (ks & Hks). destruct Hd0 as (ds & Hds). destruct Hl0 as (ls & Hls).
  rewrite Hks, Hds, Hls in Hl. simpl in Hl.
  assert (Hwf : layer_wf (CNNNet.embedding_dim self) layer0 (k0, d0))
    by now inversion Hl.
  destruct (Conv2d_forward_ok_inv layer0 p1 z1 Hwf Hz1) as (Hk & Hd).
  rewrite receptive_field_nat in Hp1, Hp2 by assumption.
  destruct (agree_pad e1 e2 _ p1 p2 Hs1 Hs2 Hag Hp1 Hp2) as (Hps1 & Hps2 & Hpag).
  replace (L + ((k0 - 1) * d0 + 1)) with (L + 1 + (k0 - 1) * d0)
    in Hps1, Hps2, Hpag by lia.
  replace (t + ((k0 - 1) * d0 + 1)) with (t + 1 + (k0 - 1) * d0) in Hpag by lia.
  destruct (agree_conv layer0 p1 p2 z1 z2 Hps1 Hps2 Hwf Hk Hd
              ltac:(lia) Hpag Hz1 Hz2) as (Hzs1 & Hzs2 & Hzag).
  destruct (apply_bn_quiet self _ 0 _ u1 c1 Hq Hu1) as (-> & Hus1 & Hud1).
  destruct (apply_bn_quiet self _ 0 _ u2 c2 Hq Hu2) as (-> & Hus2 & Hud2).
  cbn [tmap shape] in Hus1, Hus2. rewrite Hzs1 in Hus1. rewrite Hzs2 in Hus2.
  assert (Huag : agree N (CNNNet.embedding_dim self) (L + 1) (t + 1) u1 u2).
  { intros n o h Hn Ho Hh HT. rewrite Hud1, Hud2. cbn [tmap data ix nth].
    now rewrite Hzag. }
  split; [reflexivity|]. split; [reflexivity|].
  destruct (CNNNet.residual_connections self).
  - apply bind_ok in Hv1. destruct Hv1 as (r1 & Hr1 & Hv1).
    apply bind_ok in Hv2. destruct Hv2 as (r2 & Hr2 & Hv2).
    change 1%Z with (Z.of_nat 1) in Hr1, Hr2.
    destruct (agree_pad e1 e2 _ r1 r2 Hs1 Hs2 Hag Hr1 Hr2) as (Hrs1 & Hrs2 & Hrag).
    exact (agree_add u1 u2 r1 r2 v1 v2 Hus1 Hus2 Hrs1 Hrs2 Huag Hrag Hv1 Hv2).
  - injection Hv1 as <-. injection Hv2 as <-. auto.
Qed.

Lemma with_bn_same (self : CNNNet.t) : CNNNet.with_bn self (CNNNet.bn self) = self.
Proof. now destruct self. Qed.

Lemma CNNNet_user_representation_agree (self : CNNNet.t) (ids1 ids2 : tensor nat)
  (a1 f1 a2 f2 : tensor R) (s1 s2 : CNNNet.t) {N L t} :
  CNNNet_wf self -> CNNNet_quiet self ->
  shape ids1 = [N; L] -> shape ids2 = [N; L] ->
  (forall n l, n < N -> l < L -> l < t -> data ids1 [n; l] = data ids2 [n; l]) ->
  CNNNet.user_representation self ids1 = Ok (a1, f1, s1) ->
  CNNNet.user_representation self ids2 = Ok (a2, f2, s2) ->
  s1 = self /\ s2 = self /\
  shape a1 = [N; CNNNet.embedding_dim self; L] /\
  shape a2 = [N; CNNNet.embedding_dim self; L] /\
  forall n d t', n < N -> d < CNNNet.embedding_dim self -> t' < L -> t' <= t ->
    data a1 [n; d; t'] = data a2 [n; d; t'].
Proof.
  intros Hwf Hq Hi1 Hi2 Hids Hr1 Hr2.
  pose proof Hwf as ((num & Hw) & Hl & _).
  unfold CNNNet.user_representation in Hr1, Hr2.
  apply bind_ok in Hr1. destruct Hr1 as (e1 & He1 & Hr1).
  apply bind_ok in Hr1. destruct Hr1 as ([x1 c1] & Hx1 & Hr1).
  apply bind_ok in Hr1. destruct Hr1 as ([y1 c1'] & Hy1 & Hr1).
  apply bind_ok in Hr1. destruct Hr1 as (u1 & Hu1 & Hr1).
  apply bind_ok in Hr1. destruct Hr1 as ([a1' f1'] & Hsp1 & Hr1).
  apply bind_ok in Hr2. destruct Hr2 as (e2 & He2 & Hr2).
  apply bind_ok in Hr2. destruct Hr2 as ([x2 c2] & Hx2 & Hr2).
  apply bind_ok in Hr2. destruct Hr2 as ([y2 c2'] & Hy2 & Hr2).
  apply bind_ok in Hr2. destruct Hr2 as (u2 & Hu2 & Hr2).
  apply bind_ok in Hr2. destruct Hr2 as ([a2' f2'] & Hsp2 & Hr2).
  injection Hr1 as <- <- <-. injection Hr2 as <- <- <-.
  destruct (channel_embeddings_inv _ ids1 e1 Hw Hi1 He1) as (_ & Hes1 & Hed1).
  destruct (channel_embeddings_inv _ ids2 e2 Hw Hi2 He2) as (_ & Hes2 & Hed2).
  assert (Heag : agree N (CNNNet.embedding_dim self) L t e1 e2).
  { intros n d l Hn Hd Hl' Ht. rewrite Hed1, Hed2, Hids; auto. }
  destruct (first_layer_agree self e1 e2 x1 x2 c1 c2 Hwf Hq Hes1 Hes2 Heag Hx1 Hx2)
    as (-> & -> & Hxs1 & Hxs2 & Hxag).
  apply tl_layers_match, rest_layers_match in Hl.
  destruct (layers_loop_agree self _ (CNNNet.bn self) (N:=N) (H:=L + 1) (T:=t + 1)
              ltac:(lia) Hl Hq 0 x1 x2 y1 y2 c1' c2' Hxs1 Hxs2 Hxag Hy1 Hy2)
    as (-> & -> & Hys1 & Hys2 & Hyag).
  rewrite with_bn_same.
  destruct (squeeze3_spec y1 Hys1) as (w1 & Hw1 & Hws1 & Hwd1).
  destruct (squeeze3_spec y2 Hys2) as (w2 & Hw2 & Hws2 & Hwd2).
  rewrite Hw1 in Hu1. rewrite Hw2 in Hu2. injection Hu1 as <-. injection Hu2 as <-.
  replace (L + 1) with (S L) in Hws1, Hws2 by lia.
  destruct (split_last_spec w1 Hws1) as (p1 & q1 & Hpq1 & Hps1 & _ & Hpd1 & _).
  destruct (split_last_spec w2 Hws2) as (p2 & q2 & Hpq2 & Hps2 & _ & Hpd2 & _).
  rewrite Hpq1 in Hsp1. rewrite Hpq2 in Hsp2.
  injection Hsp1 as <- <-. injection Hsp2 as <- <-.
  repeat (split; [solve [auto]|]).
  intros n d t' Hn Hd Ht' Hle. rewrite Hpd1, Hpd2, Hwd1, Hwd2.
  apply Hyag; lia.
Qed.

End Convolutional.

(** ** What a call leaves of the module *)

Section Frame.
Context {Sc : Scalar} {E : Elementary Sc}.

Lemma bn_rel_refl (b : BatchNorm2d.t) : bn_rel b b.
Proof. split; [apply same_params_refl | auto]. Qed.

Lemma bn_rel_trans (b1 b2 b3 : BatchNorm2d.t) :
  bn_rel b1 b2 -> bn_rel b2 b3 -> bn_rel b1 b3.
Proof.
  intros (Hp12 & He12) (Hp23 & He23). split.
  - eapply same_params_trans; eauto.
  - intros Htr. pose proof (He12 Htr) as ->. auto.
Qed.

Lemma Forall2_bn_rel_refl (l : list BatchNorm2d.t) : Forall2 bn_rel l l.
Proof. induction l; constructor; auto using bn_rel_refl. Qed.

Lemma Forall2_bn_rel_trans (l1 l2 l3 : list BatchNorm2d.t) :
  Forall2 bn_rel l1 l2 -> Forall2 bn_rel l2 l3 -> Forall2 bn_rel l1 l3.
Proof.
  intros H12. revert l3. induction H12; intros l3 H23; inversion H23; subst;
    constructor; eauto using bn_rel_trans.
Qed.

Lemma frame_refl (self : CNNNet.t) bns : frame self bns bns.
Proof. split; [apply Forall2_bn_rel_refl | auto]. Qed.

Lemma frame_trans (self : CNNNet.t) l1 l2 l3 :
  frame self l1 l2 -> frame self l2 l3 -> frame self l1 l3.
Proof.
  intros (H12 & E12) (H23 & E23). split.
  - eapply Forall2_bn_rel_trans; eauto.
  - intros Hbn. rewrite (E23 Hbn). auto.
Qed.

Lemma Forall2_bn_rel_same_params (l l' : list BatchNorm2d.t) :
  Forall2 bn_rel l l' -> Forall2 same_params l l'.
Proof. induction 1 as [|? ? ? ? [Hp _]]; constructor; auto. Qed.

Lemma Forall2_bn_rel_eval (l l' : list BatchNorm2d.t) :
  Forall2 bn_rel l l' ->
  Forall (fun b => BatchNorm2d.training b = false) l -> l' = l.
Proof.
  induction 1 as [|b b' l l' [_ He] _ IH]; intros Hev; [reflexivity|].
  inversion Hev; subst. rewrite He, IH by assumption. reflexivity.
Qed.

Lemma BatchNorm2d_forward_rel (b : BatchNorm2d.t) (x y : tensor R) b1 :
  BatchNorm2d.forward b x = Ok (y, b1) -> bn_rel b b1.
Proof.
  unfold BatchNorm2d.forward.
  destruct (shape x) as [|n [|c [|h [|w [|? ?]]]]]; try discriminate.
  destruct (c =? BatchNorm2d.num_features b); [|discriminate].
  destruct (BatchNorm2d.training b) eqn:Htr.
  - destruct (n * h * w =? 1); [discriminate|]. intros [= <- <-].
    split; [|congruence].
    unfold same_params, BatchNorm2d.update. simpl. repeat split; auto.
  - intros [= <- <-]. apply bn_rel_refl.
Qed.

Lemma BatchNorm2d_forward_again (b b' : BatchNorm2d.t) (x y : tensor R) b1 :
  bn_rel b b' ->
  BatchNorm2d.forward b x = Ok (y, b1) ->
  exists b1', BatchNorm2d.forward b' x = Ok (y, b1') /\ bn_rel b1 b1'.
Proof.
  intros (Hp & He). unfold BatchNorm2d.forward.
  destruct (shape x) as [|n [|c [|h [|w [|? ?]]]]]; try discriminate.
  destruct Hp as (Hn & Heps & Hmom & Hw & Hb & Htr).
  rewrite <- Hn, <- Htr.
  destruct (c =? BatchNorm2d.num_features b); [|discriminate].
  destruct (BatchNorm2d.training b) eqn:Htrb.
  - destruct (n * h * w =? 1); [discriminate|]. intros [= <- <-].
    eexists. split.
    + unfold BatchNorm2d.normalize. rewrite <- Heps, <- Hw, <- Hb. reflexivity.
    + split; [|simpl; congruence].
      unfold same_params, BatchNorm2d.update. simpl. repeat split; congruence.
  - intros [= <- <-]. rewrite (He eq_refl). eexists. split; [reflexivity|].
    apply bn_rel_refl.
Qed.

Lemma Forall2_bn_rel_set_nth (l l' : list BatchNorm2d.t) i b b' :
  Forall2 bn_rel l l' -> bn_rel b b' ->
  Forall2 bn_rel (set_nth l i b) (set_nth l' i b').
Proof.
  intros Hl. revert i. induction Hl; intros [|i] Hb; simpl;
    constructor; auto.
Qed.

Lemma Forall2_bn_rel_nth (l l' : list BatchNorm2d.t) i b :
  Forall2 bn_rel l l' -> nth_error l i = Some b ->
  exists b', nth_error l' i = Some b' /\ bn_rel b b'.
Proof.
  intros Hl. revert i. induction Hl as [|a a' l l' Ha _ IH]; intros [|i];
    simpl; try discriminate.
  - intros [= ->]. eauto.
  - apply IH.
Qed.

Lemma Forall2_bn_rel_set_nth_left (l : list BatchNorm2d.t) i b b' :
  nth_error l i = Some b -> bn_rel b b' -> Forall2 bn_rel l (set_nth l i b').
Proof.
  revert i. induction l as [|a l IH]; intros [|i]; simpl; try discriminate.
  - intros [= ->] Hb. constructor; auto using Forall2_bn_rel_refl.
  - intros Hi Hb. constructor; eauto using bn_rel_refl.
Qed.

Lemma apply_bn_frame (self : CNNNet.t) bns i (x y : tensor R) bns1 :
  CNNNet.apply_bn self bns i x = Ok (y, bns1) -> frame self bns bns1.
Proof.
  unfold CNNNet.apply_bn. destruct (CNNNet.batch_norm self) eqn:Hbn.
  - unfold get. destruct (nth_error bns i) as [b|] eqn:Hnth; [|discriminate].
    cbn [bind]. destruct (BatchNorm2d.forward b x) as [[y' b']|] eqn:Hf;
      [|discriminate].
    simpl. intros [= <- <-]. split; [|intros; congruence].
    eapply Forall2_bn_rel_set_nth_left; eauto using BatchNorm2d_forward_rel.
  - intros [= <- <-]. apply frame_refl.
Qed.

Lemma apply_bn_again (self : CNNNet.t) bns bns' i (x y : tensor R) bns1 :
  Forall2 bn_rel bns bns' ->
  CNNNet.apply_bn self bns i x = Ok (y, bns1) ->
  exists bns1', CNNNet.apply_bn self bns' i x = Ok (y, bns1') /\
                Forall2 bn_rel bns1 bns1'.
Proof.
  intros Hrel. unfold CNNNet.apply_bn. destruct (CNNNet.batch_norm self).
  - unfold get. destruct (nth_error bns i) as [b|] eqn:Hnth; [|discriminate].
    destruct (Forall2_bn_rel_nth bns bns' i b Hrel Hnth) as (b' & -> & Hb).
    cbn [bind]. destruct (BatchNorm2d.forward b x) as [[y' b1]|] eqn:Hf;
      [|discriminate].
    simpl. intros [= <- <-].
    destruct (BatchNorm2d_forward_again b b' x y' b1 Hb Hf) as (b1' & -> & Hb1).
    cbn [bind]. eexists. split; [reflexivity|].
    now apply Forall2_bn_rel_set_nth.
  - intros [= <- <-]. eauto.
Qed.

Lemma loop_body_frame (self : CNNNet.t) i layer k d (x y : tensor R) bns bns1 :
  CNNNet.loop_body self i layer k d x bns = Ok (y, bns1) -> frame self bns bns1.
Proof.
  unfold CNNNet.loop_body. intros Hy.
  apply bind_ok in Hy. destruct Hy as (p & _ & Hy).
  apply bind_ok in Hy. destruct Hy as (z & _ & Hy).
  apply bind_ok in Hy. destruct Hy as ([u c] & Hu & Hy).
  apply bind_ok in Hy. destruct Hy as (v & _ & Hy).
  injection Hy as <- <-. eapply apply_bn_frame; eauto.
Qed.

Lemma loop_body_again (self : CNNNet.t) i layer k d (x y : tensor R)
  bns bns' bns1 :
  Forall2 bn_rel bns bns' ->
  CNNNet.loop_body self i layer k d x bns = Ok (y, bns1) ->
  exists bns1', CNNNet.loop_body self i layer k d x bns' = Ok (y, bns1') /\
                Forall2 bn_rel bns1 bns1'.
Proof.
  intros Hrel. unfold CNNNet.loop_body. intros Hy.
  apply bind_ok in Hy. destruct Hy as (p & Hp & Hy).
  apply bind_ok in Hy. destruct Hy as (z & Hz & Hy).
  apply bind_ok in Hy. destruct Hy as ([u c] & Hu & Hy).
  apply bind_ok in Hy. destruct Hy as (v & Hv & Hy).
  injection Hy as <- <-. rewrite Hp. cbn [bind]. rewrite Hz. cbn [bind].
  destruct (apply_bn_again self bns bns' i _ u c Hrel Hu) as (c' & -> & Hc).
  simpl. rewrite Hv. simpl. eauto.
Qed.

Lemma layers_loop_frame (self : CNNNet.t) (rest : list (Conv2d.t * nat * nat)) :
  forall i (x y : tensor R) bns bns1,
  CNNNet.layers_loop self i rest x bns = Ok (y, bns1) -> frame self bns bns1.
Proof.
  induction rest as [|[[layer k] d] rest IH]; intros i x y bns bns1 Hy.
  - simpl in Hy. injection Hy as <- <-. apply frame_refl.
  - cbn [CNNNet.layers_loop] in Hy.
    apply bind_ok in Hy. destruct Hy as ([u c] & Hu & Hy).
    eapply frame_trans; [eapply loop_body_frame; eauto | eapply IH; eauto].
Qed.

Lemma layers_loop_again (self : CNNNet.t) (rest : list (Conv2d.t * nat * nat)) :
  forall i (x y : tensor R) bns bns' bns1,
  Forall2 bn_rel bns bns' ->
  CNNNet.layers_loop self i rest x bns = Ok (y, bns1) ->
  exists bns1', CNNNet.layers_loop self i rest x bns' = Ok (y, bns1') /\
                Forall2 bn_rel bns1 bns1'.
Proof.
  induction rest as [|[[layer k] d] rest IH]; intros i x y bns bns' bns1 Hrel Hy.
  - simpl in Hy. injection Hy as <- <-. simpl. eauto.
  - cbn [CNNNet.layers_loop] in Hy |- *.
    apply bind_ok in Hy. destruct Hy as ([u c] & Hu & Hy).
    destruct (loop_body_again self i layer k d x u bns bns' c Hrel Hu)
      as (c' & -> & Hc).
    cbn [bind]. eapply IH; eauto.
Qed.

Lemma first_layer_frame (self : CNNNet.t) (e y : tensor R) bns1 :
  CNNNet.first_layer self e = Ok (y, bns1) -> frame self (CNNNet.bn self) bns1.
Proof.
  unfold CNNNet.first_layer. intros Hy.
  apply bind_ok in Hy. destruct Hy as (k0 & _ & Hy).
  apply bind_ok in Hy. destruct Hy as (d0 & _ & Hy).
  apply bind_ok in Hy. destruct Hy as (p & _ & Hy).
  apply bind_ok in Hy. destruct Hy as (layer0 & _ & Hy).
  apply bind_ok in Hy. destruct Hy as (z & _ & Hy).
  apply bind_ok in Hy. destruct Hy as ([u c] & Hu & Hy).
  apply bind_ok in Hy. destruct Hy as (v & _ & Hy).
  injection Hy as <- <-. eapply apply_bn_frame; eauto.
Qed.

Lemma first_layer_again (self : CNNNet.t) (e y : tensor R) bns' bns1 :
  Forall2 bn_rel (CNNNet.bn self) bns' ->
  CNNNet.first_layer self e = Ok (y, bns1) ->
  exists bns1', CNNNet.first_layer (CNNNet.with_bn self bns') e = Ok (y, bns1') /\
                Forall2 bn_rel bns1 bns1'.
Proof.
  intros Hrel. unfold CNNNet.first_layer. intros Hy.
  apply bind_ok in Hy. destruct Hy as (k0 & Hk0 & Hy).
  apply bind_ok in Hy. destruct Hy as (d0 & Hd0 & Hy).
  apply bind_ok in Hy. destruct Hy as (p & Hp & Hy).
  apply bind_ok in Hy. destruct Hy as (layer0 & Hl0 & Hy).
  apply bind_ok in Hy. destruct Hy as (z & Hz & Hy).
  apply bind_ok in Hy. destruct Hy as ([u c] & Hu & Hy).
  apply bind_ok in Hy. destruct Hy as (v & Hv & Hy).
  injection Hy as <- <-.
  cbn [CNNNet.with_bn CNNNet.kernel_width CNNNet.dilation CNNNet.cnn_layers
       CNNNet.bn CNNNet.nonlinearity CNNNet.residual_connections].
  rewrite Hk0, Hd0. cbn [bind]. rewrite Hp. cbn [bind].
  rewrite Hl0. cbn [bind]. rewrite Hz. cbn [bind].
  destruct (apply_bn_again self _ bns' 0 _ u c Hrel Hu) as (c' & Hc' & Hc).
  change (CNNNet.apply_bn (CNNNet.with_bn self bns')) with (CNNNet.apply_bn self).
  rewrite Hc'. cbn [bind]. rewrite Hv. cbn [bind]. eauto.
Qed.

Lemma layers_loop_with_bn (self : CNNNet.t) bns0
  (rest : list (Conv2d.t * nat * nat)) :
  forall i (x : tensor R) bns,
  CNNNet.layers_loop (CNNNet.with_bn self bns0) i rest x bns
  = CNNNet.layers_loop self i rest x bns.
Proof.
  induction rest as [|[[layer k] d] rest IH]; intros i x bns; [reflexivity|].
  cbn [CNNNet.layers_loop].
  change (CNNNet.loop_body (CNNNet.with_bn self bns0)) with (CNNNet.loop_body self).
  destruct (CNNNet.loop_body self i layer k d x bns) as [[y c]|]; [|reflexivity].
  simpl. apply IH.
Qed.

Lemma CNNNet_user_representation_frame (self : CNNNet.t) (ids : tensor nat)
  (a f : tensor R) (s1 : CNNNet.t) :
  CNNNet.user_representation self ids = Ok (a, f, s1) ->
  exists bns1, s1 = CNNNet.with_bn self bns1 /\ frame self (CNNNet.bn self) bns1.
Proof.
  unfold CNNNet.user_representation. intros Hr.
  apply bind_ok in Hr. destruct Hr as (e & _ & Hr).
  apply bind_ok in Hr. destruct Hr as ([x c] & Hx & Hr).
  apply bind_ok in Hr. destruct Hr as ([y c'] & Hy & Hr).
  apply bind_ok in Hr. destruct Hr as (u & _ & Hr).
  apply bind_ok in Hr. destruct Hr as ([a' f'] & _ & Hr).
  injection Hr as <- <- <-. exists c'. split; [reflexivity|].
  eapply frame_trans; [eapply first_layer_frame; eauto
                      | eapply layers_loop_frame; eauto].
Qed.

Lemma CNNNet_user_representation_again (self : CNNNet.t) (ids : tensor nat)
  (a f : tensor R) (s1 : CNNNet.t) :
  CNNNet.user_representation self ids = Ok (a, f, s1) ->
  exists s2, CNNNet.user_representation s1 ids = Ok (a, f, s2).
Proof.
  intros Hr.
  destruct (CNNNet_user_representation_frame self ids a f s1 Hr)
    as (bns1 & -> & Hrel & _).
  unfold CNNNet.user_representation in Hr |- *.
  apply bind_ok in Hr. destruct Hr as (e & He & Hr).
  apply bind_ok in Hr. destruct Hr as ([x c] & Hx & Hr).
  apply bind_ok in Hr. destruct Hr as ([y c'] & Hy & Hr).
  apply bind_ok in Hr. destruct Hr as (u & Hu & Hr).
  apply bind_ok in Hr. destruct Hr as ([a' f'] & Hsp & Hr).
  injection Hr as <- <- <-.
  change (CNNNet.item_embeddings (CNNNet.with_bn self c'))
    with (CNNNet.item_embeddings self).
  rewrite He. cbn [bind].
  destruct (first_layer_again self e x c' c Hrel Hx) as (c2 & -> & Hc2).
  cbn [bind].
  change (CNNNet.cnn_layers (CNNNet.with_bn self c')) with (CNNNet.cnn_layers self).
  change (CNNNet.kernel_width (CNNNet.with_bn self c')) with (CNNNet.kernel_width self).
  change (CNNNet.dilation (CNNNet.with_bn self c')) with (CNNNet.dilation self).
  rewrite layers_loop_with_bn.
  destruct (layers_loop_again self _ 0 x y c c2 c' Hc2 Hy) as (c3 & -> & _).
  cbn [bind]. rewrite Hu. cbn [bind]. rewrite Hsp. cbn [bind]. eauto.
Qed.

End Frame.

(** ** What the constructor builds *)

Section Constructor.
Context {Sc : Scalar} {E : Elementary Sc}.

Lemma init_layers_wf (D : nat) (rng : nat -> list nat -> R) (ks ds : list nat) :
  forall a,
  Forall2 (layer_wf D)
    (map (fun p : nat * (nat * nat) =>
            let '(i, (kernel_width, dilation)) := p in
            Conv2d.init (rng (1 + 2 * i)) (rng (2 + 2 * i)) D D
                        (kernel_width, 1) (dilation, 1))
         (combine (seq a (length ks)) (combine ks ds)))
    (combine ks ds).
Proof.
  revert ds. induction ks as [|k ks IH]; intros ds a; [constructor|].
  destruct ds as [|d ds]; [simpl; constructor|].
  simpl. constructor; [repeat split | apply IH].
Qed.

(** A module the constructor returns is well-formed. *)
Lemma CNNNet_init_wf (rng : nat -> list nat -> R)
  (num_items embedding_dim : nat) (kernel_width dilation : int_or_seq)
  (num_layers : nat) (nonlinearity : string)
  (residual_connections batch_norm sparse benchmark : bool) (net : CNNNet.t) :
  CNNNet.init rng num_items embedding_dim kernel_width dilation num_layers
    nonlinearity residual_connections batch_norm sparse benchmark = Ok net ->
  CNNNet_wf net.
Proof.
  unfold CNNNet.init. intros Hnet.
  apply bind_ok in Hnet. destruct Hnet as (f & _ & Hnet).
  injection Hnet as <-. unfold CNNNet_wf.
  cbn [CNNNet.embedding_dim CNNNet.item_embeddings CNNNet.cnn_layers
       CNNNet.kernel_width CNNNet.dilation CNNNet.batch_norm CNNNet.bn].
  split; [|split].
  - exists num_items. reflexivity.
  - apply init_layers_wf.
  - intros ->. rewrite length_map, length_seq. split; [reflexivity|].
    apply Forall_forall. intros b Hb. apply in_map_iff in Hb.
    destruct Hb as (i & <- & _). reflexivity.
Qed.

(** Scoring [L >= 2] targets per sequence: the biases keep their
    trailing dimension, and the sum with the dot products broadcasts to
    [N; L; L] when [N] is 1 or [L], and fails otherwise. *)
Lemma target_scores_longer_sequences (item_embeddings item_biases : Embedding.t)
  (reps : tensor R) (targets : tensor nat) (num dim N L : nat) :
  shape (Embedding.weight item_embeddings) = [num; dim] ->
  shape (Embedding.weight item_biases) = [num; 1] ->
  shape reps = [N; dim; L] -> shape targets = [N; L] ->
  (forall n l, n < N -> l < L -> data targets [n; l] < num) ->
  2 <= L ->
  match target_scores item_embeddings item_biases reps targets with
  | Ok x => shape x = [N; L; L] /\ (N = 1 \/ N = L)
  | Err e => e = RuntimeError /\ N <> 1 /\ N <> L
  end.
Proof.
  intros Hw Hb Hrs Hts Hr HL. unfold target_scores.
  destruct (Embedding_forward_spec _ targets Hw Hts Hr) as (e & -> & He & _).
  cbn [bind]. unfold permute. rewrite He.
  cbn [shape data length is_perm Nat.eqb forallb existsb seq andb orb map ix nth bind].
  destruct (Embedding_forward_spec _ targets Hb Hts Hr) as (b & -> & Hbs & _).
  cbn [bind]. unfold squeeze at 1. rewrite Hbs.
  cbn [shape data length Nat.ltb Nat.leb ix nth].
  destruct (Nat.eqb_spec L 1) as [->|_]; [lia|]. cbn [bind].
  unfold binop at 1. cbn [shape]. rewrite Hrs, broadcast_shapes_same.
  cbn [bind]. unfold tsum.
  cbn [shape data length Nat.ltb Nat.leb ix nth del bind]. unfold squeeze.
  cbn [shape data length Nat.ltb Nat.leb ix nth].
  destruct (Nat.eqb_spec L 1) as [->|_]; [lia|]. cbn [bind].
  unfold binop. cbn [shape]. rewrite Hbs.
  unfold broadcast_shapes. cbn [rev app bshape_rev].
  destruct (Nat.eqb_spec L N) as [->|HLN].
  - destruct (Nat.eqb_spec 1 N) as [<-|_]; [lia|]. simpl. auto.
  - destruct (Nat.eqb_spec L 1) as [->|_]; [lia|].
    destruct (Nat.eqb_spec N 1) as [->|HN1].
    + destruct (Nat.eqb_spec 1 L) as [<-|_]; [lia|]. simpl. auto.
    + simpl. repeat split; auto.
Qed.

End Constructor.

(** ** Which normalisation layer a convolution meets *)

Section Normalisation.
Context {Sc : Scalar} {E : Elementary Sc}.

Lemma nth_error_set_nth_other {A} (l : list A) (i j : nat) (a : A) :
  i <> j -> nth_error (set_nth l i a) j = nth_error l j.
Proof.
  revert i j. induction l as [|b l IH]; intros [|i] [|j] Hij; simpl;
    try reflexivity; try congruence.
  apply IH. congruence.
Qed.

Lemma apply_bn_touches_one (self : CNNNet.t) bns i (x y : tensor R) bns' j :
  CNNNet.apply_bn self bns i x = Ok (y, bns') -> i <> j ->
  nth_error bns' j = nth_error bns j.
Proof.
  unfold CNNNet.apply_bn. destruct (CNNNet.batch_norm self).
  - intros Hy Hij. apply bind_ok in Hy. destruct Hy as (b & _ & Hy).
    apply bind_ok in Hy. destruct Hy as ([y' b'] & _ & Hy).
    injection Hy as <- <-. now apply nth_error_set_nth_other.
  - now intros [= <- <-].
Qed.

Lemma layers_loop_touches_below (self : CNNNet.t)
  (rest : list (Conv2d.t * nat * nat)) :
  forall i (x y : tensor R) bns bns' j,
  CNNNet.layers_loop self i rest x bns = Ok (y, bns') ->
  j < i \/ i + length rest <= j ->
  nth_error bns' j = nth_error bns j.
Proof.
  induction rest as [|[[layer k] d] rest IH]; intros i x y bns bns' j Hy Hj.
  - simpl in Hy. now injection Hy as <- <-.
  - cbn [CNNNet.layers_loop] in Hy. simpl in Hj.
    apply bind_ok in Hy. destruct Hy as ([u c] & Hu & Hy).
    rewrite (IH (S i) u y c bns' j Hy) by lia.
    unfold CNNNet.loop_body in Hu.
    apply bind_ok in Hu. destruct Hu as (p & _ & Hu).
    apply bind_ok in Hu. destruct Hu as (z & _ & Hu).
    apply bind_ok in Hu. destruct Hu as ([v c'] & Hv & Hu).
    apply bind_ok in Hu. destruct Hu as (w & _ & Hu).
    injection Hu as <- <-.
    eapply apply_bn_touches_one; eauto. lia.
Qed.

(** With two or more layers the last normalisation layer is never
    applied: a call leaves it as it was, in training mode too. *)
Lemma last_norm_layer_is_never_applied (self : CNNNet.t) (ids : tensor nat)
  (a f : tensor R) (self' : CNNNet.t) :
  CNNNet.user_representation self ids = Ok (a, f, self') ->
  2 <= length (CNNNet.cnn_layers self) ->
  nth_error (CNNNet.bn self') (length (CNNNet.cnn_layers self) - 1)
  = nth_error (CNNNet.bn self) (length (CNNNet.cnn_layers self) - 1).
Proof.
  unfold CNNNet.user_representation. intros Hr Hlen.
  apply bind_ok in Hr. destruct Hr as (e & _ & Hr).
  apply bind_ok in Hr. destruct Hr as ([x c] & Hx & Hr).
  apply bind_ok in Hr. destruct Hr as ([y c'] & Hy & Hr).
  apply bind_ok in Hr. destruct Hr as (u & _ & Hr).
  apply bind_ok in Hr. destruct Hr as ([a' f'] & _ & Hr).
  injection Hr as <- <- <-. cbn [CNNNet.with_bn CNNNet.bn].
  rewrite (layers_loop_touches_below self _ 0 x y c c' _ Hy).
  - unfold CNNNet.first_layer in Hx.
    apply bind_ok in Hx. destruct Hx as (k0 & _ & Hx).
    apply bind_ok in Hx. destruct Hx as (d0 & _ & Hx).
    apply bind_ok in Hx. destruct Hx as (p & _ & Hx).
    apply bind_ok in Hx. destruct Hx as (layer0 & _ & Hx).
    apply bind_ok in Hx. destruct Hx as (z & _ & Hx).
    apply bind_ok in Hx. destruct Hx as ([v c0] & Hv & Hx).
    apply bind_ok in Hx. destruct Hx as (w & _ & Hx).
    injection Hx as <- <-.
    eapply apply_bn_touches_one; eauto. lia.
  - right. rewrite !length_combine.
    destruct (CNNNet.cnn_layers self) as [|l0 ls]; simpl in *; lia.
Qed.

End Normalisation.

(** * The claims *)

Local Open Scope string_scope.
Local Open Scope nat_scope.

(** ** Construction *)

Lemma init_layers_length {A} (f : nat * (nat * nat) -> A) (ks ds : list nat) :
  length (map f (combine (seq 0 (length ks)) (combine ks ds)))
  = Nat.min (length ks) (length ds).
Proof.
  rewrite length_map, !length_combine, length_seq. lia.
Qed.

(** C8.  Constructing a [CNNNet] succeeds exactly when the nonlinearity
    is ['tanh'] or ['relu'], whatever the other arguments are, and
    fails with the [ValueError] of the source otherwise, as it does
    for ['sigmoid']: no other argument is looked at. *)
Theorem nonlinearity_is_the_only_validated_input {Sc : Scalar}
  (rng : nat -> list nat -> R) (num_items embedding_dim : nat)
  (kernel_width dilation : int_or_seq) (num_layers : nat)
  (nonlinearity : string)
  (residual_connections batch_norm sparse benchmark : bool) :
  ((nonlinearity = "tanh" \/ nonlinearity = "relu") <->
   exists net, CNNNet.init rng num_items embedding_dim kernel_width dilation
                 num_layers nonlinearity residual_connections batch_norm
                 sparse benchmark = Ok net) /\
  ((nonlinearity <> "tanh" /\ nonlinearity <> "relu") <->
   CNNNet.init rng num_items embedding_dim kernel_width dilation
     num_layers nonlinearity residual_connections batch_norm sparse benchmark
   = Err (ValueError "Nonlinearity must be one of (tanh, relu)")) /\
  CNNNet.init rng num_items embedding_dim kernel_width dilation
    num_layers "sigmoid" residual_connections batch_norm sparse benchmark
  = Err (ValueError "Nonlinearity must be one of (tanh, relu)").
Proof.
  unfold CNNNet.init.
  destruct (string_dec nonlinearity "tanh") as [Ht|Ht];
    [|destruct (string_dec nonlinearity "relu") as [Hr|Hr]]; cbn [bind].
  - split; [|split; [|reflexivity]].
    + split; [eauto | auto].
    + split; [intros [? _]; contradiction | discriminate].
  - split; [|split; [|reflexivity]].
    + split; [eauto | auto].
    + split; [intros [_ ?]; contradiction | discriminate].
  - split; [|split; [|reflexivity]].
    + split; [intros [?|?]; contradiction | intros [net Hnet]; discriminate].
    + split; [reflexivity | auto].
Qed.

(** C3 (as the code has it).  The constructor never compares the length
    of an explicit list with [num_layers]: an explicit list is used as
    it is, and the module gets one convolution per pair of
    [zip(kernel_width, dilation)].  The only failure of the constructor
    is the [ValueError] for the nonlinearity. *)
Theorem list_lengths_are_not_validated {Sc : Scalar}
  (rng : nat -> list nat -> R) (num_items embedding_dim : nat)
  (kernel_width dilation : int_or_seq) (num_layers : nat)
  (nonlinearity : string)
  (residual_connections batch_norm sparse benchmark : bool) :
  (forall l, _to_iterable (Seq l) num_layers = l) /\
  match CNNNet.init rng num_items embedding_dim kernel_width dilation
          num_layers nonlinearity residual_connections batch_norm
          sparse benchmark with
  | Ok net =>
      CNNNet.kernel_width net = _to_iterable kernel_width num_layers /\
      CNNNet.dilation net = _to_iterable dilation num_layers /\
      length (CNNNet.cnn_layers net)
      = Nat.min (length (CNNNet.kernel_width net)) (length (CNNNet.dilation net))
  | Err e =>
      e = ValueError "Nonlinearity must be one of (tanh, relu)" /\
      nonlinearity <> "tanh" /\ nonlinearity <> "relu"
  end.
Proof.
  split; [reflexivity|]. unfold CNNNet.init.
  destruct (string_dec nonlinearity "tanh") as [Ht|Ht];
    [|destruct (string_dec nonlinearity "relu") as [Hr|Hr]]; cbn [bind];
    cbn [CNNNet.kernel_width CNNNet.dilation CNNNet.cnn_layers].
  - repeat split. apply init_layers_length.
  - repeat split. apply init_layers_length.
  - auto.
Qed.

(** C3, the claim as stated fails: [kernel_width=[3, 5]] with
    [num_layers=3] constructs a module, with two layers, and a forward
    pass of it succeeds. *)
Lemma mismatched_list_is_accepted :
  match CNNNet.init (Sc:=binary64) demo_rng 3 1 (Seq [3; 5]) (Int 1) 3 "tanh"
          true true false true with
  | Ok net =>
      length (CNNNet.cnn_layers net) = 2 /\
      observe (user_representation (E:=binary64_elementary) (CausalConv net)
                 (of_list2 0 [[1; 2]])) <> None
  | Err _ => False
  end.
Proof.
  vm_compute. split; [reflexivity | discriminate].
Qed.

(** ** Shapes *)

(** C6 (as the code has it).  For a batch of [N] sequences of [L] items
    that the table knows, every variant, in every valid configuration,
    returns representations of shape [N; D; L] and a final
    representation of shape [N; D], where [D] is the embedding
    dimension; a single empty sequence ([N = 1], [L = 0]) is encoded
    when no normalisation layer is in training mode. *)
Theorem user_representation_shapes {Sc : Scalar} {E : Elementary Sc}
  (enc : encoder) (ids : tensor nat) (N L : nat) :
  encoder_wf enc -> encoder_valid enc ->
  shape ids = [N; L] ->
  (forall n l, n < N -> l < L -> data ids [n; l] < num_items enc) ->
  (N = 1 -> L = 0 -> encoder_quiet enc) ->
  exists a f enc',
    user_representation enc ids = Ok (a, f, enc') /\
    shape a = [N; embedding_dim enc; L] /\
    shape f = [N; embedding_dim enc].
Proof.
  intros Hwf Hv Hs Hr Hone. destruct enc as [m|m|m]; simpl in *.
  - destruct Hwf as (num & Hw). unfold num_items in Hr. simpl in Hr.
    rewrite Hw in Hr. simpl in Hr.
    destruct (PoolNet_user_representation_spec m ids Hw Hs Hr)
      as (a & f & -> & Ha & Hf & _).
    simpl. eauto 6.
  - destruct Hwf as ((num & Hw) & Hin & Hhid). unfold num_items in Hr.
    simpl in Hr. rewrite Hw in Hr. simpl in Hr.
    destruct (LSTMNet_user_representation_spec m ids Hw Hin Hs Hr)
      as (a & f & -> & Ha & Hf & _).
    rewrite Hhid in Ha, Hf. simpl. eauto 6.
  - pose proof Hwf as ((num & Hw) & _). unfold num_items in Hr.
    simpl in Hr. rewrite Hw in Hr. simpl in Hr.
    destruct (CNNNet_user_representation_shape_ready m ids Hwf Hv Hw Hs Hr)
      as (a & f & bns' & -> & Ha & Hf & _).
    + intros Hbn.
      destruct (Nat.eq_dec (N * (L + 1)) 1) as [Heq|Hne].
      * apply Nat.eq_mul_1 in Heq. destruct Heq as (HN & HL).
        destruct (Hone HN ltac:(lia)) as [Hoff|Heval]; [congruence|].
        apply Forall_forall. intros b Hb Htr.
        rewrite Forall_forall in Heval. rewrite (Heval b Hb) in Htr.
        discriminate.
      * apply Forall_forall. intros b _ _. exact Hne.
    + simpl. eauto 6.
Qed.

(** C6, the claim as stated fails: a fresh module with batch
    normalisation, which is in training mode, raises [ValueError] on a
    batch of one empty sequence, where its normalisation layer gets one
    value per channel. *)
Lemma single_empty_sequence_is_rejected :
  encoder_wf (CausalConv demo_net) /\ encoder_valid (CausalConv demo_net) /\
  shape (of_list2 0 [[]]) = [1; 0] /\
  exists msg,
    user_representation (E:=binary64_elementary) (CausalConv demo_net)
      (of_list2 0 [[]])
    = Err (ValueError msg).
Proof.
  split; [|split; [|split; [reflexivity|]]].
  - unfold encoder_wf, CNNNet_wf. split; [|split].
    + exists 3. reflexivity.
    + vm_compute. repeat constructor.
    + intros _. vm_compute. split; [reflexivity|]. repeat constructor.
  - split; [vm_compute; discriminate|]. vm_compute. repeat constructor.
  - eexists. vm_compute. reflexivity.
Qed.

(** ** Causality *)

Lemma padded_agree {Sc : Scalar} (e : Embedding.t) (ids1 ids2 : tensor nat)
  (N L t n d m : nat) :
  (forall n l, n < N -> l < L -> l < t -> data ids1 [n; l] = data ids2 [n; l]) ->
  n < N -> m <= t -> m <= L ->
  padded e ids1 n d m = padded e ids2 n d m.
Proof.
  intros Hids Hn Hm HL. destruct m as [|m]; [reflexivity|].
  unfold padded, embedded. rewrite Hids by lia. reflexivity.
Qed.

(** C1 (as the code has it).  For the pooling and the recurrent module,
    and for the convolutional module when batch normalisation is off or
    in evaluation mode: two batches that agree before position [t] give
    representations that agree at the steps [0..t], whatever the items
    from position [t] on are; the receptive field of a layer of kernel
    width 3 and dilation 1 is 3. *)
Theorem earlier_steps_ignore_later_items {Sc : Scalar} {E : Elementary Sc}
  (enc : encoder) (ids1 ids2 : tensor nat) (N L t : nat)
  (a1 f1 a2 f2 : tensor R) (e1 e2 : encoder) :
  encoder_wf enc -> encoder_quiet enc ->
  shape ids1 = [N; L] -> shape ids2 = [N; L] ->
  (forall n l, n < N -> l < L -> l < t -> data ids1 [n; l] = data ids2 [n; l]) ->
  user_representation enc ids1 = Ok (a1, f1, e1) ->
  user_representation enc ids2 = Ok (a2, f2, e2) ->
  shape a1 = shape a2 /\
  (forall n d t', n < N -> d < embedding_dim enc -> t' < L -> t' <= t ->
     data a1 [n; d; t'] = data a2 [n; d; t']) /\
  CNNNet.receptive_field 3 1 = 3%Z.
Proof.
  intros Hwf Hq Hs1 Hs2 Hids H1 H2.
  split; [|split; [|reflexivity]]; destruct enc as [m|m|m]; simpl in *.
  - destruct Hwf as (num & Hw).
    apply bind_ok in H1. destruct H1 as ([b1 g1] & Hb1 & H1).
    apply bind_ok in H2. destruct H2 as ([b2 g2] & Hb2 & H2).
    injection H1 as <- <- <-. injection H2 as <- <- <-.
    pose proof Hb1 as Hc1. pose proof Hb2 as Hc2.
    unfold PoolNet.user_representation in Hc1, Hc2.
    apply bind_ok in Hc1. destruct Hc1 as (x1 & Hx1 & _).
    apply bind_ok in Hc2. destruct Hc2 as (x2 & Hx2 & _).
    destruct (channel_embeddings_inv _ ids1 x1 Hw Hs1 Hx1) as (Hr1 & _).
    destruct (channel_embeddings_inv _ ids2 x2 Hw Hs2 Hx2) as (Hr2 & _).
    destruct (PoolNet_user_representation_spec m ids1 Hw Hs1 Hr1)
      as (a & f & Heq1 & Ha1 & _).
    destruct (PoolNet_user_representation_spec m ids2 Hw Hs2 Hr2)
      as (a' & f' & Heq2 & Ha2 & _).
    rewrite Heq1 in Hb1. rewrite Heq2 in Hb2.
    injection Hb1 as <- <-. injection Hb2 as <- <-. congruence.
  - destruct Hwf as ((num & Hw) & Hin & Hhid).
    apply bind_ok in H1. destruct H1 as ([b1 g1] & Hb1 & H1).
    apply bind_ok in H2. destruct H2 as ([b2 g2] & Hb2 & H2).
    injection H1 as <- <- <-. injection H2 as <- <- <-.
    pose proof Hb1 as Hc1. pose proof Hb2 as Hc2.
    unfold LSTMNet.user_representation in Hc1, Hc2.
    apply bind_ok in Hc1. destruct Hc1 as (x1 & Hx1 & _).
    apply bind_ok in Hc2. destruct Hc2 as (x2 & Hx2 & _).
    destruct (channel_embeddings_inv _ ids1 x1 Hw Hs1 Hx1) as (Hr1 & _).
    destruct (channel_embeddings_inv _ ids2 x2 Hw Hs2 Hx2) as (Hr2 & _).
    destruct (LSTMNet_user_representation_spec m ids1 Hw Hin Hs1 Hr1)
      as (a & f & Heq1 & Ha1 & _).
    destruct (LSTMNet_user_representation_spec m ids2 Hw Hin Hs2 Hr2)
      as (a' & f' & Heq2 & Ha2 & _).
    rewrite Heq1 in Hb1. rewrite Heq2 in Hb2.
    injection Hb1 as <- <-. injection Hb2 as <- <-. congruence.
  - apply bind_ok in H1. destruct H1 as ([[b1 g1] s1] & Hb1 & H1).
    apply bind_ok in H2. destruct H2 as ([[b2 g2] s2] & Hb2 & H2).
    injection H1 as <- <- <-. injection H2 as <- <- <-.
    destruct (CNNNet_user_representation_agree m ids1 ids2 b1 g1 b2 g2 s1 s2
                Hwf Hq Hs1 Hs2 Hids Hb1 Hb2) as (_ & _ & Ha1 & Ha2 & _).
    congruence.
  - destruct Hwf as (num & Hw).
    apply bind_ok in H1. destruct H1 as ([b1 g1] & Hb1 & H1).
    apply bind_ok in H2. destruct H2 as ([b2 g2] & Hb2 & H2).
    injection H1 as <- <- <-. injection H2 as <- <- <-.
    pose proof Hb1 as Hc1. pose proof Hb2 as Hc2.
    unfold PoolNet.user_representation in Hc1, Hc2.
    apply bind_ok in Hc1. destruct Hc1 as (x1 & Hx1 & _).
    apply bind_ok in Hc2. destruct Hc2 as (x2 & Hx2 & _).
    destruct (channel_embeddings_inv _ ids1 x1 Hw Hs1 Hx1) as (Hr1 & _).
    destruct (channel_embeddings_inv _ ids2 x2 Hw Hs2 Hx2) as (Hr2 & _).
    destruct (PoolNet_user_representation_spec m ids1 Hw Hs1 Hr1)
      as (a & f & Heq1 & _ & _ & Hd1 & _).
    destruct (PoolNet_user_representation_spec m ids2 Hw Hs2 Hr2)
      as (a' & f' & Heq2 & _ & _ & Hd2 & _).
    rewrite Heq1 in Hb1. rewrite Heq2 in Hb2.
    injection Hb1 as <- <-. injection Hb2 as <- <-.
    intros n d t' Hn Hd Ht' Hle. rewrite Hd1, Hd2 by assumption.
    unfold pool_value, pool_denominator.
    f_equal; [|f_equal]; apply csum_ext; intros k Hk;
      rewrite (padded_agree _ ids1 ids2 N L t n d k Hids) by lia; reflexivity.
  - destruct Hwf as ((num & Hw) & Hin & Hhid).
    apply bind_ok in H1. destruct H1 as ([b1 g1] & Hb1 & H1).
    apply bind_ok in H2. destruct H2 as ([b2 g2] & Hb2 & H2).
    injection H1 as <- <- <-. injection H2 as <- <- <-.
    pose proof Hb1 as Hc1. pose proof Hb2 as Hc2.
    unfold LSTMNet.user_representation in Hc1, Hc2.
    apply bind_ok in Hc1. destruct Hc1 as (x1 & Hx1 & _).
    apply bind_ok in Hc2. destruct Hc2 as (x2 & Hx2 & _).
    destruct (channel_embeddings_inv _ ids1 x1 Hw Hs1 Hx1) as (Hr1 & _).
    destruct (channel_embeddings_inv _ ids2 x2 Hw Hs2 Hx2) as (Hr2 & _).
    destruct (LSTMNet_user_representation_spec m ids1 Hw Hin Hs1 Hr1)
      as (a & f & Heq1 & _ & _ & Hd1 & _).
    destruct (LSTMNet_user_representation_spec m ids2 Hw Hin Hs2 Hr2)
      as (a' & f' & Heq2 & _ & _ & Hd2 & _).
    rewrite Heq1 in Hb1. rewrite Heq2 in Hb2.
    injection Hb1 as <- <-. injection Hb2 as <- <-.
    intros n d t' Hn Hd Ht' Hle. rewrite Hd1, Hd2 by assumption.
    unfold lstm_value. f_equal. f_equal.
    apply LSTM_run_ext. intros s Hs. unfold lstm_inputs.
    apply map_ext. intros j.
    apply (padded_agree _ ids1 ids2 N L t n j s Hids); lia.
  - apply bind_ok in H1. destruct H1 as ([[b1 g1] s1] & Hb1 & H1).
    apply bind_ok in H2. destruct H2 as ([[b2 g2] s2] & Hb2 & H2).
    injection H1 as <- <- <-. injection H2 as <- <- <-.
    destruct (CNNNet_user_representation_agree m ids1 ids2 b1 g1 b2 g2 s1 s2
                Hwf Hq Hs1 Hs2 Hids Hb1 Hb2) as (_ & _ & _ & _ & Hag).
    exact Hag.
Qed.

(** C1, the claim as stated fails: with batch normalisation in training
    mode the statistics are taken over all steps.  The two batches
    [[1, 1]] and [[1, 2]] differ at position 1 only, and the
    representation at step 0 differs. *)
Lemma batch_norm_breaks_causality :
  match demo_run 1 "relu" true [[1; 1]], demo_run 1 "relu" true [[1; 2]] with
  | Ok (a1, _, _), Ok (a2, _, _) => data a1 [0; 0; 0] <> data a2 [0; 0; 0]
  | _, _ => False
  end.
Proof.
  destruct (demo_run 1 "relu" true [[1; 1]]) as [[[a1 f1] e1]|] eqn:H1;
    [destruct (demo_run 1 "relu" true [[1; 2]]) as [[[a2 f2] e2]|] eqn:H2|].
  - apply (f_equal first_value) in H1, H2.
    change (first_value (Ok (a1, f1, e1))) with (Some (data a1 [0; 0; 0])) in H1.
    change (first_value (Ok (a2, f2, e2))) with (Some (data a2 [0; 0; 0])) in H2.
    remember (data a1 [0; 0; 0]) as v1 eqn:Hv1.
    remember (data a2 [0; 0; 0]) as v2 eqn:Hv2.
    clear Hv1 Hv2. vm_compute in H1, H2.
    injection H1 as <-. injection H2 as <-.
    intros Heq.
    apply (f_equal (fun v : float => PrimFloat.ltb v (-1.125)%float)) in Heq.
    vm_compute in Heq. discriminate.
  - apply (f_equal first_value) in H2. vm_compute in H2. discriminate.
  - apply (f_equal first_value) in H1. vm_compute in H1. discriminate.
Qed.

(** ** The module after a call *)

(** C7 (as the code has it).  A call of [user_representation] leaves
    every learned parameter and setting of the module as it was, and
    the same call on the module it leaves returns the same two
    representations; scoring reads the module after the call as it
    read the one before.  The module is left identical by the pooling
    and the recurrent variant, and by the convolutional one when batch
    normalisation is off or in evaluation mode. *)
Theorem forward_pass_frame {Sc : Scalar} {E : Elementary Sc}
  (enc : encoder) (ids : tensor nat) (a f : tensor R) (enc' : encoder) :
  user_representation enc ids = Ok (a, f, enc') ->
  same_learned enc enc' /\
  (exists enc'', user_representation enc' ids = Ok (a, f, enc'')) /\
  (forall reps targets, forward enc' reps targets = forward enc reps targets) /\
  (encoder_quiet enc -> enc' = enc).
Proof.
  intros Hr. destruct enc as [m|m|m]; simpl in Hr.
  - apply bind_ok in Hr. destruct Hr as ([a' f'] & Ha & Hr).
    injection Hr as <- <- <-. simpl. rewrite Ha. simpl. eauto 6.
  - apply bind_ok in Hr. destruct Hr as ([a' f'] & Ha & Hr).
    injection Hr as <- <- <-. simpl. rewrite Ha. simpl. eauto 6.
  - apply bind_ok in Hr. destruct Hr as ([[a' f'] m'] & Ha & Hr).
    injection Hr as <- <- <-.
    destruct (CNNNet_user_representation_frame m ids a' f' m' Ha)
      as (bns1 & -> & Hrel & Hoff).
    destruct (CNNNet_user_representation_again m ids a' f' _ Ha) as (s2 & Hs2).
    split; [|split; [|split]].
    + simpl. exists bns1. split; [reflexivity|].
      now apply Forall2_bn_rel_same_params.
    + simpl. rewrite Hs2. simpl. eauto.
    + reflexivity.
    + simpl. intros [Hq|Hq].
      * rewrite (Hoff Hq). now rewrite with_bn_same.
      * rewrite (Forall2_bn_rel_eval _ _ Hrel Hq). now rewrite with_bn_same.
Qed.

(** C7, the claim as stated fails: a call on a fresh module with batch
    normalisation, which is in training mode, leaves another module
    (the batch counter of its normalisation layer went from 0 to 1). *)
Lemma training_call_changes_module :
  match user_representation (E:=binary64_elementary) (CausalConv demo_net)
          (of_list2 0 [[1; 2]]) with
  | Ok (_, _, enc') => enc' <> CausalConv demo_net
  | Err _ => False
  end.
Proof.
  destruct (user_representation (E:=binary64_elementary) (CausalConv demo_net)
              (of_list2 0 [[1; 2]])) as [[[a f] enc']|] eqn:Hr.
  - apply (f_equal batches_tracked) in Hr. vm_compute in Hr.
    intros ->. vm_compute in Hr. discriminate.
  - apply (f_equal batches_tracked) in Hr. vm_compute in Hr. discriminate.
Qed.

(** ** Batch normalisation layers *)

(** C5, the code at a module of two layers in training mode: after one
    call the first normalisation layer has seen two batches and the
    second none.  The loop counts from 0 at the second convolution, so
    convolution [i >= 1] is normalised by layer [i - 1]. *)
Lemma second_layer_uses_first_norm :
  batches_tracked (demo_run 2 "tanh" true [[1; 2; 1]]) = Some [2; 0].
Proof. vm_compute. reflexivity. Qed.

(** ** Scores *)

(** C2, the code at one sequence of two targets (items 1 and 0) with
    the representations [1, 0] at both steps: the result has the shape
    [1; 2; 2], every bias added to every dot product, and not the
    shape [1; 2] of the docstring. *)
Lemma scores_of_two_steps :
  scores (PoolNet.forward spec_scorer (exact_tensor3 [[[1; 1]; [0; 0]]]%Q)
            (of_list2 0 [[1; 0]]))
  = Some ([1; 2; 2], [5 # 2; 1 # 2; 2; 0]%Q).
Proof. vm_compute. reflexivity. Qed.

(** The scoring example of the spec, one sequence of one target, comes
    out as the spec has it. *)
Lemma scores_of_one_step :
  scores (PoolNet.forward spec_scorer (exact_tensor3 [[[1]; [0]]]%Q)
            (of_list2 0 [[1]]))
  = Some ([1; 1], [5 # 2]%Q).
Proof. vm_compute. reflexivity. Qed.

(** ** Pooling *)

Lemma csum_shift {Sc : Scalar} (g : nat -> R) (t : nat) :
  csum (fun m => match m with 0 => zero | S m' => g m' end) t
  = fold_left add (map g (seq 0 t)) zero.
Proof.
  induction t as [|t IH]; [reflexivity|].
  rewrite seq_S, map_app, fold_left_app. simpl. now rewrite IH.
Qed.

Lemma pool_value_as_sums {Sc : Scalar} (e : Embedding.t) (ids : tensor nat)
  (n d t : nat) :
  neb zero zero = false ->
  pool_value e ids n d t
  = div (prefix_sum e ids n d t) (add (nonzero_count e ids n d t) one).
Proof.
  intros Hz. unfold pool_value, pool_denominator, prefix_sum, nonzero_count.
  f_equal; [|f_equal].
  - apply csum_shift.
  - rewrite <- csum_shift. apply csum_ext. intros [|m] _; [|reflexivity].
    unfold padded, indicator. now rewrite Hz.
Qed.

Lemma nonzero_count_nonpadding {Sc : Scalar} (e : Embedding.t)
  (ids : tensor nat) (n d t : nat) :
  (forall m, m < t ->
     neb (embedded e ids n d m) zero = negb (data ids [n; m] =? PADDING_IDX)) ->
  nonzero_count e ids n d t = nonpadding_count ids n t.
Proof.
  intros Hnz. unfold nonzero_count, nonpadding_count. f_equal.
  apply map_ext_in. intros m Hm. apply in_seq in Hm.
  unfold indicator. rewrite Hnz by lia.
  now destruct (data ids [n; m] =? PADDING_IDX).
Qed.

(** C4 (as the code has it).  The representation of step [t] is the sum
    of the embeddings of the first [t] items over 1 plus the number of
    those items whose embedding is not 0 in the channel at hand.  That
    number is the number of non-padding items when an item's embedding
    is 0 exactly for padding; the example of the spec comes out as
    [0, 1, 1] and 5/3. *)
Theorem pooling_divides_by_nonzero_count {Sc : Scalar}
  (self : PoolNet.t) (ids : tensor nat) (num dim N L : nat) :
  neb zero zero = false ->
  shape (Embedding.weight (PoolNet.item_embeddings self)) = [num; dim] ->
  shape ids = [N; L] ->
  (forall n l, n < N -> l < L -> data ids [n; l] < num) ->
  exists a f,
    PoolNet.user_representation self ids = Ok (a, f) /\
    (forall n d t, n < N -> d < dim -> t < L ->
       data a [n; d; t]
       = div (prefix_sum (PoolNet.item_embeddings self) ids n d t)
             (add (nonzero_count (PoolNet.item_embeddings self) ids n d t) one)) /\
    (forall n d, n < N -> d < dim ->
       data f [n; d]
       = div (prefix_sum (PoolNet.item_embeddings self) ids n d L)
             (add (nonzero_count (PoolNet.item_embeddings self) ids n d L) one)) /\
    ((forall n l d, n < N -> l < L -> d < dim ->
        neb (embedded (PoolNet.item_embeddings self) ids n d l) zero
        = negb (data ids [n; l] =? PADDING_IDX)) ->
     (forall n d t, n < N -> d < dim -> t < L ->
        data a [n; d; t]
        = claimed_pool_value (PoolNet.item_embeddings self) ids n d t) /\
     (forall n d, n < N -> d < dim ->
        data f [n; d]
        = claimed_pool_value (PoolNet.item_embeddings self) ids n d L)) /\
    pooled (PoolNet.user_representation spec_pool (of_list2 0 [[5; 0; 7]]))
    = Some ([[[0; 1; 1]]], [[5 # 3]])%Q.
Proof.
  intros Hz Hw Hs Hr.
  destruct (PoolNet_user_representation_spec self ids Hw Hs Hr)
    as (a & f & Heq & _ & _ & Ha & Hf).
  exists a, f. split; [assumption|].
  assert (Ha' : forall n d t, n < N -> d < dim -> t < L ->
            data a [n; d; t]
            = div (prefix_sum (PoolNet.item_embeddings self) ids n d t)
                  (add (nonzero_count (PoolNet.item_embeddings self) ids n d t) one)).
  { intros n d t Hn Hd Ht. rewrite Ha by assumption.
    now apply pool_value_as_sums. }
  assert (Hf' : forall n d, n < N -> d < dim ->
            data f [n; d]
            = div (prefix_sum (PoolNet.item_embeddings self) ids n d L)
                  (add (nonzero_count (PoolNet.item_embeddings self) ids n d L) one)).
  { intros n d Hn Hd. rewrite Hf by assumption. now apply pool_value_as_sums. }
  split; [assumption|]. split; [assumption|]. split.
  - intros Hnz. split.
    + intros n d t Hn Hd Ht. rewrite Ha' by assumption.
      unfold claimed_pool_value. rewrite nonzero_count_nonpadding; [reflexivity|].
      intros m Hm. apply Hnz; lia.
    + intros n d Hn Hd. rewrite Hf' by assumption.
      unfold claimed_pool_value. rewrite nonzero_count_nonpadding; [reflexivity|].
      intros m Hm. apply Hnz; lia.
  - vm_compute. reflexivity.
Qed.

(** C4, the claim as stated fails: item 1 is a real item whose
    embedding is 0; after the items [1, 2] the module has 3/2, the sum
    3 over one counted item plus 1, and not 3/3. *)
Lemma zero_embedding_is_not_counted :
  match PoolNet.user_representation zero_item_pool (of_list2 0 [[1; 2]]) with
  | Ok (a, f) =>
      data f [0; 0]
      <> claimed_pool_value (PoolNet.item_embeddings zero_item_pool)
           (of_list2 0 [[1; 2]]) 0 0 2
  | Err _ => False
  end.
Proof.
  destruct (PoolNet.user_representation zero_item_pool (of_list2 0 [[1; 2]]))
    as [[a f]|] eqn:Hr.
  - apply (f_equal final_value) in Hr.
    change (final_value (Ok (a, f))) with (Some (this (data f [0; 0]))) in Hr.
    intros Heq. rewrite Heq in Hr. vm_compute in Hr. discriminate.
  - apply (f_equal final_value) in Hr. vm_compute in Hr. discriminate.
Qed.

Lemma csum_zero {Sc : Scalar} (f : nat -> R) (t : nat) :
  add zero zero = zero -> (forall m, m <= t -> f m = zero) -> csum f t = zero.
Proof.
  intros Hz. induction t as [|t IH]; simpl; intros Hf.
  - apply Hf; lia.
  - rewrite IH, (Hf (S t)) by (auto; intros; apply Hf; lia). exact Hz.
Qed.

Lemma count_nonnegative {Sc : Scalar} (e : Embedding.t) (ids : tensor nat)
  (n d t : nat) :
  counting_arithmetic ->
  leb zero (csum (fun m => indicator (padded e ids n d m)) t) = true.
Proof.
  intros Hc. induction t as [|t IH]; simpl.
  - unfold indicator. rewrite (zero_is_zero Hc). apply (count_start Hc).
  - unfold indicator at 2. destruct (neb _ zero).
    + now apply (count_step Hc).
    + now apply (count_keep Hc).
Qed.

Lemma denominator_at_least_one {Sc : Scalar} (e : Embedding.t)
  (ids : tensor nat) (n d t : nat) :
  counting_arithmetic -> leb one (pool_denominator e ids n d t) = true.
Proof.
  intros Hc. unfold pool_denominator.
  apply (count_plus_one Hc), count_nonnegative, Hc.
Qed.

Lemma pool_value_padding_row {Sc : Scalar} (e : Embedding.t) (ids : tensor nat)
  (dim L n d t : nat) :
  counting_arithmetic ->
  (forall d, d < dim -> data (Embedding.weight e) [PADDING_IDX; d] = zero) ->
  (forall l, l < L -> data ids [n; l] = PADDING_IDX) ->
  d < dim -> t <= L ->
  pool_value e ids n d t = zero.
Proof.
  intros Hc Hrow Hpad Hd Ht.
  assert (Hp : forall m, m <= t -> padded e ids n d m = zero).
  { intros [|m] Hm; [reflexivity|]. unfold padded, embedded.
    rewrite Hpad by lia. now apply Hrow. }
  pose proof (zero_plus_zero Hc) as Hzz.
  unfold pool_value, pool_denominator.
  rewrite (csum_zero (padded e ids n d) t Hzz Hp).
  rewrite csum_zero; [apply (zero_over_one Hc) | exact Hzz |].
  intros m Hm. unfold indicator. rewrite Hp by assumption.
  now rewrite (zero_is_zero Hc).
Qed.

(** C9.  Every value the pooling module returns is a quotient whose
    denominator, the count plus 1, is at least 1; and for every
    sequence of the batch that is padding only, whatever the other
    sequences are, every representation and the final representation
    are zero. *)
Theorem all_padding_pools_to_zero {Sc : Scalar}
  (self : PoolNet.t) (ids : tensor nat) (num dim N L : nat) :
  counting_arithmetic ->
  shape (Embedding.weight (PoolNet.item_embeddings self)) = [num; dim] ->
  shape ids = [N; L] ->
  (forall n l, n < N -> l < L -> data ids [n; l] < num) ->
  (forall d, d < dim ->
     data (Embedding.weight (PoolNet.item_embeddings self)) [PADDING_IDX; d] = zero) ->
  exists a f,
    PoolNet.user_representation self ids = Ok (a, f) /\
    (forall n d t, n < N -> d < dim -> t < L ->
       data a [n; d; t] = pool_value (PoolNet.item_embeddings self) ids n d t /\
       leb one (pool_denominator (PoolNet.item_embeddings self) ids n d t) = true) /\
    (forall n d, n < N -> d < dim ->
       data f [n; d] = pool_value (PoolNet.item_embeddings self) ids n d L /\
       leb one (pool_denominator (PoolNet.item_embeddings self) ids n d L) = true) /\
    (forall n, n < N ->
       (forall l, l < L -> data ids [n; l] = PADDING_IDX) ->
       (forall d t, d < dim -> t < L -> data a [n; d; t] = zero) /\
       (forall d, d < dim -> data f [n; d] = zero)).
Proof.
  intros Hc Hw Hs Hr Hrow.
  destruct (PoolNet_user_representation_spec self ids Hw Hs Hr)
    as (a & f & Heq & _ & _ & Ha & Hf).
  exists a, f. split; [assumption|]. split; [|split].
  - intros n d t Hn Hd Ht. split; [auto | now apply denominator_at_least_one].
  - intros n d Hn Hd. split; [auto | now apply denominator_at_least_one].
  - intros n Hn Hpad. split.
    + intros d t Hd Ht. rewrite Ha by assumption.
      apply (pool_value_padding_row _ ids dim L); auto; lia.
    + intros d Hd. rewrite Hf by assumption.
      apply (pool_value_padding_row _ ids dim L); auto.
Qed.


(** ** The theorems at concrete modules *)

Lemma exact_counting : @counting_arithmetic exact.
Proof.
  constructor.
  - reflexivity.
  - apply Qc_is_canon. reflexivity.
  - apply Qc_is_canon. reflexivity.
  - reflexivity.
  - intros x Hx. change (Qle_bool 0 (x + 0)%Qc = true).
    now rewrite Qcplus_0_r.
  - intros x Hx. change (Qle_bool 0 x = true) in Hx.
    change (Qle_bool 0 (x + 1)%Qc = true).
    apply Qle_bool_iff in Hx. apply Qle_bool_iff.
    change (0 <= x)%Qc in Hx. change (0 <= x + 1)%Qc.
    replace 0%Qc with (0 + 0)%Qc by reflexivity.
    apply Qcplus_le_compat; [assumption | easy].
  - intros x Hx. change (Qle_bool 0 x = true) in Hx.
    change (Qle_bool 1 (x + 1)%Qc = true).
    apply Qle_bool_iff in Hx. apply Qle_bool_iff.
    change (0 <= x)%Qc in Hx. change (1 <= x + 1)%Qc.
    replace 1%Qc with (0 + 1)%Qc at 1 by (now apply Qc_is_canon).
    apply Qcplus_le_compat; [assumption | apply Qcle_refl].
Qed.

Lemma demo_net_wf : CNNNet_wf demo_net.
Proof.
  unfold CNNNet_wf. split; [|split].
  - exists 3. reflexivity.
  - vm_compute. repeat constructor.
  - intros _. vm_compute. split; [reflexivity|]. repeat constructor.
Qed.

Lemma demo_net_eval_wf : CNNNet_wf demo_net_eval.
Proof.
  unfold CNNNet_wf. split; [|split].
  - exists 3. reflexivity.
  - vm_compute. repeat constructor.
  - intros _. vm_compute. split; [reflexivity|]. repeat constructor.
Qed.

Lemma demo_net_valid : CNNNet_valid demo_net.
Proof.
  split; [vm_compute; discriminate|]. vm_compute. repeat constructor.
Qed.

Lemma demo_net_eval_quiet : CNNNet_quiet demo_net_eval.
Proof. right. vm_compute. repeat constructor. Qed.

Lemma demo_net_eval_valid : CNNNet_valid demo_net_eval.
Proof.
  split; [vm_compute; discriminate|]. vm_compute. repeat constructor.
Qed.

(** [user_representation_shapes] at the one-layer module in evaluation
    mode and a batch of one empty sequence. *)
Lemma user_representation_shapes_witness :
  encoder_wf (CausalConv demo_net_eval) /\
  encoder_valid (CausalConv demo_net_eval) /\
  encoder_quiet (CausalConv demo_net_eval) /\
  exists a f enc',
    user_representation (E:=binary64_elementary) (CausalConv demo_net_eval)
      (of_list2 0 [[]]) = Ok (a, f, enc') /\
    shape a = [1; embedding_dim (CausalConv demo_net_eval); 0] /\
    shape f = [1; embedding_dim (CausalConv demo_net_eval)].
Proof.
  split; [exact demo_net_eval_wf|]. split; [exact demo_net_eval_valid|].
  split; [exact demo_net_eval_quiet|].
  apply (user_representation_shapes (E:=binary64_elementary)
           (CausalConv demo_net_eval) (of_list2 0 [[]]) 1 0).
  - exact demo_net_eval_wf.
  - exact demo_net_eval_valid.
  - reflexivity.
  - intros n l Hn Hl. lia.
  - intros _ _. exact demo_net_eval_quiet.
Defined.

(** [earlier_steps_ignore_later_items] at the one-layer module in
    evaluation mode and the batches [[1, 1]] and [[1, 2]], which agree
    before position 1. *)
Lemma earlier_steps_ignore_later_items_witness :
  match user_representation (E:=binary64_elementary) (CausalConv demo_net_eval)
          (of_list2 0 [[1; 1]]),
        user_representation (E:=binary64_elementary) (CausalConv demo_net_eval)
          (of_list2 0 [[1; 2]]) with
  | Ok (a1, _, _), Ok (a2, _, _) =>
      shape a1 = shape a2 /\
      (forall n d t', n < 1 -> d < embedding_dim (CausalConv demo_net_eval) ->
         t' < 2 -> t' <= 1 -> data a1 [n; d; t'] = data a2 [n; d; t']) /\
      CNNNet.receptive_field 3 1 = 3%Z
  | _, _ => False
  end.
Proof.
  destruct (user_representation (E:=binary64_elementary) (CausalConv demo_net_eval)
              (of_list2 0 [[1; 1]])) as [[[a1 f1] e1]|] eqn:H1;
    [destruct (user_representation (E:=binary64_elementary)
                 (CausalConv demo_net_eval) (of_list2 0 [[1; 2]]))
       as [[[a2 f2] e2]|] eqn:H2|].
  - apply (earlier_steps_ignore_later_items (E:=binary64_elementary)
             (CausalConv demo_net_eval) (of_list2 0 [[1; 1]]) (of_list2 0 [[1; 2]])
             1 2 1 a1 f1 a2 f2 e1 e2).
    + exact demo_net_eval_wf.
    + exact demo_net_eval_quiet.
    + reflexivity.
    + reflexivity.
    + intros n l Hn Hl Ht.
      destruct n as [|n]; [|lia]. destruct l as [|l]; [|lia]. reflexivity.
    + exact H1.
    + exact H2.
  - apply (f_equal first_value) in H2. vm_compute in H2. discriminate.
  - apply (f_equal first_value) in H1. vm_compute in H1. discriminate.
Defined.

(** [forward_pass_frame] at a call on the fresh one-layer module. *)
Lemma forward_pass_frame_witness :
  match user_representation (E:=binary64_elementary) (CausalConv demo_net)
          (of_list2 0 [[1; 2]]) with
  | Ok (a, f, enc') =>
      same_learned (CausalConv demo_net) enc' /\
      (exists enc'', user_representation (E:=binary64_elementary) enc'
                       (of_list2 0 [[1; 2]]) = Ok (a, f, enc'')) /\
      (forall reps targets,
         forward enc' reps targets = forward (CausalConv demo_net) reps targets) /\
      (encoder_quiet (CausalConv demo_net) -> enc' = CausalConv demo_net)
  | Err _ => False
  end.
Proof.
  destruct (user_representation (E:=binary64_elementary) (CausalConv demo_net)
              (of_list2 0 [[1; 2]])) as [[[a f] enc']|] eqn:Hr.
  - exact (forward_pass_frame (E:=binary64_elementary)
             (CausalConv demo_net) (of_list2 0 [[1; 2]]) a f enc' Hr).
  - apply (f_equal first_value) in Hr. vm_compute in Hr. discriminate.
Defined.

(** [pooling_divides_by_nonzero_count] at the example of the spec. *)
Lemma pooling_divides_by_nonzero_count_witness :
  neb (Scalar:=exact) zero zero = false /\
  exists a f,
    PoolNet.user_representation spec_pool (of_list2 0 [[5; 0; 7]]) = Ok (a, f) /\
    data a [0; 0; 2]
    = div (prefix_sum (PoolNet.item_embeddings spec_pool)
             (of_list2 0 [[5; 0; 7]]) 0 0 2)
          (add (nonzero_count (PoolNet.item_embeddings spec_pool)
                  (of_list2 0 [[5; 0; 7]]) 0 0 2) one).
Proof.
  split; [reflexivity|].
  destruct (pooling_divides_by_nonzero_count (Sc:=exact) spec_pool
              (of_list2 0 [[5; 0; 7]]) 8 1 1 3)
    as (a & f & Hr & Ha & _).
  - reflexivity.
  - reflexivity.
  - reflexivity.
  - intros n l Hn Hl. destruct n as [|n]; [|lia].
    destruct l as [|[|[|l]]]; [| | |lia]; vm_compute; lia.
  - exists a, f. split; [exact Hr|]. apply Ha; lia.
Defined.

(** [all_padding_pools_to_zero] at the module of the spec's example and
    a batch of two sequences, the first of them padding only. *)
Lemma all_padding_pools_to_zero_witness :
  @counting_arithmetic exact /\
  exists a f,
    PoolNet.user_representation spec_pool (of_list2 0 [[0; 0]; [5; 7]])
    = Ok (a, f) /\
    data a [0; 0; 0] = zero /\ data a [0; 0; 1] = zero /\ data f [0; 0] = zero /\
    leb one (pool_denominator (PoolNet.item_embeddings spec_pool)
               (of_list2 0 [[0; 0]; [5; 7]]) 1 0 2) = true.
Proof.
  split; [exact exact_counting|].
  destruct (all_padding_pools_to_zero (Sc:=exact) spec_pool
              (of_list2 0 [[0; 0]; [5; 7]]) 8 1 2 2)
    as (a & f & Hr & _ & Hf & Hpad).
  - exact exact_counting.
  - reflexivity.
  - reflexivity.
  - intros n l Hn Hl. destruct n as [|[|n]]; [| |lia];
      (destruct l as [|[|l]]; [| |lia]; vm_compute; lia).
  - intros d Hd. destruct d as [|d]; [|lia]. apply Qc_is_canon. reflexivity.
  - destruct (Hpad 0) as (Ha0 & Hf0); [lia| |].
    { intros l Hl. destruct l as [|[|l]]; [| |lia]; reflexivity. }
    exists a, f. split; [exact Hr|].
    split; [apply Ha0; lia|]. split; [apply Ha0; lia|].
    split; [apply Hf0; lia|]. apply Hf; lia.
Defined.

(** * Further properties of the code *)

(** ** Inputs the modules reject *)

Section Rejected.
Context {Sc : Scalar} {E : Elementary Sc}.

Lemma Embedding_forward_unknown (e : Embedding.t) (ids : tensor nat)
  (num dim : nat) (idx : list nat) :
  shape (Embedding.weight e) = [num; dim] ->
  valid (shape ids) idx -> num <= data ids idx ->
  Embedding.forward e ids = Err IndexError.
Proof.
  intros Hw Hv Hge. unfold Embedding.forward. rewrite Hw.
  destruct (forallb _ _) eqn:Hall; [|reflexivity].
  rewrite forallb_forall in Hall.
  apply indices_valid in Hv. apply Hall, Nat.ltb_lt in Hv. lia.
Qed.

Lemma Embedding_forward_known (e : Embedding.t) (ids : tensor nat)
  (num dim : nat) :
  shape (Embedding.weight e) = [num; dim] ->
  (forall idx, valid (shape ids) idx -> data ids idx < num) ->
  exists x, Embedding.forward e ids = Ok x /\ shape x = (shape ids ++ [dim])%list.
Proof.
  intros Hw Hr. unfold Embedding.forward. rewrite Hw.
  replace (forallb _ _) with true.
  - eexists; split; reflexivity.
  - symmetry. apply forallb_forall. intros idx Hin.
    apply Nat.ltb_lt, Hr, indices_valid, Hin.
Qed.

Lemma channel_embeddings_unknown (e : Embedding.t) (ids : tensor nat)
  (num dim : nat) (idx : list nat) :
  shape (Embedding.weight e) = [num; dim] ->
  valid (shape ids) idx -> num <= data ids idx ->
  channel_embeddings e ids = Err IndexError.
Proof.
  intros Hw Hv Hge. unfold channel_embeddings.
  now rewrite (Embedding_forward_unknown e ids num dim idx Hw Hv Hge).
Qed.

Lemma channel_embeddings_rank (e : Embedding.t) (ids : tensor nat)
  (num dim : nat) :
  shape (Embedding.weight e) = [num; dim] ->
  (forall idx, valid (shape ids) idx -> data ids idx < num) ->
  length (shape ids) <> 2 ->
  channel_embeddings e ids = Err RuntimeError.
Proof.
  intros Hw Hr Hrank. unfold channel_embeddings.
  destruct (Embedding_forward_known e ids num dim Hw Hr) as (x & -> & Hx).
  cbn [bind]. unfold permute, is_perm. rewrite Hx, length_app. cbn [length].
  destruct (Nat.eqb_spec 3 (length (shape ids) + 1)) as [Heq|_]; [lia|].
  reflexivity.
Qed.

(** X1.  An item id that is not a row of the embedding table makes
    [user_representation] of every variant raise [IndexError], whatever
    the shape of the batch and the other ids are. *)
Theorem unknown_item_raises_index_error
  (enc : encoder) (ids : tensor nat) (num dim : nat) (idx : list nat) :
  shape (Embedding.weight (item_embeddings enc)) = [num; dim] ->
  valid (shape ids) idx -> num <= data ids idx ->
  user_representation enc ids = Err IndexError.
Proof.
  intros Hw Hv Hge.
  destruct enc as [m|m|m]; cbn [user_representation item_embeddings] in *;
    [unfold PoolNet.user_representation
    |unfold LSTMNet.user_representation
    |unfold CNNNet.user_representation];
    now rewrite (channel_embeddings_unknown _ ids num dim idx Hw Hv Hge).
Qed.

(** X2.  A target id that is not a row of the embedding table makes
    [forward] of every variant raise [IndexError], whatever the
    representations are. *)
Theorem unknown_target_raises_index_error
  (enc : encoder) (reps : tensor R) (targets : tensor nat)
  (num dim : nat) (idx : list nat) :
  shape (Embedding.weight (item_embeddings enc)) = [num; dim] ->
  valid (shape targets) idx -> num <= data targets idx ->
  forward enc reps targets = Err IndexError.
Proof.
  intros Hw Hv Hge.
  destruct enc as [m|m|m]; cbn [forward item_embeddings] in *;
    [unfold PoolNet.forward|unfold LSTMNet.forward|unfold CNNNet.forward];
    unfold target_scores;
    now rewrite (Embedding_forward_unknown _ targets num dim idx Hw Hv Hge).
Qed.

(** X3.  A batch of known items that is not two-dimensional (a single
    sequence of shape [L], say) makes [user_representation] of every
    variant raise [RuntimeError]: the embeddings cannot be permuted
    with [(0, 2, 1)]. *)
Theorem batch_must_be_two_dimensional
  (enc : encoder) (ids : tensor nat) (num dim : nat) :
  shape (Embedding.weight (item_embeddings enc)) = [num; dim] ->
  (forall idx, valid (shape ids) idx -> data ids idx < num) ->
  length (shape ids) <> 2 ->
  user_representation enc ids = Err RuntimeError.
Proof.
  intros Hw Hr Hrank.
  destruct enc as [m|m|m]; cbn [user_representation item_embeddings] in *;
    [unfold PoolNet.user_representation
    |unfold LSTMNet.user_representation
    |unfold CNNNet.user_representation];
    now rewrite (channel_embeddings_rank _ ids num dim Hw Hr Hrank).
Qed.

End Rejected.

(** ** Modules as the constructors make them *)

Section Constructed.
Context {Sc : Scalar} {E : Elementary Sc}.

Lemma combine_repeat (k d n : nat) :
  combine (repeat k n) (repeat d n) = repeat (k, d) n.
Proof. induction n as [|n IH]; simpl; [reflexivity | now rewrite IH]. Qed.

Lemma Forall2_Forall_repeat {A B} (P : A -> B -> Prop) (l : list A) (b : B) n :
  Forall2 P l (repeat b n) -> length l = n /\ Forall (fun a => P a b) l.
Proof.
  revert n. induction l as [|a l IH]; intros [|n] H; inversion H; subst.
  - split; [reflexivity | constructor].
  - destruct (IH n) as (Hlen & Hall); [assumption|].
    split; [simpl; congruence | constructor; assumption].
Qed.

Lemma CNNNet_init_ok (rng : nat -> list nat -> R)
  (num_items embedding_dim : nat) (kernel_width dilation : int_or_seq)
  (num_layers : nat) (nonlinearity : string)
  (residual_connections batch_norm sparse benchmark : bool) :
  nonlinearity = "tanh" \/ nonlinearity = "relu" ->
  exists net,
    CNNNet.init rng num_items embedding_dim kernel_width dilation num_layers
      nonlinearity residual_connections batch_norm sparse benchmark = Ok net /\
    CNNNet.embedding_dim net = embedding_dim /\
    CNNNet.kernel_width net = _to_iterable kernel_width num_layers /\
    CNNNet.dilation net = _to_iterable dilation num_layers /\
    CNNNet.batch_norm net = batch_norm /\
    CNNNet.residual_connections net = residual_connections /\
    shape (Embedding.weight (CNNNet.item_embeddings net))
    = [num_items; embedding_dim] /\
    shape (Embedding.weight (CNNNet.item_biases net)) = [num_items; 1] /\
    CNNNet.bn net
    = (if batch_norm
       then map (fun _ => BatchNorm2d.init embedding_dim)
                (seq 0 (length (CNNNet.cnn_layers net)))
       else []).
Proof.
  intros Hnl. unfold CNNNet.init.
  destruct (string_dec nonlinearity "tanh") as [Ht|Ht];
    [|destruct (string_dec nonlinearity "relu") as [Hr|Hr]]; cbn [bind].
  - eexists; split; [reflexivity|]. repeat split.
  - eexists; split; [reflexivity|]. repeat split.
  - destruct Hnl; contradiction.
Qed.

(** X4.  With an int for [kernel_width] and for [dilation], the
    constructor repeats them: the module has exactly [num_layers]
    convolutions, each over [embedding_dim] channels with kernel
    [(kernel_width, 1)] and dilation [(dilation, 1)], and with
    [batch_norm] as many fresh normalisation layers, in training mode
    and with no batch seen. *)
Theorem int_arguments_are_repeated (rng : nat -> list nat -> R)
  (num_items embedding_dim k d num_layers : nat) (nonlinearity : string)
  (residual_connections batch_norm sparse benchmark : bool) :
  nonlinearity = "tanh" \/ nonlinearity = "relu" ->
  exists net,
    CNNNet.init rng num_items embedding_dim (Int k) (Int d) num_layers
      nonlinearity residual_connections batch_norm sparse benchmark = Ok net /\
    CNNNet.kernel_width net = repeat k num_layers /\
    CNNNet.dilation net = repeat d num_layers /\
    length (CNNNet.cnn_layers net) = num_layers /\
    Forall (fun c => Conv2d.in_channels c = embedding_dim /\
                     Conv2d.out_channels c = embedding_dim /\
                     Conv2d.kernel_size c = (k, 1) /\
                     Conv2d.dilation c = (d, 1)) (CNNNet.cnn_layers net) /\
    length (CNNNet.bn net) = (if batch_norm then num_layers else 0) /\
    Forall (fun b => BatchNorm2d.num_features b = embedding_dim /\
                     BatchNorm2d.training b = true /\
                     BatchNorm2d.num_batches_tracked b = 0) (CNNNet.bn net).
Proof.
  intros Hnl.
  destruct (CNNNet_init_ok rng num_items embedding_dim (Int k) (Int d)
              num_layers nonlinearity residual_connections batch_norm
              sparse benchmark Hnl)
    as (net & Hnet & HD & Hk & Hd & _ & _ & _ & _ & Hbn).
  exists net. split; [assumption|].
  pose proof (CNNNet_init_wf _ _ _ _ _ _ _ _ _ _ _ _ Hnet) as (_ & Hl & _).
  rewrite Hk, Hd, HD in Hl. cbn [_to_iterable] in Hl, Hk, Hd.
  rewrite combine_repeat in Hl.
  apply Forall2_Forall_repeat in Hl. destruct Hl as (Hlen & Hall).
  split; [assumption|]. split; [assumption|]. split; [assumption|].
  split; [exact Hall|].
  rewrite Hbn. destruct batch_norm.
  - rewrite length_map, length_seq. split; [assumption|].
    apply Forall_forall. intros b Hb. apply in_map_iff in Hb.
    destruct Hb as (i & <- & _). repeat split.
  - split; [reflexivity | constructor].
Qed.

(** X5.  The constructor accepts [num_layers=0] and empty lists, and
    the module it returns raises [IndexError] at every call of
    [user_representation] on a batch of known items, where it reads
    [self.kernel_width[0]]. *)
Theorem no_layer_fails_at_the_first_call (rng : nat -> list nat -> R)
  (num_items embedding_dim : nat) (kernel_width dilation : int_or_seq)
  (num_layers : nat) (nonlinearity : string)
  (residual_connections batch_norm sparse benchmark : bool)
  (ids : tensor nat) (N L : nat) :
  nonlinearity = "tanh" \/ nonlinearity = "relu" ->
  _to_iterable kernel_width num_layers = [] ->
  shape ids = [N; L] ->
  (forall n l, n < N -> l < L -> data ids [n; l] < num_items) ->
  exists net,
    CNNNet.init rng num_items embedding_dim kernel_width dilation num_layers
      nonlinearity residual_connections batch_norm sparse benchmark = Ok net /\
    CNNNet.cnn_layers net = [] /\
    CNNNet.user_representation net ids = Err IndexError.
Proof.
  intros Hnl Hk Hs Hr.
  destruct (CNNNet_init_ok rng num_items embedding_dim kernel_width dilation
              num_layers nonlinearity residual_connections batch_norm
              sparse benchmark Hnl)
    as (net & Hnet & HD & Hkw & _ & _ & _ & Hw & _ & _).
  exists net. split; [assumption|]. rewrite Hk in Hkw.
  split.
  - pose proof (CNNNet_init_wf _ _ _ _ _ _ _ _ _ _ _ _ Hnet) as (_ & Hl & _).
    rewrite Hkw in Hl. simpl in Hl. now inversion Hl.
  - unfold CNNNet.user_representation.
    destruct (channel_embeddings_spec _ ids Hw Hs Hr) as (x & -> & _).
    cbn [bind]. unfold CNNNet.first_layer. rewrite Hkw. reflexivity.
Qed.

End Constructed.

Section Fresh.
Context {Sc : Scalar} {E : Elementary Sc}.

Lemma combine_at_least_one (ks ds : list nat) :
  Forall (fun k => 1 <= k) ks -> Forall (fun d => 1 <= d) ds ->
  Forall (fun kd : nat * nat => 1 <= fst kd /\ 1 <= snd kd) (combine ks ds).
Proof.
  intros Hk. revert ds. induction Hk as [|k ks Hk1 Hk IH]; intros ds Hd.
  - constructor.
  - destruct Hd as [|d ds Hd1 Hd]; simpl; [constructor|].
    constructor; [split; assumption | apply IH, Hd].
Qed.

(** X6.  A [CNNNet] fresh from its constructor, with at least one
    kernel width and one dilation and all of them at least 1, encodes
    every batch of [N] sequences of [L] known items to representations
    of shape [N; embedding_dim; L] and a final representation of shape
    [N; embedding_dim]; with [batch_norm], the batch must not be one
    empty sequence. *)
Theorem fresh_CNNNet_encodes (rng : nat -> list nat -> R)
  (num_items embedding_dim : nat) (kernel_width dilation : int_or_seq)
  (num_layers : nat) (nonlinearity : string)
  (residual_connections batch_norm sparse benchmark : bool)
  (ids : tensor nat) (N L : nat) :
  nonlinearity = "tanh" \/ nonlinearity = "relu" ->
  _to_iterable kernel_width num_layers <> [] ->
  _to_iterable dilation num_layers <> [] ->
  Forall (fun k => 1 <= k) (_to_iterable kernel_width num_layers) ->
  Forall (fun d => 1 <= d) (_to_iterable dilation num_layers) ->
  shape ids = [N; L] ->
  (forall n l, n < N -> l < L -> data ids [n; l] < num_items) ->
  (batch_norm = true -> N = 1 -> 1 <= L) ->
  exists net a f net',
    CNNNet.init rng num_items embedding_dim kernel_width dilation num_layers
      nonlinearity residual_connections batch_norm sparse benchmark = Ok net /\
    CNNNet.user_representation net ids = Ok (a, f, net') /\
    shape a = [N; embedding_dim; L] /\ shape f = [N; embedding_dim].
Proof.
  intros Hnl Hk0 Hd0 Hk1 Hd1 Hs Hr Hbn.
  destruct (CNNNet_init_ok rng num_items embedding_dim kernel_width dilation
              num_layers nonlinearity residual_connections batch_norm
              sparse benchmark Hnl)
    as (net & Hnet & HD & Hkw & Hdl & Hb & _ & Hw & _ & _).
  pose proof (CNNNet_init_wf _ _ _ _ _ _ _ _ _ _ _ _ Hnet) as Hwf.
  assert (Hv : CNNNet_valid net).
  { split.
    - destruct Hwf as (_ & Hl & _). rewrite Hkw, Hdl in Hl.
      destruct (_to_iterable kernel_width num_layers); [congruence|].
      destruct (_to_iterable dilation num_layers); [congruence|].
      intros Hnil. rewrite Hnil in Hl. inversion Hl.
    - rewrite Hkw, Hdl. now apply combine_at_least_one. }
  rewrite <- HD in Hw.
  destruct (CNNNet_user_representation_shape net ids Hwf Hv Hw Hs Hr)
    as (a & f & bns' & Hrun & Ha & Hf & _).
  { rewrite Hb. intros Hbt Hone. apply Nat.eq_mul_1 in Hone.
    destruct Hone as (HN & HL). specialize (Hbn Hbt HN). lia. }
  rewrite HD in Ha, Hf. eauto 8.
Qed.

(** X7.  A [PoolNet] and an [LSTMNet] fresh from their constructors
    encode every batch of [N] sequences of [L] known items, empty
    sequences too, to representations of shape [N; embedding_dim; L]
    and a final representation of shape [N; embedding_dim]. *)
Theorem fresh_PoolNet_and_LSTMNet_encode (rng : nat -> list nat -> R)
  (num_items embedding_dim : nat) (sparse : bool)
  (ids : tensor nat) (N L : nat) :
  shape ids = [N; L] ->
  (forall n l, n < N -> l < L -> data ids [n; l] < num_items) ->
  (exists a f,
     PoolNet.user_representation
       (PoolNet.init rng num_items embedding_dim sparse) ids = Ok (a, f) /\
     shape a = [N; embedding_dim; L] /\ shape f = [N; embedding_dim]) /\
  (exists a f,
     LSTMNet.user_representation
       (LSTMNet.init rng num_items embedding_dim sparse) ids = Ok (a, f) /\
     shape a = [N; embedding_dim; L] /\ shape f = [N; embedding_dim]).
Proof.
  intros Hs Hr. split.
  - destruct (PoolNet_user_representation_spec
                (PoolNet.init rng num_items embedding_dim sparse) ids
                (num:=num_items) (dim:=embedding_dim) eq_refl Hs Hr)
      as (a & f & Hrun & Ha & Hf & _).
    eauto.
  - destruct (LSTMNet_user_representation_spec
                (LSTMNet.init rng num_items embedding_dim sparse) ids
                (num:=num_items) (dim:=embedding_dim) eq_refl eq_refl Hs Hr)
      as (a & f & Hrun & Ha & Hf & _).
    eauto.
Qed.

End Fresh.

(** ** Pooling *)

Section Averages.
Context {Sc : Scalar}.

Lemma pool_value_start (e : Embedding.t) (ids : tensor nat) (n d : nat) :
  neb zero zero = false -> div zero (add zero one) = zero ->
  pool_value e ids n d 0 = zero.
Proof.
  intros Hz Hq. unfold pool_value, pool_denominator, indicator. simpl.
  now rewrite Hz.
Qed.

Lemma pool_value_after_padding (e : Embedding.t) (ids : tensor nat) (n d t : nat) :
  neb zero zero = false ->
  embedded e ids n d t = zero ->
  pool_value e ids n d (S t)
  = div (add (csum (padded e ids n d) t) zero)
        (add (add (csum (fun m => indicator (padded e ids n d m)) t) zero) one).
Proof.
  intros Hz He. unfold pool_value, pool_denominator.
  cbn [csum padded]. rewrite He. unfold indicator at 2. now rewrite Hz.
Qed.

(** X8.  The pooled representation starts from zero: the representation
    of step 0, before any item, is the zero vector, and so is the
    final representation of an empty sequence. *)
Theorem pooling_starts_from_zero
  (self : PoolNet.t) (ids : tensor nat) (num dim N L : nat) :
  neb zero zero = false -> div zero (add zero one) = zero ->
  shape (Embedding.weight (PoolNet.item_embeddings self)) = [num; dim] ->
  shape ids = [N; L] ->
  (forall n l, n < N -> l < L -> data ids [n; l] < num) ->
  exists a f,
    PoolNet.user_representation self ids = Ok (a, f) /\
    (forall n d, n < N -> d < dim -> 0 < L -> data a [n; d; 0] = zero) /\
    (forall n d, n < N -> d < dim -> L = 0 -> data f [n; d] = zero).
Proof.
  intros Hz Hq Hw Hs Hr.
  destruct (PoolNet_user_representation_spec self ids Hw Hs Hr)
    as (a & f & Hrun & _ & _ & Ha & Hf).
  exists a, f. split; [assumption|]. split.
  - intros n d Hn Hd HL. rewrite Ha by assumption.
    now apply pool_value_start.
  - intros n d Hn Hd ->. rewrite Hf by assumption.
    now apply pool_value_start.
Qed.

(** X9.  A padding item adds zero to the sum and zero to the count:
    when the padding row of the table is zero, the step after a padding
    item divides the running sum [s] of its own step plus 0 by the
    count [c] of its own step plus 0 plus 1.  So the two steps have the
    same representation wherever [s + 0 = s] and [c + 0 = c], inside
    the sequence and at its end; in floating point that is every sum
    but -0.0. *)
Theorem padding_keeps_the_average
  (self : PoolNet.t) (ids : tensor nat) (num dim N L : nat) :
  neb zero zero = false ->
  shape (Embedding.weight (PoolNet.item_embeddings self)) = [num; dim] ->
  shape ids = [N; L] ->
  (forall n l, n < N -> l < L -> data ids [n; l] < num) ->
  (forall d, d < dim ->
     data (Embedding.weight (PoolNet.item_embeddings self)) [PADDING_IDX; d]
     = zero) ->
  exists a f,
    PoolNet.user_representation self ids = Ok (a, f) /\
    forall n d t, n < N -> d < dim -> t < L ->
      data ids [n; t] = PADDING_IDX ->
      let s := csum (padded (PoolNet.item_embeddings self) ids n d) t in
      let c := csum (fun m => indicator
                                (padded (PoolNet.item_embeddings self) ids n d m))
                    t in
      step_value a f n d t = div s (add c one) /\
      step_value a f n d (S t) = div (add s zero) (add (add c zero) one) /\
      (add s zero = s -> add c zero = c ->
       step_value a f n d (S t) = step_value a f n d t).
Proof.
  intros Hz Hw Hs Hr Hpad.
  destruct (PoolNet_user_representation_spec self ids Hw Hs Hr)
    as (a & f & Hrun & Ha & _ & Had & Hfd).
  exists a, f. split; [assumption|].
  intros n d t Hn Hd Ht Hp s c.
  assert (Hstep : forall h, h <= L ->
            step_value a f n d h
            = pool_value (PoolNet.item_embeddings self) ids n d h).
  { intros h Hh. unfold step_value. rewrite Ha. cbn [ix nth].
    destruct (Nat.ltb_spec h L) as [Hlt|Hge].
    - now apply Had.
    - replace h with L by lia. now apply Hfd. }
  assert (Hnext : step_value a f n d (S t)
                  = div (add s zero) (add (add c zero) one)).
  { rewrite Hstep by lia. apply pool_value_after_padding; [assumption|].
    unfold embedded. rewrite Hp. now apply Hpad. }
  assert (Hthis : step_value a f n d t = div s (add c one)).
  { rewrite Hstep by lia. reflexivity. }
  split; [assumption|]. split; [assumption|].
  intros Hs0 Hc0. rewrite Hnext, Hthis, Hs0, Hc0. reflexivity.
Qed.

Lemma csum_skip (f g : nat -> R) (p t : nat) :
  add zero zero = zero ->
  (forall m, m <= p -> g m = zero) -> f 0 = zero ->
  (forall m, 1 <= m -> m <= t -> g (p + m) = f m) ->
  csum g (p + t) = csum f t.
Proof.
  intros Hz Hg Hf. induction t as [|t IH]; intros Hgf.
  - rewrite Nat.add_0_r. simpl. rewrite Hf. now apply csum_zero.
  - replace (p + S t) with (S (p + t)) by lia. simpl.
    rewrite IH by (intros; apply Hgf; lia).
    f_equal. replace (S (p + t)) with (p + S t) by lia. apply Hgf; lia.
Qed.

Lemma pool_value_skip (e : Embedding.t) (ids1 ids2 : tensor nat)
  (n1 n2 d p t : nat) :
  neb zero zero = false -> add zero zero = zero ->
  data (Embedding.weight e) [PADDING_IDX; d] = zero ->
  (forall l, l < p -> data ids2 [n2; l] = PADDING_IDX) ->
  (forall l, l < t -> data ids2 [n2; p + l] = data ids1 [n1; l]) ->
  pool_value e ids2 n2 d (p + t) = pool_value e ids1 n1 d t.
Proof.
  intros Hz Hadd Hrow Hpad Hsame.
  assert (Hlow : forall m, m <= p -> padded e ids2 n2 d m = zero).
  { intros [|m] Hm; simpl; [reflexivity|].
    unfold embedded. rewrite Hpad by lia. exact Hrow. }
  assert (Hup : forall m, 1 <= m -> m <= t ->
            padded e ids2 n2 d (p + m) = padded e ids1 n1 d m).
  { intros [|m] H1 Hm; [lia|].
    replace (p + S m) with (S (p + m)) by lia. simpl.
    unfold embedded. rewrite Hsame by lia. reflexivity. }
  unfold pool_value, pool_denominator. f_equal; [|f_equal].
  - apply csum_skip; auto.
  - apply csum_skip; auto.
    + intros m Hm. rewrite Hlow by assumption. unfold indicator. now rewrite Hz.
    + simpl. unfold indicator. now rewrite Hz.
    + intros m H1 Hm. now rewrite Hup.
Qed.

(** X17.  Pooling ignores padding on the left: when the padding row of
    the table is zero, a sequence with [p] padding items in front has,
    [p] steps later, the representations of the sequence without them,
    and the same final representation.  It rests on [0 + 0 = 0] only,
    which holds in floating point too. *)
Theorem pooling_ignores_left_padding
  (self : PoolNet.t) (ids1 ids2 : tensor nat) (num dim N1 N2 L p n1 n2 : nat) :
  neb zero zero = false -> add zero zero = zero ->
  shape (Embedding.weight (PoolNet.item_embeddings self)) = [num; dim] ->
  shape ids1 = [N1; L] -> shape ids2 = [N2; p + L] ->
  (forall n l, n < N1 -> l < L -> data ids1 [n; l] < num) ->
  (forall n l, n < N2 -> l < p + L -> data ids2 [n; l] < num) ->
  (forall d, d < dim ->
     data (Embedding.weight (PoolNet.item_embeddings self)) [PADDING_IDX; d]
     = zero) ->
  n1 < N1 -> n2 < N2 ->
  (forall l, l < p -> data ids2 [n2; l] = PADDING_IDX) ->
  (forall l, l < L -> data ids2 [n2; p + l] = data ids1 [n1; l]) ->
  exists a1 f1 a2 f2,
    PoolNet.user_representation self ids1 = Ok (a1, f1) /\
    PoolNet.user_representation self ids2 = Ok (a2, f2) /\
    forall d, d < dim ->
      data f2 [n2; d] = data f1 [n1; d] /\
      (forall t, t < L -> data a2 [n2; d; p + t] = data a1 [n1; d; t]).
Proof.
  intros Hz Hadd Hw Hs1 Hs2 Hr1 Hr2 Hrow Hn1 Hn2 Hpad Hsame.
  destruct (PoolNet_user_representation_spec self ids1 Hw Hs1 Hr1)
    as (a1 & f1 & Hrun1 & _ & _ & Ha1 & Hf1).
  destruct (PoolNet_user_representation_spec self ids2 Hw Hs2 Hr2)
    as (a2 & f2 & Hrun2 & _ & _ & Ha2 & Hf2).
  exists a1, f1, a2, f2. split; [assumption|]. split; [assumption|].
  intros d Hd. split.
  - rewrite Hf1, Hf2 by assumption.
    apply pool_value_skip; auto.
  - intros t Ht. rewrite Ha1, Ha2 by (auto; lia).
    apply pool_value_skip; auto. intros l Hl. apply Hsame. lia.
Qed.

End Averages.

(** ** Which items a representation depends on *)

Section Rows.
Context {Sc : Scalar} {E : Elementary Sc}.

Lemma shift_shift (lo p q : nat) : shift (shift lo p) q = shift lo (p + q).
Proof.
  unfold shift. destruct (Nat.eqb_spec lo 0) as [->|Hlo]; [reflexivity|].
  destruct (Nat.eqb_spec (lo + p) 0); lia.
Qed.

Lemma shift_le (lo p : nat) : lo <= shift lo p.
Proof. unfold shift. destruct (Nat.eqb_spec lo 0); lia. Qed.

Lemma rows_weaken (D lo T lo' T' n1 n2 : nat) (x1 x2 : tensor R) :
  lo <= lo' -> T' <= T ->
  rows_agree D lo T n1 n2 x1 x2 -> rows_agree D lo' T' n1 n2 x1 x2.
Proof. intros Hlo HT Hag d h Hd Hl Hh. apply Hag; lia. Qed.

Lemma rows_pad (x1 x2 : tensor R) {N1 N2 D H1 H2 lo T n1 n2} (p : nat)
  (y1 y2 : tensor R) :
  shape x1 = [N1; D; H1; 1] -> shape x2 = [N2; D; H2; 1] ->
  T <= H1 -> T <= H2 ->
  rows_agree D lo T n1 n2 x1 x2 ->
  F_pad x1 (0, 0, Z.of_nat p, 0)%Z = Ok y1 ->
  F_pad x2 (0, 0, Z.of_nat p, 0)%Z = Ok y2 ->
  shape y1 = [N1; D; H1 + p; 1] /\ shape y2 = [N2; D; H2 + p; 1] /\
  rows_agree D (shift lo p) (T + p) n1 n2 y1 y2.
Proof.
  intros Hs1 Hs2 HT1 HT2 Hag Hy1 Hy2.
  destruct (F_pad_left x1 p Hs1) as (z1 & Hz1 & Hzs1 & Hd1).
  destruct (F_pad_left x2 p Hs2) as (z2 & Hz2 & Hzs2 & Hd2).
  rewrite Hz1 in Hy1. rewrite Hz2 in Hy2.
  injection Hy1 as <-. injection Hy2 as <-.
  split; [assumption|]. split; [assumption|].
  intros d h Hd Hlo Hh. rewrite Hd1, Hd2 by lia.
  destruct (Nat.ltb_spec h p) as [Hlt|Hge]; [reflexivity|].
  apply Hag; [assumption| |lia].
  unfold shift in Hlo. destruct (Nat.eqb_spec lo 0); lia.
Qed.

Lemma rows_conv (layer : Conv2d.t) (x1 x2 : tensor R)
  {N1 N2 D H1 H2 lo T n1 n2 k d} (z1 z2 : tensor R) :
  shape x1 = [N1; D; H1 + (k - 1) * d; 1] ->
  shape x2 = [N2; D; H2 + (k - 1) * d; 1] ->
  layer_wf D layer (k, d) -> 1 <= k -> 1 <= d -> 1 <= H1 -> 1 <= H2 ->
  rows_agree D lo (T + (k - 1) * d) n1 n2 x1 x2 ->
  Conv2d.forward layer x1 = Ok z1 ->
  Conv2d.forward layer x2 = Ok z2 ->
  shape z1 = [N1; D; H1; 1] /\ shape z2 = [N2; D; H2; 1] /\
  rows_agree D lo T n1 n2 z1 z2.
Proof.
  intros Hs1 Hs2 Hwf Hk Hd HH1 HH2 Hag Hz1 Hz2.
  destruct (Conv2d_forward_spec layer x1 Hs1 Hwf Hk Hd HH1) as (y1 & Hy1 & Hys1 & Hd1).
  destruct (Conv2d_forward_spec layer x2 Hs2 Hwf Hk Hd HH2) as (y2 & Hy2 & Hys2 & Hd2).
  rewrite Hy1 in Hz1. rewrite Hy2 in Hz2.
  injection Hz1 as <-. injection Hz2 as <-.
  split; [assumption|]. split; [assumption|].
  intros o h Ho Hlo Hh. rewrite Hd1, Hd2. f_equal.
  apply sum_n_ext. intros ci Hci.
  apply sum_n_ext. intros i Hi.
  apply sum_n_ext. intros j Hj.
  f_equal. replace j with 0 by lia. simpl. apply Hag; nia.
Qed.

Lemma rows_add (u1 u2 r1 r2 v1 v2 : tensor R) {N1 N2 D H1 H2 lo T n1 n2} :
  shape u1 = [N1; D; H1; 1] -> shape u2 = [N2; D; H2; 1] ->
  shape r1 = [N1; D; H1; 1] -> shape r2 = [N2; D; H2; 1] ->
  n1 < N1 -> n2 < N2 -> T <= H1 -> T <= H2 ->
  rows_agree D lo T n1 n2 u1 u2 -> rows_agree D lo T n1 n2 r1 r2 ->
  binop add u1 r1 = Ok v1 -> binop add u2 r2 = Ok v2 ->
  shape v1 = [N1; D; H1; 1] /\ shape v2 = [N2; D; H2; 1] /\
  rows_agree D lo T n1 n2 v1 v2.
Proof.
  intros Hu1 Hu2 Hr1 Hr2 Hn1 Hn2 HT1 HT2 Hu Hr Hv1 Hv2.
  destruct (binop_same_shape add u1 r1 Hu1 Hr1) as (w1 & Hw1 & Hs1 & Hd1).
  destruct (binop_same_shape add u2 r2 Hu2 Hr2) as (w2 & Hw2 & Hs2 & Hd2).
  rewrite Hw1 in Hv1. rewrite Hw2 in Hv2.
  injection Hv1 as <-. injection Hv2 as <-.
  split; [assumption|]. split; [assumption|].
  intros d h Hd Hlo Hh.
  rewrite Hd1, Hd2 by solve_valid. f_equal; [apply Hu | apply Hr]; assumption.
Qed.

End Rows.

Section RowsOfLayers.
Context {Sc : Scalar} {E : Elementary Sc}.

Lemma rows_loop_body (self : CNNNet.t) i layer k d bns
  (x1 x2 y1 y2 : tensor R) b1 b2 {N1 N2 H1 H2 lo T n1 n2} :
  shape x1 = [N1; CNNNet.embedding_dim self; H1; 1] ->
  shape x2 = [N2; CNNNet.embedding_dim self; H2; 1] ->
  1 <= H1 -> 1 <= H2 -> n1 < N1 -> n2 < N2 -> T <= H1 -> T <= H2 ->
  layer_wf (CNNNet.embedding_dim self) layer (k, d) ->
  quiet self bns ->
  rows_agree (CNNNet.embedding_dim self) lo T n1 n2 x1 x2 ->
  CNNNet.loop_body self i layer k d x1 bns = Ok (y1, b1) ->
  CNNNet.loop_body self i layer k d x2 bns = Ok (y2, b2) ->
  b1 = bns /\ b2 = bns /\
  shape y1 = [N1; CNNNet.embedding_dim self; H1; 1] /\
  shape y2 = [N2; CNNNet.embedding_dim self; H2; 1] /\
  rows_agree (CNNNet.embedding_dim self) (shift lo (reach k d)) T n1 n2 y1 y2.
Proof.
  intros Hs1 Hs2 HH1 HH2 Hn1 Hn2 HT1 HT2 Hwf Hq Hag Hy1 Hy2.
  unfold CNNNet.loop_body in Hy1, Hy2.
  apply bind_ok in Hy1. destruct Hy1 as (p1 & Hp1 & Hy1).
  apply bind_ok in Hy1. destruct Hy1 as (z1 & Hz1 & Hy1).
  apply bind_ok in Hy1. destruct Hy1 as ([u1 c1] & Hu1 & Hy1).
  apply bind_ok in Hy1. destruct Hy1 as (v1 & Hv1 & Hy1).
  apply bind_ok in Hy2. destruct Hy2 as (p2 & Hp2 & Hy2).
  apply bind_ok in Hy2. destruct Hy2 as (z2 & Hz2 & Hy2).
  apply bind_ok in Hy2. destruct Hy2 as ([u2 c2] & Hu2 & Hy2).
  apply bind_ok in Hy2. destruct Hy2 as (v2 & Hv2 & Hy2).
  injection Hy1 as <- <-. injection Hy2 as <- <-.
  destruct (Conv2d_forward_ok_inv layer p1 z1 Hwf Hz1) as (Hk & Hd).
  rewrite receptive_field_nat in Hp1, Hp2 by assumption.
  replace (Z.of_nat ((k - 1) * d + 1) - 1)%Z with (Z.of_nat ((k - 1) * d))
    in Hp1, Hp2 by lia.
  destruct (rows_pad x1 x2 _ p1 p2 Hs1 Hs2 HT1 HT2 Hag Hp1 Hp2)
    as (Hps1 & Hps2 & Hpag).
  destruct (rows_conv layer p1 p2 z1 z2 Hps1 Hps2 Hwf Hk Hd HH1 HH2 Hpag Hz1 Hz2)
    as (Hzs1 & Hzs2 & Hzag).
  destruct (apply_bn_quiet self bns i _ u1 c1 Hq Hu1) as (-> & Hus1 & Hud1).
  destruct (apply_bn_quiet self bns i _ u2 c2 Hq Hu2) as (-> & Hus2 & Hud2).
  cbn [tmap shape] in Hus1, Hus2. rewrite Hzs1 in Hus1. rewrite Hzs2 in Hus2.
  assert (Huag : rows_agree (CNNNet.embedding_dim self)
                   (shift lo (reach k d)) T n1 n2 u1 u2).
  { intros o h Ho Hlo Hh. rewrite Hud1, Hud2. cbn [tmap data ix nth].
    now rewrite (Hzag o h Ho Hlo Hh). }
  split; [reflexivity|]. split; [reflexivity|].
  unfold CNNNet.add_residual in Hv1, Hv2.
  destruct (CNNNet.residual_connections self).
  - refine (rows_add u1 u2 x1 x2 v1 v2 Hus1 Hus2 Hs1 Hs2 Hn1 Hn2 HT1 HT2
              Huag _ Hv1 Hv2).
    eapply rows_weaken; [apply shift_le | apply Nat.le_refl | exact Hag].
  - injection Hv1 as <-. injection Hv2 as <-. auto.
Qed.

Lemma rows_layers_loop (self : CNNNet.t) (rest : list (Conv2d.t * nat * nat))
  bns {N1 N2 H1 H2 T n1 n2} :
  1 <= H1 -> 1 <= H2 -> n1 < N1 -> n2 < N2 -> T <= H1 -> T <= H2 ->
  Forall (fun t => layer_wf (CNNNet.embedding_dim self)
                            (fst (fst t)) (snd (fst t), snd t)) rest ->
  quiet self bns ->
  forall i lo (x1 x2 y1 y2 : tensor R) b1 b2,
  shape x1 = [N1; CNNNet.embedding_dim self; H1; 1] ->
  shape x2 = [N2; CNNNet.embedding_dim self; H2; 1] ->
  rows_agree (CNNNet.embedding_dim self) lo T n1 n2 x1 x2 ->
  CNNNet.layers_loop self i rest x1 bns = Ok (y1, b1) ->
  CNNNet.layers_loop self i rest x2 bns = Ok (y2, b2) ->
  b1 = bns /\ b2 = bns /\
  shape y1 = [N1; CNNNet.embedding_dim self; H1; 1] /\
  shape y2 = [N2; CNNNet.embedding_dim self; H2; 1] /\
  rows_agree (CNNNet.embedding_dim self) (shift lo (rest_reach rest)) T
             n1 n2 y1 y2.
Proof.
  intros HH1 HH2 Hn1 Hn2 HT1 HT2 Hrest Hq.
  induction Hrest as [|[[layer k] d] rest Hwf _ IH];
    intros i lo x1 x2 y1 y2 b1 b2 Hs1 Hs2 Hag Hy1 Hy2.
  - simpl in Hy1, Hy2. injection Hy1 as <- <-. injection Hy2 as <- <-.
    repeat (split; [solve [auto]|]).
    eapply rows_weaken; [apply shift_le | apply Nat.le_refl | exact Hag].
  - cbn [CNNNet.layers_loop] in Hy1, Hy2. simpl in Hwf.
    apply bind_ok in Hy1. destruct Hy1 as ([u1 c1] & Hu1 & Hy1).
    apply bind_ok in Hy2. destruct Hy2 as ([u2 c2] & Hu2 & Hy2).
    destruct (rows_loop_body self i layer k d bns x1 x2 u1 u2 c1 c2
                Hs1 Hs2 HH1 HH2 Hn1 Hn2 HT1 HT2 Hwf Hq Hag Hu1 Hu2)
      as (-> & -> & Hus1 & Hus2 & Huag).
    destruct (IH (S i) _ u1 u2 y1 y2 b1 b2 Hus1 Hus2 Huag Hy1 Hy2)
      as (-> & -> & Hys1 & Hys2 & Hyag).
    repeat (split; [solve [auto]|]).
    rewrite shift_shift in Hyag. exact Hyag.
Qed.

Lemma rows_first_layer (self : CNNNet.t) (e1 e2 y1 y2 : tensor R) b1 b2
  {N1 N2 L1 L2 lo T n1 n2} :
  CNNNet_wf self -> quiet self (CNNNet.bn self) ->
  shape e1 = [N1; CNNNet.embedding_dim self; L1; 1] ->
  shape e2 = [N2; CNNNet.embedding_dim self; L2; 1] ->
  n1 < N1 -> n2 < N2 -> T <= L1 -> T <= L2 ->
  rows_agree (CNNNet.embedding_dim self) lo T n1 n2 e1 e2 ->
  CNNNet.first_layer self e1 = Ok (y1, b1) ->
  CNNNet.first_layer self e2 = Ok (y2, b2) ->
  b1 = CNNNet.bn self /\ b2 = CNNNet.bn self /\
  shape y1 = [N1; CNNNet.embedding_dim self; L1 + 1; 1] /\
  shape y2 = [N2; CNNNet.embedding_dim self; L2 + 1; 1] /\
  exists k0 ks d0 ds,
    CNNNet.kernel_width self = k0 :: ks /\ CNNNet.dilation self = d0 :: ds /\
    rows_agree (CNNNet.embedding_dim self) (shift lo (reach k0 d0 + 1)) (T + 1)
               n1 n2 y1 y2.
Proof.
  intros (_ & Hl & _) Hq Hs1 Hs2 Hn1 Hn2 HT1 HT2 Hag Hy1 Hy2.
  unfold CNNNet.first_layer in Hy1, Hy2.
  apply bind_ok in Hy1. destruct Hy1 as (k0 & Hk0 & Hy1).
  apply bind_ok in Hy1. destruct Hy1 as (d0 & Hd0 & Hy1).
  apply bind_ok in Hy1. destruct Hy1 as (p1 & Hp1 & Hy1).
  apply bind_ok in Hy1. destruct Hy1 as (layer0 & Hl0 & Hy1).
  apply bind_ok in Hy1. destruct Hy1 as (z1 & Hz1 & Hy1).
  apply bind_ok in Hy1. destruct Hy1 as ([u1 c1] & Hu1 & Hy1).
  apply bind_ok in Hy1. destruct Hy1 as (v1 & Hv1 & Hy1).
  rewrite Hk0, Hd0 in Hy2. cbn [bind] in Hy2.
  apply bind_ok in Hy2. destruct Hy2 as (p2 & Hp2 & Hy2).
  rewrite Hl0 in Hy2. cbn [bind] in Hy2.
  apply bind_ok in Hy2. destruct Hy2 as (z2 & Hz2 & Hy2).
  apply bind_ok in Hy2. destruct Hy2 as ([u2 c2] & Hu2 & Hy2).
  apply bind_ok in Hy2. destruct Hy2 as (v2 & Hv2 & Hy2).
  injection Hy1 as <- <-. injection Hy2 as <- <-.
  apply get_head in Hk0, Hd0, Hl0.
  destruct Hk0 as (ks & Hks). destruct Hd0 as (ds & Hds). destruct Hl0 as (ls & Hls).
  rewrite Hks, Hds, Hls in Hl. simpl in Hl.
  assert (Hwf : layer_wf (CNNNet.embedding_dim self) layer0 (k0, d0))
    by now inversion Hl.
  destruct (Conv2d_forward_ok_inv layer0 p1 z1 Hwf Hz1) as (Hk & Hd).
  rewrite receptive_field_nat in Hp1, Hp2 by assumption.
  destruct (rows_pad e1 e2 _ p1 p2 Hs1 Hs2 HT1 HT2 Hag Hp1 Hp2)
    as (Hps1 & Hps2 & Hpag).
  replace (L1 + ((k0 - 1) * d0 + 1)) with (L1 + 1 + (k0 - 1) * d0) in Hps1 by lia.
  replace (L2 + ((k0 - 1) * d0 + 1)) with (L2 + 1 + (k0 - 1) * d0) in Hps2 by lia.
  replace (T + ((k0 - 1) * d0 + 1)) with (T + 1 + (k0 - 1) * d0) in Hpag by lia.
  assert (HL1 : 1 <= L1 + 1) by lia.
  assert (HL2 : 1 <= L2 + 1) by lia.
  destruct (rows_conv layer0 p1 p2 z1 z2 Hps1 Hps2 Hwf Hk Hd
              HL1 HL2 Hpag Hz1 Hz2) as (Hzs1 & Hzs2 & Hzag).
  destruct (apply_bn_quiet self _ 0 _ u1 c1 Hq Hu1) as (-> & Hus1 & Hud1).
  destruct (apply_bn_quiet self _ 0 _ u2 c2 Hq Hu2) as (-> & Hus2 & Hud2).
  cbn [tmap shape] in Hus1, Hus2. rewrite Hzs1 in Hus1. rewrite Hzs2 in Hus2.
  change ((k0 - 1) * d0) with (reach k0 d0) in Hzag.
  replace ((k0 - 1) * d0 + 1) with (reach k0 d0 + 1) in Hzag by reflexivity.
  assert (Huag : rows_agree (CNNNet.embedding_dim self)
                   (shift lo (reach k0 d0 + 1)) (T + 1) n1 n2 u1 u2).
  { intros o h Ho Hlo Hh. rewrite Hud1, Hud2. cbn [tmap data ix nth].
    now rewrite (Hzag o h Ho Hlo Hh). }
  split; [reflexivity|]. split; [reflexivity|].
  destruct (CNNNet.residual_connections self).
  - apply bind_ok in Hv1. destruct Hv1 as (r1 & Hr1 & Hv1).
    apply bind_ok in Hv2. destruct Hv2 as (r2 & Hr2 & Hv2).
    change 1%Z with (Z.of_nat 1) in Hr1, Hr2.
    destruct (rows_pad e1 e2 _ r1 r2 Hs1 Hs2 HT1 HT2 Hag Hr1 Hr2)
      as (Hrs1 & Hrs2 & Hrag).
    assert (Hrag' : rows_agree (CNNNet.embedding_dim self)
                      (shift lo (reach k0 d0 + 1)) (T + 1) n1 n2 r1 r2).
    { eapply rows_weaken; [|apply Nat.le_refl | exact Hrag].
      unfold shift. destruct (Nat.eqb_spec lo 0); lia. }
    assert (HT1' : T + 1 <= L1 + 1) by lia.
    assert (HT2' : T + 1 <= L2 + 1) by lia.
    destruct (rows_add u1 u2 r1 r2 v1 v2 Hus1 Hus2 Hrs1 Hrs2 Hn1 Hn2
                HT1' HT2' Huag Hrag' Hv1 Hv2) as (Hvs1 & Hvs2 & Hvag).
    split; [assumption|]. split; [assumption|]. eauto 8.
  - injection Hv1 as <-. injection Hv2 as <-.
    split; [assumption|]. split; [assumption|]. eauto 8.
Qed.

End RowsOfLayers.

Section Steps.
Context {Sc : Scalar} {E : Elementary Sc}.

Lemma rest_reach_combine (D : nat) (ls : list Conv2d.t) (ks ds : list nat) :
  Forall2 (layer_wf D) ls (combine ks ds) ->
  rest_reach (combine (combine ls ks) ds)
  = list_sum (map (fun kd => reach (fst kd) (snd kd)) (combine ks ds)).
Proof.
  revert ks ds. induction ls as [|l ls IH]; intros ks ds Hl.
  - inversion Hl as [Heq|]. reflexivity.
  - destruct ks as [|k ks]; [inversion Hl|].
    destruct ds as [|d ds]; [inversion Hl|].
    simpl in Hl. inversion Hl; subst.
    unfold rest_reach in *. simpl. f_equal. now apply IH.
Qed.

(** The steps of a pooled run are the values [pool_value]. *)
Lemma PoolNet_steps (self : PoolNet.t) (ids : tensor nat) (a f : tensor R)
  {num dim N L} :
  shape (Embedding.weight (PoolNet.item_embeddings self)) = [num; dim] ->
  shape ids = [N; L] ->
  PoolNet.user_representation self ids = Ok (a, f) ->
  forall n d h, n < N -> d < dim -> h <= L ->
    step_value a f n d h = pool_value (PoolNet.item_embeddings self) ids n d h.
Proof.
  intros Hw Hs Hrun. pose proof Hrun as Hc.
  unfold PoolNet.user_representation in Hc.
  apply bind_ok in Hc. destruct Hc as (x & Hx & _).
  destruct (channel_embeddings_inv _ ids x Hw Hs Hx) as (Hr & _).
  destruct (PoolNet_user_representation_spec self ids Hw Hs Hr)
    as (a' & f' & Heq & Ha & _ & Had & Hfd).
  rewrite Heq in Hrun. injection Hrun as <- <-.
  intros n d h Hn Hd Hh. unfold step_value. rewrite Ha. cbn [ix nth].
  destruct (Nat.ltb_spec h L) as [Hlt|Hge].
  - now apply Had.
  - replace h with L by lia. now apply Hfd.
Qed.

(** The steps of a recurrent run are the values [lstm_value]. *)
Lemma LSTMNet_steps (self : LSTMNet.t) (ids : tensor nat) (a f : tensor R)
  {num dim N L} :
  shape (Embedding.weight (LSTMNet.item_embeddings self)) = [num; dim] ->
  LSTM.input_size (LSTMNet.lstm self) = dim ->
  shape ids = [N; L] ->
  LSTMNet.user_representation self ids = Ok (a, f) ->
  forall n d h, n < N -> h <= L ->
    step_value a f n d h = lstm_value self ids dim n d h.
Proof.
  intros Hw Hin Hs Hrun. pose proof Hrun as Hc.
  unfold LSTMNet.user_representation in Hc.
  apply bind_ok in Hc. destruct Hc as (x & Hx & _).
  destruct (channel_embeddings_inv _ ids x Hw Hs Hx) as (Hr & _).
  destruct (LSTMNet_user_representation_spec self ids Hw Hin Hs Hr)
    as (a' & f' & Heq & Ha & _ & Had & Hfd).
  rewrite Heq in Hrun. injection Hrun as <- <-.
  intros n d h Hn Hh. unfold step_value. rewrite Ha. cbn [ix nth].
  destruct (Nat.ltb_spec h L) as [Hlt|Hge].
  - now apply Had.
  - replace h with L by lia. now apply Hfd.
Qed.

Lemma padded_rows (e : Embedding.t) (ids1 ids2 : tensor nat)
  (T n1 n2 d m : nat) :
  (forall l, l < T -> data ids1 [n1; l] = data ids2 [n2; l]) ->
  m <= T -> padded e ids1 n1 d m = padded e ids2 n2 d m.
Proof.
  intros Hids Hm. destruct m as [|m]; simpl; [reflexivity|].
  unfold embedded. rewrite Hids by lia. reflexivity.
Qed.

(** The steps of a convolutional run, with no normalisation layer in
    training mode: rows that hold the same items from position [lo] to
    before [T] have the same steps from [lo + lookback] to [T], and from
    step 0 when [lo] is 0. *)
Lemma CNNNet_rows (self : CNNNet.t) (ids1 ids2 : tensor nat)
  (a1 f1 a2 f2 : tensor R) (s1 s2 : CNNNet.t) {N1 N2 L1 L2 lo T n1 n2} :
  CNNNet_wf self -> CNNNet_quiet self ->
  shape ids1 = [N1; L1] -> shape ids2 = [N2; L2] ->
  n1 < N1 -> n2 < N2 -> T <= L1 -> T <= L2 ->
  (forall l, lo <= l -> l < T -> data ids1 [n1; l] = data ids2 [n2; l]) ->
  CNNNet.user_representation self ids1 = Ok (a1, f1, s1) ->
  CNNNet.user_representation self ids2 = Ok (a2, f2, s2) ->
  shape a1 = [N1; CNNNet.embedding_dim self; L1] /\
  shape a2 = [N2; CNNNet.embedding_dim self; L2] /\
  forall d h, d < CNNNet.embedding_dim self ->
    shift lo (lookback self) <= h -> h <= T ->
    step_value a1 f1 n1 d h = step_value a2 f2 n2 d h.
Proof.
  intros Hwf Hq Hi1 Hi2 Hn1 Hn2 HT1 HT2 Hids Hr1 Hr2.
  pose proof Hwf as ((num & Hw) & Hl & _).
  unfold CNNNet.user_representation in Hr1, Hr2.
  apply bind_ok in Hr1. destruct Hr1 as (e1 & He1 & Hr1).
  apply bind_ok in Hr1. destruct Hr1 as ([x1 c1] & Hx1 & Hr1).
  apply bind_ok in Hr1. destruct Hr1 as ([y1 c1'] & Hy1 & Hr1).
  apply bind_ok in Hr1. destruct Hr1 as (u1 & Hu1 & Hr1).
  apply bind_ok in Hr1. destruct Hr1 as ([a1' f1'] & Hsp1 & Hr1).
  apply bind_ok in Hr2. destruct Hr2 as (e2 & He2 & Hr2).
  apply bind_ok in Hr2. destruct Hr2 as ([x2 c2] & Hx2 & Hr2).
  apply bind_ok in Hr2. destruct Hr2 as ([y2 c2'] & Hy2 & Hr2).
  apply bind_ok in Hr2. destruct Hr2 as (u2 & Hu2 & Hr2).
  apply bind_ok in Hr2. destruct Hr2 as ([a2' f2'] & Hsp2 & Hr2).
  injection Hr1 as <- <- <-. injection Hr2 as <- <- <-.
  destruct (channel_embeddings_inv _ ids1 e1 Hw Hi1 He1) as (_ & Hes1 & Hed1).
  destruct (channel_embeddings_inv _ ids2 e2 Hw Hi2 He2) as (_ & Hes2 & Hed2).
  assert (Heag : rows_agree (CNNNet.embedding_dim self) lo T n1 n2 e1 e2).
  { intros d l Hd Hlo Hl'. rewrite Hed1, Hed2, Hids; auto. }
  destruct (rows_first_layer self e1 e2 x1 x2 c1 c2 Hwf Hq Hes1 Hes2
              Hn1 Hn2 HT1 HT2 Heag Hx1 Hx2)
    as (-> & -> & Hxs1 & Hxs2 & k0 & ks & d0 & ds & Hks & Hds & Hxag).
  apply tl_layers_match in Hl. rewrite Hks, Hds in Hl. cbn [tl] in Hl.
  pose proof (rest_reach_combine _ _ _ _ Hl) as Hreach.
  apply rest_layers_match in Hl.
  rewrite Hks, Hds in Hy1, Hy2. cbn [tl] in Hy1, Hy2.
  assert (HL1 : 1 <= L1 + 1) by lia. assert (HL2 : 1 <= L2 + 1) by lia.
  assert (HT1' : T + 1 <= L1 + 1) by lia.
  assert (HT2' : T + 1 <= L2 + 1) by lia.
  destruct (rows_layers_loop self _ (CNNNet.bn self) HL1 HL2 Hn1 Hn2 HT1' HT2'
              Hl Hq 0 _ x1 x2 y1 y2 c1' c2' Hxs1 Hxs2 Hxag Hy1 Hy2)
    as (-> & -> & Hys1 & Hys2 & Hyag).
  rewrite shift_shift, Hreach in Hyag.
  destruct (squeeze3_spec y1 Hys1) as (w1 & Hw1 & Hws1 & Hwd1).
  destruct (squeeze3_spec y2 Hys2) as (w2 & Hw2 & Hws2 & Hwd2).
  rewrite Hw1 in Hu1. rewrite Hw2 in Hu2. injection Hu1 as <-. injection Hu2 as <-.
  replace (L1 + 1) with (S L1) in Hws1 by lia.
  replace (L2 + 1) with (S L2) in Hws2 by lia.
  destruct (split_last_spec w1 Hws1) as (p1 & q1 & Hpq1 & Hps1 & _ & Hpd1 & Hqd1).
  destruct (split_last_spec w2 Hws2) as (p2 & q2 & Hpq2 & Hps2 & _ & Hpd2 & Hqd2).
  rewrite Hpq1 in Hsp1. rewrite Hpq2 in Hsp2.
  injection Hsp1 as <- <-. injection Hsp2 as <- <-.
  split; [assumption|]. split; [assumption|].
  intros d h Hd Hlo Hh.
  assert (Hv1 : step_value p1 q1 n1 d h = data y1 [n1; d; h; 0]).
  { unfold step_value. rewrite Hps1. cbn [ix nth].
    destruct (Nat.ltb_spec h L1); [now rewrite Hpd1, Hwd1|].
    rewrite Hqd1, Hwd1. do 4 f_equal. lia. }
  assert (Hv2 : step_value p2 q2 n2 d h = data y2 [n2; d; h; 0]).
  { unfold step_value. rewrite Hps2. cbn [ix nth].
    destruct (Nat.ltb_spec h L2); [now rewrite Hpd2, Hwd2|].
    rewrite Hqd2, Hwd2. do 4 f_equal. lia. }
  rewrite Hv1, Hv2. apply Hyag; [assumption| |lia].
  unfold lookback in Hlo. rewrite Hks, Hds in Hlo. cbn [combine map list_sum fst snd] in Hlo.
  replace (reach k0 d0 + 1 + list_sum (map (fun kd => reach (fst kd) (snd kd)) (combine ks ds)))
    with (1 + (reach k0 d0 + list_sum (map (fun kd => reach (fst kd) (snd kd)) (combine ks ds))))
    by lia.
  exact Hlo.
Qed.


(** The steps of any variant: rows that hold the same items before
    position [T] have the same steps up to [T]. *)
Lemma encoder_rows (enc : encoder) (ids1 ids2 : tensor nat)
  (a1 f1 a2 f2 : tensor R) (e1 e2 : encoder) {N1 N2 L1 L2 T n1 n2} :
  encoder_wf enc -> encoder_quiet enc ->
  shape ids1 = [N1; L1] -> shape ids2 = [N2; L2] ->
  n1 < N1 -> n2 < N2 -> T <= L1 -> T <= L2 ->
  (forall l, l < T -> data ids1 [n1; l] = data ids2 [n2; l]) ->
  user_representation enc ids1 = Ok (a1, f1, e1) ->
  user_representation enc ids2 = Ok (a2, f2, e2) ->
  ix (shape a1) 2 = L1 /\ ix (shape a2) 2 = L2 /\
  forall d h, d < embedding_dim enc -> h <= T ->
    step_value a1 f1 n1 d h = step_value a2 f2 n2 d h.
Proof.
  intros Hwf Hq Hs1 Hs2 Hn1 Hn2 HT1 HT2 Hids H1 H2.
  destruct enc as [m|m|m]; simpl in *.
  - destruct Hwf as (num & Hw).
    apply bind_ok in H1. destruct H1 as ([b1 g1] & Hb1 & H1).
    apply bind_ok in H2. destruct H2 as ([b2 g2] & Hb2 & H2).
    injection H1 as <- <- <-. injection H2 as <- <- <-.
    pose proof (PoolNet_steps m ids1 b1 g1 Hw Hs1 Hb1) as Hv1.
    pose proof (PoolNet_steps m ids2 b2 g2 Hw Hs2 Hb2) as Hv2.
    assert (Hsh : forall ids b g N L, shape ids = [N; L] ->
              PoolNet.user_representation m ids = Ok (b, g) ->
              ix (shape b) 2 = L).
    { intros ids b g N L Hs Hb. pose proof Hb as Hc.
      unfold PoolNet.user_representation in Hc.
      apply bind_ok in Hc. destruct Hc as (x & Hx & _).
      destruct (channel_embeddings_inv _ ids x Hw Hs Hx) as (Hr & _).
      destruct (PoolNet_user_representation_spec m ids Hw Hs Hr)
        as (a' & f' & Heq & Ha & _).
      rewrite Heq in Hb. injection Hb as <- <-. now rewrite Ha. }
    split; [eapply Hsh; eauto|]. split; [eapply Hsh; eauto|].
    intros d h Hd Hh. rewrite Hv1, Hv2 by (auto; lia).
    unfold pool_value, pool_denominator.
    f_equal; [|f_equal]; apply csum_ext; intros k Hk;
      rewrite (padded_rows _ ids1 ids2 T n1 n2 d k Hids) by lia; reflexivity.
  - destruct Hwf as ((num & Hw) & Hin & Hhid).
    apply bind_ok in H1. destruct H1 as ([b1 g1] & Hb1 & H1).
    apply bind_ok in H2. destruct H2 as ([b2 g2] & Hb2 & H2).
    injection H1 as <- <- <-. injection H2 as <- <- <-.
    pose proof (LSTMNet_steps m ids1 b1 g1 Hw Hin Hs1 Hb1) as Hv1.
    pose proof (LSTMNet_steps m ids2 b2 g2 Hw Hin Hs2 Hb2) as Hv2.
    assert (Hsh : forall ids b g N L, shape ids = [N; L] ->
              LSTMNet.user_representation m ids = Ok (b, g) ->
              ix (shape b) 2 = L).
    { intros ids b g N L Hs Hb. pose proof Hb as Hc.
      unfold LSTMNet.user_representation in Hc.
      apply bind_ok in Hc. destruct Hc as (x & Hx & _).
      destruct (channel_embeddings_inv _ ids x Hw Hs Hx) as (Hr & _).
      destruct (LSTMNet_user_representation_spec m ids Hw Hin Hs Hr)
        as (a' & f' & Heq & Ha & _).
      rewrite Heq in Hb. injection Hb as <- <-. now rewrite Ha. }
    split; [eapply Hsh; eauto|]. split; [eapply Hsh; eauto|].
    intros d h Hd Hh. rewrite Hv1, Hv2 by (auto; lia).
    unfold lstm_value. f_equal. f_equal.
    apply LSTM_run_ext. intros s Hs. unfold lstm_inputs.
    apply map_ext. intros j.
    apply (padded_rows _ ids1 ids2 T n1 n2 j s Hids); lia.
  - apply bind_ok in H1. destruct H1 as ([[b1 g1] s1] & Hb1 & H1).
    apply bind_ok in H2. destruct H2 as ([[b2 g2] s2] & Hb2 & H2).
    injection H1 as <- <- <-. injection H2 as <- <- <-.
    destruct (CNNNet_rows m ids1 ids2 b1 g1 b2 g2 s1 s2 (lo:=0) (T:=T)
                Hwf Hq Hs1 Hs2 Hn1 Hn2 HT1 HT2) as (Ha1 & Ha2 & Hag); auto.
    rewrite Ha1, Ha2. split; [reflexivity|]. split; [reflexivity|].
    intros d h Hd Hh. apply Hag; [assumption| |assumption].
    unfold shift. simpl. lia.
Qed.

End Steps.

Section Dependence.
Context {Sc : Scalar} {E : Elementary Sc}.

(** X10.  Sequences are encoded one by one: in every variant, with no
    normalisation layer in training mode, a sequence has the same
    representations and the same final representation in whatever
    batch and at whatever row it is encoded. *)
Theorem sequences_are_encoded_independently
  (enc : encoder) (ids1 ids2 : tensor nat) (N1 N2 L n1 n2 : nat)
  (a1 f1 a2 f2 : tensor R) (e1 e2 : encoder) :
  encoder_wf enc -> encoder_quiet enc ->
  shape ids1 = [N1; L] -> shape ids2 = [N2; L] ->
  n1 < N1 -> n2 < N2 ->
  (forall l, l < L -> data ids1 [n1; l] = data ids2 [n2; l]) ->
  user_representation enc ids1 = Ok (a1, f1, e1) ->
  user_representation enc ids2 = Ok (a2, f2, e2) ->
  forall d, d < embedding_dim enc ->
    (forall t, t < L -> data a1 [n1; d; t] = data a2 [n2; d; t]) /\
    data f1 [n1; d] = data f2 [n2; d].
Proof.
  intros Hwf Hq Hs1 Hs2 Hn1 Hn2 Hids H1 H2 d Hd.
  destruct (encoder_rows enc ids1 ids2 a1 f1 a2 f2 e1 e2 (T:=L)
              Hwf Hq Hs1 Hs2 Hn1 Hn2 (Nat.le_refl L) (Nat.le_refl L) Hids H1 H2)
    as (Ha1 & Ha2 & Hag).
  split.
  - intros t Ht. specialize (Hag d t Hd (Nat.lt_le_incl _ _ Ht)).
    unfold step_value in Hag. rewrite Ha1, Ha2 in Hag.
    apply Nat.ltb_lt in Ht. now rewrite Ht in Hag.
  - specialize (Hag d L Hd (Nat.le_refl L)).
    unfold step_value in Hag. rewrite Ha1, Ha2, Nat.ltb_irrefl in Hag.
    exact Hag.
Qed.

(** X11.  The final representation is the next step: in every variant,
    with no normalisation layer in training mode, the final
    representation of a sequence of [L1] items is the representation at
    step [L1] of any longer sequence that starts with these items, and
    the representations of the steps before are the same in both. *)
Theorem final_representation_is_the_next_step
  (enc : encoder) (ids1 ids2 : tensor nat) (N1 N2 L1 L2 n1 n2 : nat)
  (a1 f1 a2 f2 : tensor R) (e1 e2 : encoder) :
  encoder_wf enc -> encoder_quiet enc ->
  shape ids1 = [N1; L1] -> shape ids2 = [N2; L2] ->
  n1 < N1 -> n2 < N2 -> L1 < L2 ->
  (forall l, l < L1 -> data ids1 [n1; l] = data ids2 [n2; l]) ->
  user_representation enc ids1 = Ok (a1, f1, e1) ->
  user_representation enc ids2 = Ok (a2, f2, e2) ->
  forall d, d < embedding_dim enc ->
    data f1 [n1; d] = data a2 [n2; d; L1] /\
    (forall t, t < L1 -> data a1 [n1; d; t] = data a2 [n2; d; t]).
Proof.
  intros Hwf Hq Hs1 Hs2 Hn1 Hn2 HL Hids H1 H2 d Hd.
  destruct (encoder_rows enc ids1 ids2 a1 f1 a2 f2 e1 e2 (T:=L1)
              Hwf Hq Hs1 Hs2 Hn1 Hn2 (Nat.le_refl L1) (Nat.lt_le_incl _ _ HL)
              Hids H1 H2)
    as (Ha1 & Ha2 & Hag).
  split.
  - specialize (Hag d L1 Hd (Nat.le_refl L1)).
    unfold step_value in Hag. rewrite Ha1, Ha2, Nat.ltb_irrefl in Hag.
    apply Nat.ltb_lt in HL. now rewrite HL in Hag.
  - intros t Ht. specialize (Hag d t Hd (Nat.lt_le_incl _ _ Ht)).
    unfold step_value in Hag. rewrite Ha1, Ha2 in Hag.
    assert (Ht2 : t < L2) by lia.
    apply Nat.ltb_lt in Ht, Ht2. now rewrite Ht, Ht2 in Hag.
Qed.

(** X12.  A [CNNNet] has a finite memory: with no normalisation layer
    in training mode, the representation of a step depends on the
    [lookback] items before it only, one plus [(kernel_width - 1) *
    dilation] for every layer.  Two sequences that hold the same items
    from position [lo] on have the same representations from step
    [lo + lookback] on, the final one included. *)
Theorem convolution_forgets_old_items
  (self : CNNNet.t) (ids1 ids2 : tensor nat) (N L lo n : nat)
  (a1 f1 a2 f2 : tensor R) (s1 s2 : CNNNet.t) :
  CNNNet_wf self -> CNNNet_quiet self ->
  shape ids1 = [N; L] -> shape ids2 = [N; L] -> n < N ->
  (forall l, lo <= l -> l < L -> data ids1 [n; l] = data ids2 [n; l]) ->
  CNNNet.user_representation self ids1 = Ok (a1, f1, s1) ->
  CNNNet.user_representation self ids2 = Ok (a2, f2, s2) ->
  forall d, d < CNNNet.embedding_dim self ->
    (forall t, lo + lookback self <= t -> t < L ->
       data a1 [n; d; t] = data a2 [n; d; t]) /\
    (lo + lookback self <= L -> data f1 [n; d] = data f2 [n; d]).
Proof.
  intros Hwf Hq Hs1 Hs2 Hn Hids H1 H2 d Hd.
  destruct (CNNNet_rows self ids1 ids2 a1 f1 a2 f2 s1 s2 (lo:=lo) (T:=L)
              Hwf Hq Hs1 Hs2 Hn Hn (Nat.le_refl L) (Nat.le_refl L) Hids H1 H2)
    as (Ha1 & Ha2 & Hag).
  assert (Hsh : shift lo (lookback self) <= lo + lookback self)
    by (unfold shift; destruct (lo =? 0); lia).
  split.
  - intros t Hlo Ht. specialize (Hag d t Hd ltac:(lia) (Nat.lt_le_incl _ _ Ht)).
    unfold step_value in Hag. rewrite Ha1, Ha2 in Hag. cbn [ix nth] in Hag.
    apply Nat.ltb_lt in Ht. now rewrite Ht in Hag.
  - intros Hlo. specialize (Hag d L Hd ltac:(lia) (Nat.le_refl L)).
    unfold step_value in Hag. rewrite Ha1, Ha2 in Hag. cbn [ix nth] in Hag.
    now rewrite Nat.ltb_irrefl in Hag.
Qed.

End Dependence.

(** ** Scores *)

Section ScoresOfTargets.
Context {Sc : Scalar} {E : Elementary Sc}.

Lemma target_scores_one_target (item_embeddings item_biases : Embedding.t)
  (reps : tensor R) (targets : tensor nat) (num dim N : nat) :
  shape (Embedding.weight item_embeddings) = [num; dim] ->
  shape (Embedding.weight item_biases) = [num; 1] ->
  shape reps = [N; dim; 1] -> shape targets = [N; 1] ->
  (forall n, n < N -> data targets [n; 0] < num) ->
  exists x,
    target_scores item_embeddings item_biases reps targets = Ok x /\
    shape x = [N; N] /\
    forall i j, i < N -> j < N ->
      data x [i; j]
      = add (target_bias item_biases targets i 0)
            (target_dot item_embeddings reps targets dim j 0).
Proof.
  intros Hw Hb Hrs Hts Hr0. unfold target_scores.
  assert (Hr : forall n l, n < N -> l < 1 -> data targets [n; l] < num).
  { intros n l Hn Hl. replace l with 0 by lia. auto. }
  destruct (Embedding_forward_spec _ targets Hw Hts Hr) as (e & -> & He & Hed).
  cbn [bind]. unfold permute. rewrite He.
  cbn [shape data length is_perm Nat.eqb forallb existsb seq andb orb map ix nth bind].
  destruct (Embedding_forward_spec _ targets Hb Hts Hr) as (b & -> & Hbs & Hbd).
  cbn [bind]. unfold squeeze at 1. rewrite Hbs.
  cbn [shape data length Nat.ltb Nat.leb ix nth Nat.eqb bind del].
  unfold binop at 1. cbn [shape]. rewrite Hrs, broadcast_shapes_same.
  cbn [bind]. unfold tsum.
  cbn [shape data length Nat.ltb Nat.leb ix nth del bind]. unfold squeeze.
  cbn [shape data length Nat.ltb Nat.leb ix nth Nat.eqb bind del].
  unfold binop. cbn [shape].
  unfold broadcast_shapes. cbn [rev app bshape_rev].
  assert (Hval : forall i j, i < N -> j < N ->
    add (data b (ins (bidx [N; 1] [i; j]) 1 0))
      (sum_n
         (fun d : nat =>
          mul (data reps (bidx [N; dim; 1] (ins (ins (bidx [N] [i; j]) 1 0) 1 d)))
            (data e
               [ix (bidx [N; dim; 1] (ins (ins (bidx [N] [i; j]) 1 0) 1 d))
                  (index_of 0 [0; 2; 1]);
                ix (bidx [N; dim; 1] (ins (ins (bidx [N] [i; j]) 1 0) 1 d))
                  (index_of 1 [0; 2; 1]);
                ix (bidx [N; dim; 1] (ins (ins (bidx [N] [i; j]) 1 0) 1 d))
                  (index_of 2 [0; 2; 1])]))
         dim)
    = add (target_bias item_biases targets i 0)
        (target_dot item_embeddings reps targets dim j 0)).
  { intros i j Hi Hj. unfold target_bias, target_dot.
    unfold bidx at 1 3 5 7 9.
    cbn [length Nat.sub skipn combine map fst snd ins ix nth index_of Nat.eqb].
    replace (if N =? 1 then 0 else i) with i
      by (destruct (Nat.eqb_spec N 1); lia).
    replace (if N =? 1 then 0 else j) with j
      by (destruct (Nat.eqb_spec N 1); lia).
    rewrite Hbd. f_equal. apply sum_n_ext. intros d Hd.
    rewrite bidx_valid by solve_valid.
    cbn [ix nth]. now rewrite Hed. }
  destruct (Nat.eqb_spec 1 N) as [<-|HN].
  - eexists. split; [reflexivity|]. split; [reflexivity|].
    intros i j Hi Hj. cbn [data]. now apply Hval.
  - eexists. split; [reflexivity|]. split; [reflexivity|].
    intros i j Hi Hj. cbn [data]. now apply Hval.
Qed.

Lemma target_scores_more_targets (item_embeddings item_biases : Embedding.t)
  (reps : tensor R) (targets : tensor nat) (num dim N L : nat) :
  shape (Embedding.weight item_embeddings) = [num; dim] ->
  shape (Embedding.weight item_biases) = [num; 1] ->
  shape reps = [N; dim; L] -> shape targets = [N; L] ->
  (forall n l, n < N -> l < L -> data targets [n; l] < num) ->
  2 <= L ->
  match target_scores item_embeddings item_biases reps targets with
  | Ok x => shape x = [N; L; L] /\ (N = 1 \/ N = L) /\
      forall a b c, a < N -> b < L -> c < L ->
        data x [a; b; c]
        = add (target_bias item_biases targets a b)
              (target_dot item_embeddings reps targets dim
                          (if N =? 1 then 0 else b) c)
  | Err e => e = RuntimeError /\ N <> 1 /\ N <> L
  end.
Proof.
  intros Hw Hb Hrs Hts Hr HL. unfold target_scores.
  destruct (Embedding_forward_spec _ targets Hw Hts Hr) as (e & -> & He & Hed).
  cbn [bind]. unfold permute. rewrite He.
  cbn [shape data length is_perm Nat.eqb forallb existsb seq andb orb map ix nth bind].
  destruct (Embedding_forward_spec _ targets Hb Hts Hr) as (b & -> & Hbs & Hbd).
  cbn [bind]. unfold squeeze at 1. rewrite Hbs.
  cbn [shape data length Nat.ltb Nat.leb ix nth].
  destruct (Nat.eqb_spec L 1) as [->|HL1]; [lia|]. cbn [bind].
  unfold binop at 1. cbn [shape]. rewrite Hrs, broadcast_shapes_same.
  cbn [bind]. unfold tsum.
  cbn [shape data length Nat.ltb Nat.leb ix nth del bind]. unfold squeeze.
  cbn [shape data length Nat.ltb Nat.leb ix nth].
  destruct (Nat.eqb_spec L 1) as [->|_]; [lia|]. cbn [bind].
  unfold binop. cbn [shape]. rewrite Hbs.
  unfold broadcast_shapes. cbn [rev app bshape_rev].
  assert (Hval : forall a b' c, N = 1 \/ N = L -> a < N -> b' < L -> c < L ->
    add (data b (bidx [N; L; 1] [a; b'; c]))
      (sum_n
         (fun j : nat =>
          mul (data reps (bidx [N; dim; L] (ins (bidx [N; L] [a; b'; c]) 1 j)))
            (data e
               [ix (bidx [N; dim; L] (ins (bidx [N; L] [a; b'; c]) 1 j))
                  (index_of 0 [0; 2; 1]);
                ix (bidx [N; dim; L] (ins (bidx [N; L] [a; b'; c]) 1 j))
                  (index_of 1 [0; 2; 1]);
                ix (bidx [N; dim; L] (ins (bidx [N; L] [a; b'; c]) 1 j))
                  (index_of 2 [0; 2; 1])]))
         dim)
    = add (target_bias item_biases targets a b')
        (target_dot item_embeddings reps targets dim (if N =? 1 then 0 else b') c)).
  { intros a b' c HN Ha Hb' Hc. unfold target_bias, target_dot.
    unfold bidx at 1 3 5 7 9.
    cbn [length Nat.sub skipn combine map fst snd ins ix nth index_of Nat.eqb].
    destruct (Nat.eqb_spec L 1) as [->|_]; [lia|].
    replace (if N =? 1 then 0 else a) with a
      by (destruct (Nat.eqb_spec N 1); lia).
    rewrite Hbd. f_equal. apply sum_n_ext. intros j Hj.
    rewrite bidx_valid
      by (destruct (Nat.eqb_spec N 1); solve_valid).
    cbn [ix nth]. now rewrite Hed. }
  destruct (Nat.eqb_spec L N) as [->|HLN].
  - destruct (Nat.eqb_spec 1 N) as [<-|_]; [lia|].
    cbn [option_map rev app shape data].
    split; [reflexivity|]. split; [auto|].
    intros a b' c Ha Hb' Hc. apply Hval; auto.
  - destruct (Nat.eqb_spec L 1) as [->|_]; [lia|].
    destruct (Nat.eqb_spec N 1) as [->|HN1].
    + destruct (Nat.eqb_spec 1 L) as [<-|_]; [lia|].
      cbn [option_map rev app shape data].
      split; [reflexivity|]. split; [auto|].
      intros a b' c Ha Hb' Hc. apply (Hval a b' c); auto.
    + simpl. repeat split; auto.
Qed.

Lemma forward_is_target_scores (enc : encoder) (reps : tensor R)
  (targets : tensor nat) :
  forward enc reps targets
  = target_scores (item_embeddings enc) (item_biases enc) reps targets.
Proof. destruct enc; reflexivity. Qed.

(** X13.  Scoring one target per sequence: for representations of
    shape [N; D; 1] and targets of shape [N; 1], [forward] of every
    variant returns a tensor of shape [N; N] whose entry [i; j] is the
    bias of the target of sequence [i] plus the dot product of the
    representation of sequence [j] with the embedding of its target.
    For one sequence this is the one score of the docstring. *)
Theorem forward_scores_one_target
  (enc : encoder) (reps : tensor R) (targets : tensor nat) (num dim N : nat) :
  shape (Embedding.weight (item_embeddings enc)) = [num; dim] ->
  shape (Embedding.weight (item_biases enc)) = [num; 1] ->
  shape reps = [N; dim; 1] -> shape targets = [N; 1] ->
  (forall n, n < N -> data targets [n; 0] < num) ->
  exists x,
    forward enc reps targets = Ok x /\
    shape x = [N; N] /\
    forall i j, i < N -> j < N ->
      data x [i; j]
      = add (target_bias (item_biases enc) targets i 0)
            (target_dot (item_embeddings enc) reps targets dim j 0).
Proof.
  intros Hw Hb Hrs Hts Hr. rewrite forward_is_target_scores.
  now apply (target_scores_one_target _ _ reps targets num dim N).
Qed.

(** X14.  Scoring [L >= 2] targets per sequence: for representations
    of shape [N; D; L] and targets of shape [N; L], [forward] of every
    variant raises [RuntimeError] unless [N] is 1 or [L]; then it
    returns a tensor of shape [N; L; L] whose entry [a; b; c] is the
    bias of target [b] of sequence [a] plus the dot product of step [c]
    of sequence 0, when [N] is 1, and of sequence [b] otherwise. *)
Theorem forward_scores_more_targets
  (enc : encoder) (reps : tensor R) (targets : tensor nat)
  (num dim N L : nat) :
  shape (Embedding.weight (item_embeddings enc)) = [num; dim] ->
  shape (Embedding.weight (item_biases enc)) = [num; 1] ->
  shape reps = [N; dim; L] -> shape targets = [N; L] ->
  (forall n l, n < N -> l < L -> data targets [n; l] < num) ->
  2 <= L ->
  match forward enc reps targets with
  | Ok x => shape x = [N; L; L] /\ (N = 1 \/ N = L) /\
      forall a b c, a < N -> b < L -> c < L ->
        data x [a; b; c]
        = add (target_bias (item_biases enc) targets a b)
              (target_dot (item_embeddings enc) reps targets dim
                          (if N =? 1 then 0 else b) c)
  | Err e => e = RuntimeError /\ N <> 1 /\ N <> L
  end.
Proof.
  intros Hw Hb Hrs Hts Hr HL. rewrite forward_is_target_scores.
  now apply (target_scores_more_targets _ _ reps targets num dim N L).
Qed.

End ScoresOfTargets.

(** ** Normalisation layers and recurrent states *)

Section LayersAndStates.
Context {Sc : Scalar} {E : Elementary Sc}.

(** X15.  A call changes only the normalisation layers it applies: the
    first convolution applies [bn[0]] and the loop applies [bn[i]] with
    [i] counted from 0 at the second convolution.  So in a module of
    [n] convolutions every normalisation layer from index [n - 1] on,
    the first one apart, is left as it was by a call, in training mode
    too; with two or more convolutions that is the last layer. *)
Theorem later_norm_layers_are_untouched (self : CNNNet.t) (ids : tensor nat)
  (a f : tensor R) (self' : CNNNet.t) (j : nat) :
  CNNNet.user_representation self ids = Ok (a, f, self') ->
  1 <= j -> length (CNNNet.cnn_layers self) - 1 <= j ->
  nth_error (CNNNet.bn self') j = nth_error (CNNNet.bn self) j.
Proof.
  unfold CNNNet.user_representation. intros Hr Hj Hlen.
  apply bind_ok in Hr. destruct Hr as (e & _ & Hr).
  apply bind_ok in Hr. destruct Hr as ([x c] & Hx & Hr).
  apply bind_ok in Hr. destruct Hr as ([y c'] & Hy & Hr).
  apply bind_ok in Hr. destruct Hr as (u & _ & Hr).
  apply bind_ok in Hr. destruct Hr as ([a' f'] & _ & Hr).
  injection Hr as <- <- <-. cbn [CNNNet.with_bn CNNNet.bn].
  rewrite (layers_loop_touches_below self _ 0 x y c c' j Hy).
  - unfold CNNNet.first_layer in Hx.
    apply bind_ok in Hx. destruct Hx as (k0 & _ & Hx).
    apply bind_ok in Hx. destruct Hx as (d0 & _ & Hx).
    apply bind_ok in Hx. destruct Hx as (p & _ & Hx).
    apply bind_ok in Hx. destruct Hx as (layer0 & _ & Hx).
    apply bind_ok in Hx. destruct Hx as (z & _ & Hx).
    apply bind_ok in Hx. destruct Hx as ([v c0] & Hv & Hx).
    apply bind_ok in Hx. destruct Hx as (w & _ & Hx).
    injection Hx as <- <-.
    eapply apply_bn_touches_one; eauto. lia.
  - right. rewrite !length_combine.
    destruct (CNNNet.cnn_layers self) as [|l0 ls]; simpl in *; lia.
Qed.

(** X16.  The recurrent representations are the hidden states of the
    LSTM run from the zero state over the zero vector followed by the
    embeddings of the items: step [t], for [t] up to the length of the
    sequence, is the hidden state after the zero vector and the first
    [t] items, and the last of them is the final representation. *)
Theorem recurrent_steps_are_hidden_states
  (self : LSTMNet.t) (ids : tensor nat) (num dim N L : nat) :
  shape (Embedding.weight (LSTMNet.item_embeddings self)) = [num; dim] ->
  LSTM.input_size (LSTMNet.lstm self) = dim ->
  shape ids = [N; L] ->
  (forall n l, n < N -> l < L -> data ids [n; l] < num) ->
  exists a f,
    LSTMNet.user_representation self ids = Ok (a, f) /\
    forall n d t, n < N -> t <= L ->
      step_value a f n d t
      = nth d (fst (LSTM.run (LSTMNet.lstm self)
                      (fun s => map (fun j => padded (LSTMNet.item_embeddings self)
                                                     ids n j s)
                                    (seq 0 dim))
                      (S t)))
            zero.
Proof.
  intros Hw Hin Hs Hr.
  destruct (LSTMNet_user_representation_spec self ids Hw Hin Hs Hr)
    as (a & f & Hrun & _).
  exists a, f. split; [assumption|].
  intros n d t Hn Ht.
  exact (LSTMNet_steps self ids a f Hw Hin Hs Hrun n d t Hn Ht).
Qed.

End LayersAndStates.

(** ** Tied weights *)

Lemma bind_assoc {A B C} (c : result A) (k : A -> result B) (h : B -> result C) :
  bind (bind c k) h = bind c (fun a => bind (k a) h).
Proof. now destruct c. Qed.

(** C10.  In every variant, [user_representation] depends on the item
    sequences only through the rows [item_embeddings] gives for them,
    and every score [forward] returns is a row of [item_biases] plus
    the dot product of a representation with a row of the same
    [item_embeddings].  For an item [j], in the sequences at [(n, l)]
    and among the targets at [(n', l')]: the vector the sequence side
    gets for it is row [j] of the table, the dot product of the target
    is taken with that same vector, and the bias of the target is row
    [j] of the bias table. *)
Theorem tied_item_tables {Sc : Scalar} {E : Elementary Sc}
  (enc : encoder) (ids targets : tensor nat) (reps : tensor R)
  (num dim N L N' L' n l n' l' j : nat) :
  shape (Embedding.weight (item_embeddings enc)) = [num; dim] ->
  shape (Embedding.weight (item_biases enc)) = [num; 1] ->
  shape ids = [N; L] -> shape targets = [N'; L'] ->
  shape reps = [N'; dim; L'] ->
  (forall n l, n < N -> l < L -> data ids [n; l] < num) ->
  (forall n l, n < N' -> l < L' -> data targets [n; l] < num) ->
  data ids [n; l] = j -> data targets [n'; l'] = j ->
  (exists encode, forall ids,
     user_representation enc ids
     = (se <- channel_embeddings (item_embeddings enc) ids ;; encode se)) /\
  (exists se,
     channel_embeddings (item_embeddings enc) ids = Ok se /\
     (forall d, data se [n; d; l; 0]
                = data (Embedding.weight (item_embeddings enc)) [j; d]) /\
     target_dot (item_embeddings enc) reps targets dim n' l'
     = sum_n (fun d => mul (data reps [n'; d; l']) (data se [n; d; l; 0])) dim /\
     target_bias (item_biases enc) targets n' l'
     = data (Embedding.weight (item_biases enc)) [j; 0]) /\
  (L' = 1 ->
   exists x,
     forward enc reps targets = Ok x /\ shape x = [N'; N'] /\
     forall i k, i < N' -> k < N' ->
       data x [i; k]
       = add (target_bias (item_biases enc) targets i 0)
             (target_dot (item_embeddings enc) reps targets dim k 0)) /\
  (2 <= L' ->
   match forward enc reps targets with
   | Ok x =>
       shape x = [N'; L'; L'] /\ (N' = 1 \/ N' = L') /\
       forall a b c, a < N' -> b < L' -> c < L' ->
         data x [a; b; c]
         = add (target_bias (item_biases enc) targets a b)
               (target_dot (item_embeddings enc) reps targets dim
                           (if N' =? 1 then 0 else b) c)
   | Err e => e = RuntimeError /\ N' <> 1 /\ N' <> L'
   end).
Proof.
  intros Hw Hb Hs Ht Hrs Hr Hr' Hj Hj'. split; [|split; [|split]].
  - destruct enc as [m|m|m]; simpl.
    + eexists. intros ids0. unfold PoolNet.user_representation.
      rewrite bind_assoc. reflexivity.
    + eexists. intros ids0. unfold LSTMNet.user_representation.
      rewrite bind_assoc. reflexivity.
    + eexists. intros ids0. unfold CNNNet.user_representation.
      rewrite bind_assoc. reflexivity.
  - destruct (channel_embeddings_spec _ ids Hw Hs Hr) as (se & Hse & _ & Hsed).
    exists se. split; [assumption|]. split; [|split].
    + intros d. rewrite Hsed. congruence.
    + unfold target_dot. apply sum_n_ext. intros d Hd.
      rewrite Hsed. congruence.
    + unfold target_bias. congruence.
  - intros HL. subst L'. rewrite forward_is_target_scores.
    apply (target_scores_one_target _ _ reps targets num dim N'); auto.
  - intros HL. rewrite forward_is_target_scores.
    apply (target_scores_more_targets _ _ reps targets num dim N' L'); auto.
Qed.

(** ** The further properties at concrete modules *)

(** [unknown_item_raises_index_error] at a pooling module of three
    items and the batch [[1, 5]]. *)
Lemma unknown_item_raises_index_error_witness :
  user_representation (E:=binary64_elementary) (Pooling demo_pool)
    (of_list2 0 [[1; 5]]) = Err IndexError.
Proof.
  apply (unknown_item_raises_index_error (E:=binary64_elementary)
           (Pooling demo_pool) (of_list2 0 [[1; 5]]) 3 1 [0; 1]).
  - reflexivity.
  - cbn [shape of_list2 length hd]. solve_valid.
  - vm_compute. lia.
Defined.

(** [unknown_target_raises_index_error] at the scoring module of two
    items and the target 3. *)
Lemma unknown_target_raises_index_error_witness :
  forward (Pooling spec_scorer) (exact_tensor3 [[[1]; [0]]]%Q)
    (of_list2 0 [[3]]) = Err IndexError.
Proof.
  apply (unknown_target_raises_index_error (Sc:=exact)
           (Pooling spec_scorer) (exact_tensor3 [[[1]; [0]]]%Q)
           (of_list2 0 [[3]]) 2 2 [0; 0]).
  - reflexivity.
  - cbn [shape of_list2 length hd]. solve_valid.
  - vm_compute. lia.
Defined.

(** [batch_must_be_two_dimensional] at one sequence [1, 1] given
    without its batch dimension. *)
Lemma batch_must_be_two_dimensional_witness :
  user_representation (E:=binary64_elementary) (Pooling demo_pool)
    (mkT [2] (fun _ => 1)) = Err RuntimeError.
Proof.
  apply (batch_must_be_two_dimensional (E:=binary64_elementary)
           (Pooling demo_pool) (mkT [2] (fun _ => 1)) 3 1).
  - reflexivity.
  - intros idx _. cbn [data]. lia.
  - cbn [shape length]. lia.
Defined.

(** [int_arguments_are_repeated] at [kernel_width=3], [dilation=1] and
    [num_layers=2]. *)
Lemma int_arguments_are_repeated_witness :
  exists net,
    CNNNet.init (Sc:=binary64) demo_rng 3 1 (Int 3) (Int 1) 2 "tanh"
      true true false true = Ok net /\
    CNNNet.kernel_width net = [3; 3] /\
    length (CNNNet.cnn_layers net) = 2 /\ length (CNNNet.bn net) = 2.
Proof.
  destruct (int_arguments_are_repeated (Sc:=binary64) demo_rng 3 1 3 1 2
              "tanh" true true false true (or_introl eq_refl))
    as (net & Hnet & Hk & _ & Hl & _ & Hb & _).
  exists net. auto.
Defined.

(** [no_layer_fails_at_the_first_call] at [num_layers=0]. *)
Lemma no_layer_fails_at_the_first_call_witness :
  exists net,
    CNNNet.init (Sc:=binary64) demo_rng 3 1 (Int 3) (Int 1) 0 "relu"
      true true false true = Ok net /\
    CNNNet.cnn_layers net = [] /\
    CNNNet.user_representation (E:=binary64_elementary) net (of_list2 0 [[1; 2]])
    = Err IndexError.
Proof.
  apply (no_layer_fails_at_the_first_call (E:=binary64_elementary) demo_rng
           3 1 (Int 3) (Int 1) 0 "relu" true true false true
           (of_list2 0 [[1; 2]]) 1 2).
  - right. reflexivity.
  - reflexivity.
  - reflexivity.
  - intros n l Hn Hl. destruct n as [|n]; [|lia].
    destruct l as [|[|l]]; [| |lia]; vm_compute; lia.
Defined.

(** [fresh_CNNNet_encodes] at a fresh two-layer module and the batch
    [[1, 2]]. *)
Lemma fresh_CNNNet_encodes_witness :
  exists net a f net',
    CNNNet.init (Sc:=binary64) demo_rng 3 1 (Int 3) (Int 1) 2 "tanh"
      true true false true = Ok net /\
    CNNNet.user_representation (E:=binary64_elementary) net (of_list2 0 [[1; 2]])
    = Ok (a, f, net') /\
    shape a = [1; 1; 2] /\ shape f = [1; 1].
Proof.
  apply (fresh_CNNNet_encodes (E:=binary64_elementary) demo_rng
           3 1 (Int 3) (Int 1) 2 "tanh" true true false true
           (of_list2 0 [[1; 2]]) 1 2).
  - left. reflexivity.
  - discriminate.
  - discriminate.
  - repeat constructor.
  - repeat constructor.
  - reflexivity.
  - intros n l Hn Hl. destruct n as [|n]; [|lia].
    destruct l as [|[|l]]; [| |lia]; vm_compute; lia.
  - intros _ _. lia.
Defined.

(** [fresh_PoolNet_and_LSTMNet_encode] at modules of three items and
    the batch [[1, 2]]. *)
Lemma fresh_PoolNet_and_LSTMNet_encode_witness :
  (exists a f,
     PoolNet.user_representation demo_pool (of_list2 0 [[1; 2]]) = Ok (a, f) /\
     shape a = [1; 1; 2] /\ shape f = [1; 1]) /\
  (exists a f,
     LSTMNet.user_representation (E:=binary64_elementary) demo_lstm
       (of_list2 0 [[1; 2]]) = Ok (a, f) /\
     shape a = [1; 1; 2] /\ shape f = [1; 1]).
Proof.
  apply (fresh_PoolNet_and_LSTMNet_encode (E:=binary64_elementary) demo_rng
           3 1 false (of_list2 0 [[1; 2]]) 1 2).
  - reflexivity.
  - intros n l Hn Hl. destruct n as [|n]; [|lia].
    destruct l as [|[|l]]; [| |lia]; vm_compute; lia.
Defined.

(** [pooling_starts_from_zero] at the pooling example of the spec. *)
Lemma pooling_starts_from_zero_witness :
  exists a f,
    PoolNet.user_representation spec_pool (of_list2 0 [[5; 0; 7]]) = Ok (a, f) /\
    data a [0; 0; 0] = zero.
Proof.
  destruct (pooling_starts_from_zero (Sc:=exact) spec_pool
              (of_list2 0 [[5; 0; 7]]) 8 1 1 3)
    as (a & f & Hr & Ha & _).
  - reflexivity.
  - exact (zero_over_one exact_counting).
  - reflexivity.
  - reflexivity.
  - intros n l Hn Hl. destruct n as [|n]; [|lia].
    destruct l as [|[|[|l]]]; [| | |lia]; vm_compute; lia.
  - exists a, f. split; [exact Hr|]. apply Ha; lia.
Defined.

(** [padding_keeps_the_average] on binary64: in the sequence [1, 0, 2]
    the second item is padding, and the steps 1 and 2 have the same
    representation. *)
Lemma padding_keeps_the_average_witness :
  exists a f,
    PoolNet.user_representation demo_pool (of_list2 0 [[1; 0; 2]]) = Ok (a, f) /\
    step_value a f 0 0 2 = step_value a f 0 0 1.
Proof.
  destruct (padding_keeps_the_average (Sc:=binary64) demo_pool
              (of_list2 0 [[1; 0; 2]]) 3 1 1 3)
    as (a & f & Hr & Hv).
  - reflexivity.
  - reflexivity.
  - reflexivity.
  - intros n l Hn Hl. destruct n as [|n]; [|lia].
    destruct l as [|[|[|l]]]; [| | |lia]; vm_compute; lia.
  - intros d Hd. reflexivity.
  - exists a, f. split; [exact Hr|].
    destruct (Hv 0 0 1) as (_ & _ & Heq); [lia | lia | lia | reflexivity |].
    apply Heq; vm_compute; reflexivity.
Defined.

(** [sequences_are_encoded_independently] at the one-layer module in
    evaluation mode: the sequence [1, 2] alone and as the second row of
    a batch of two. *)
Lemma sequences_are_encoded_independently_witness :
  match user_representation (E:=binary64_elementary) (CausalConv demo_net_eval)
          (of_list2 0 [[1; 2]]),
        user_representation (E:=binary64_elementary) (CausalConv demo_net_eval)
          (of_list2 0 [[2; 1]; [1; 2]]) with
  | Ok (a1, f1, _), Ok (a2, f2, _) =>
      forall d, d < embedding_dim (CausalConv demo_net_eval) ->
        (forall t, t < 2 -> data a1 [0; d; t] = data a2 [1; d; t]) /\
        data f1 [0; d] = data f2 [1; d]
  | _, _ => False
  end.
Proof.
  destruct (user_representation (E:=binary64_elementary) (CausalConv demo_net_eval)
              (of_list2 0 [[1; 2]])) as [[[a1 f1] e1]|] eqn:H1;
    [destruct (user_representation (E:=binary64_elementary)
                 (CausalConv demo_net_eval) (of_list2 0 [[2; 1]; [1; 2]]))
       as [[[a2 f2] e2]|] eqn:H2|].
  - apply (sequences_are_encoded_independently (E:=binary64_elementary)
             (CausalConv demo_net_eval)
             (of_list2 0 [[1; 2]]) (of_list2 0 [[2; 1]; [1; 2]])
             1 2 2 0 1 a1 f1 a2 f2 e1 e2).
    + exact demo_net_eval_wf.
    + exact demo_net_eval_quiet.
    + reflexivity.
    + reflexivity.
    + lia.
    + lia.
    + intros l Hl. destruct l as [|[|l]]; [| |lia]; reflexivity.
    + exact H1.
    + exact H2.
  - apply (f_equal succeeded) in H2. vm_compute in H2. discriminate.
  - apply (f_equal succeeded) in H1. vm_compute in H1. discriminate.
Defined.

(** [final_representation_is_the_next_step] at the one-layer module in
    evaluation mode: the sequence [1, 2] and its extension [1, 2, 1]. *)
Lemma final_representation_is_the_next_step_witness :
  match user_representation (E:=binary64_elementary) (CausalConv demo_net_eval)
          (of_list2 0 [[1; 2]]),
        user_representation (E:=binary64_elementary) (CausalConv demo_net_eval)
          (of_list2 0 [[1; 2; 1]]) with
  | Ok (a1, f1, _), Ok (a2, f2, _) =>
      forall d, d < embedding_dim (CausalConv demo_net_eval) ->
        data f1 [0; d] = data a2 [0; d; 2] /\
        (forall t, t < 2 -> data a1 [0; d; t] = data a2 [0; d; t])
  | _, _ => False
  end.
Proof.
  destruct (user_representation (E:=binary64_elementary) (CausalConv demo_net_eval)
              (of_list2 0 [[1; 2]])) as [[[a1 f1] e1]|] eqn:H1;
    [destruct (user_representation (E:=binary64_elementary)
                 (CausalConv demo_net_eval) (of_list2 0 [[1; 2; 1]]))
       as [[[a2 f2] e2]|] eqn:H2|].
  - apply (final_representation_is_the_next_step (E:=binary64_elementary)
             (CausalConv demo_net_eval)
             (of_list2 0 [[1; 2]]) (of_list2 0 [[1; 2; 1]])
             1 1 2 3 0 0 a1 f1 a2 f2 e1 e2).
    + exact demo_net_eval_wf.
    + exact demo_net_eval_quiet.
    + reflexivity.
    + reflexivity.
    + lia.
    + lia.
    + lia.
    + intros l Hl. destruct l as [|[|l]]; [| |lia]; reflexivity.
    + exact H1.
    + exact H2.
  - apply (f_equal succeeded) in H2. vm_compute in H2. discriminate.
  - apply (f_equal succeeded) in H1. vm_compute in H1. discriminate.
Defined.

(** [convolution_forgets_old_items] at the one-layer module in
    evaluation mode, whose lookback is 3: the sequences [1, 2, 1, 2, 1]
    and [2, 2, 1, 2, 1] differ in their first item only, and step 4
    and the final representation are the same. *)
Lemma convolution_forgets_old_items_witness :
  lookback demo_net_eval = 3 /\
  match CNNNet.user_representation (E:=binary64_elementary) demo_net_eval
          (of_list2 0 [[1; 2; 1; 2; 1]]),
        CNNNet.user_representation (E:=binary64_elementary) demo_net_eval
          (of_list2 0 [[2; 2; 1; 2; 1]]) with
  | Ok (a1, f1, _), Ok (a2, f2, _) =>
      data a1 [0; 0; 4] = data a2 [0; 0; 4] /\ data f1 [0; 0] = data f2 [0; 0]
  | _, _ => False
  end.
Proof.
  split; [reflexivity|].
  destruct (CNNNet.user_representation (E:=binary64_elementary) demo_net_eval
              (of_list2 0 [[1; 2; 1; 2; 1]])) as [[[a1 f1] s1]|] eqn:H1;
    [destruct (CNNNet.user_representation (E:=binary64_elementary)
                 demo_net_eval (of_list2 0 [[2; 2; 1; 2; 1]]))
       as [[[a2 f2] s2]|] eqn:H2|].
  - destruct (convolution_forgets_old_items (E:=binary64_elementary)
                demo_net_eval
                (of_list2 0 [[1; 2; 1; 2; 1]]) (of_list2 0 [[2; 2; 1; 2; 1]])
                1 5 1 0 a1 f1 a2 f2 s1 s2
                demo_net_eval_wf demo_net_eval_quiet eq_refl eq_refl)
      with (d := 0) as (Ha & Hf).
    + lia.
    + intros l Hlo Hl.
      destruct l as [|[|[|[|[|l]]]]]; [lia| | | | |lia]; reflexivity.
    + exact H1.
    + exact H2.
    + vm_compute. lia.
    + split; [apply Ha; [vm_compute; lia | lia] | apply Hf; vm_compute; lia].
  - apply (f_equal succeeded) in H2. vm_compute in H2. discriminate.
  - apply (f_equal succeeded) in H1. vm_compute in H1. discriminate.
Defined.

(** [forward_scores_one_target] at the scoring example of the spec. *)
Lemma forward_scores_one_target_witness :
  exists x,
    forward (Pooling spec_scorer) (exact_tensor3 [[[1]; [0]]]%Q)
      (of_list2 0 [[1]]) = Ok x /\
    shape x = [1; 1] /\
    data x [0; 0]
    = add (target_bias (PoolNet.item_biases spec_scorer) (of_list2 0 [[1]]) 0 0)
          (target_dot (PoolNet.item_embeddings spec_scorer)
                      (exact_tensor3 [[[1]; [0]]]%Q) (of_list2 0 [[1]]) 2 0 0).
Proof.
  destruct (forward_scores_one_target (Sc:=exact) (Pooling spec_scorer)
              (exact_tensor3 [[[1]; [0]]]%Q) (of_list2 0 [[1]]) 2 2 1)
    as (x & Hx & Hs & Hd).
  - reflexivity.
  - reflexivity.
  - reflexivity.
  - reflexivity.
  - intros n Hn. destruct n as [|n]; [|lia]. vm_compute. lia.
  - exists x. split; [exact Hx|]. split; [exact Hs|]. apply Hd; lia.
Defined.

(** [forward_scores_more_targets] at one sequence of two targets. *)
Lemma forward_scores_more_targets_witness :
  match forward (Pooling spec_scorer) (exact_tensor3 [[[1; 1]; [0; 0]]]%Q)
          (of_list2 0 [[1; 0]]) with
  | Ok x => shape x = [1; 2; 2]
  | Err _ => False
  end.
Proof.
  pose proof (forward_scores_more_targets (Sc:=exact) (Pooling spec_scorer)
                (exact_tensor3 [[[1; 1]; [0; 0]]]%Q) (of_list2 0 [[1; 0]])
                2 2 1 2 eq_refl eq_refl eq_refl eq_refl) as H.
  destruct (forward (Pooling spec_scorer) (exact_tensor3 [[[1; 1]; [0; 0]]]%Q)
              (of_list2 0 [[1; 0]])) as [x|e].
  - apply H; [|lia].
    intros n l Hn Hl. destruct n as [|n]; [|lia].
    destruct l as [|[|l]]; [| |lia]; vm_compute; lia.
  - destruct H as (_ & HN & _); [|lia|congruence].
    intros n l Hn Hl. destruct n as [|n]; [|lia].
    destruct l as [|[|l]]; [| |lia]; vm_compute; lia.
Defined.

(** [later_norm_layers_are_untouched] at a call on the fresh two-layer
    module, in training mode: its second normalisation layer stays. *)
Lemma later_norm_layers_are_untouched_witness :
  match CNNNet.user_representation (E:=binary64_elementary) demo_net2
          (of_list2 0 [[1; 2; 1]]) with
  | Ok (_, _, net') => nth_error (CNNNet.bn net') 1 = nth_error (CNNNet.bn demo_net2) 1
  | Err _ => False
  end.
Proof.
  destruct (CNNNet.user_representation (E:=binary64_elementary) demo_net2
              (of_list2 0 [[1; 2; 1]])) as [[[a f] net']|] eqn:Hr.
  - apply (later_norm_layers_are_untouched (E:=binary64_elementary) demo_net2
             (of_list2 0 [[1; 2; 1]]) a f net' 1 Hr).
    + lia.
    + vm_compute. lia.
  - apply (f_equal succeeded) in Hr. vm_compute in Hr. discriminate.
Defined.

(** [recurrent_steps_are_hidden_states] at a recurrent module of three
    items and the batch [[1, 2]]: the final representation is the
    hidden state after three steps. *)
Lemma recurrent_steps_are_hidden_states_witness :
  exists a f,
    LSTMNet.user_representation (E:=binary64_elementary) demo_lstm
      (of_list2 0 [[1; 2]]) = Ok (a, f) /\
    step_value a f 0 0 2
    = nth 0 (fst (LSTM.run (E:=binary64_elementary) (LSTMNet.lstm demo_lstm)
                    (fun s => map (fun j => padded (LSTMNet.item_embeddings demo_lstm)
                                                   (of_list2 0 [[1; 2]]) 0 j s)
                                  (seq 0 1))
                    3))
          zero.
Proof.
  destruct (recurrent_steps_are_hidden_states (E:=binary64_elementary) demo_lstm
              (of_list2 0 [[1; 2]]) 3 1 1 2)
    as (a & f & Hr & Hv).
  - reflexivity.
  - reflexivity.
  - reflexivity.
  - intros n l Hn Hl. destruct n as [|n]; [|lia].
    destruct l as [|[|l]]; [| |lia]; vm_compute; lia.
  - exists a, f. split; [exact Hr|]. apply Hv; lia.
Defined.

(** [pooling_ignores_left_padding] on binary64: the sequence [1, 2] and
    the same with two padding items in front, [0, 0, 1, 2]. *)
Lemma pooling_ignores_left_padding_witness :
  exists a1 f1 a2 f2,
    PoolNet.user_representation demo_pool (of_list2 0 [[1; 2]]) = Ok (a1, f1) /\
    PoolNet.user_representation demo_pool (of_list2 0 [[0; 0; 1; 2]])
    = Ok (a2, f2) /\
    data f2 [0; 0] = data f1 [0; 0] /\ data a2 [0; 0; 3] = data a1 [0; 0; 1].
Proof.
  destruct (pooling_ignores_left_padding (Sc:=binary64) demo_pool
              (of_list2 0 [[1; 2]]) (of_list2 0 [[0; 0; 1; 2]])
              3 1 1 1 2 2 0 0)
    as (a1 & f1 & a2 & f2 & H1 & H2 & Hv).
  - reflexivity.
  - reflexivity.
  - reflexivity.
  - reflexivity.
  - reflexivity.
  - intros n l Hn Hl. destruct n as [|n]; [|lia].
    destruct l as [|[|l]]; [| |lia]; vm_compute; lia.
  - intros n l Hn Hl. destruct n as [|n]; [|lia].
    destruct l as [|[|[|[|l]]]]; [| | | |lia]; vm_compute; lia.
  - intros d Hd. reflexivity.
  - lia.
  - lia.
  - intros l Hl. destruct l as [|[|l]]; [| |lia]; reflexivity.
  - intros l Hl. destruct l as [|[|l]]; [| |lia]; reflexivity.
  - exists a1, f1, a2, f2. split; [exact H1|]. split; [exact H2|].
    destruct (Hv 0 ltac:(lia)) as (Hf & Ha).
    split; [exact Hf|]. exact (Ha 1 ltac:(lia)).
Defined.

(** [tied_item_tables] at a pooling module: item 2 at position 0 of the
    sequence [2, 0, 1] and as the one target. *)
Lemma tied_item_tables_witness :
  exists se x,
    channel_embeddings (PoolNet.item_embeddings demo_pool) (of_list2 0 [[2; 0; 1]])
    = Ok se /\
    forward (Pooling demo_pool) demo_reps (of_list2 0 [[2]]) = Ok x /\
    data x [0; 0]
    = add (Scalar:=binary64)
          (data (Embedding.weight (PoolNet.item_biases demo_pool)) [2; 0])
          (sum_n (Sc:=binary64)
                 (fun d => mul (Scalar:=binary64) (data demo_reps [0; d; 0])
                               (data se [0; d; 0; 0])) 1).
Proof.
  destruct (tied_item_tables (E:=binary64_elementary) (Pooling demo_pool)
              (of_list2 0 [[2; 0; 1]]) (of_list2 0 [[2]]) demo_reps
              3 1 1 3 1 1 0 0 0 0 2)
    as (_ & (se & Hse & _ & Hdot & Hbias) & Hone & _).
  - reflexivity.
  - reflexivity.
  - reflexivity.
  - reflexivity.
  - reflexivity.
  - intros n l Hn Hl. destruct n as [|n]; [|lia].
    destruct l as [|[|[|l]]]; [| | |lia]; vm_compute; lia.
  - intros n l Hn Hl. destruct n as [|n]; [|lia].
    destruct l as [|l]; [|lia]. vm_compute; lia.
  - reflexivity.
  - reflexivity.
  - destruct (Hone eq_refl) as (x & Hx & _ & Hv).
    exists se, x. split; [exact Hse|]. split; [exact Hx|].
    rewrite (Hv 0 0) by lia. rewrite Hdot, Hbias. reflexivity.
Defined.
